(** * Embedding ingestion and vector search: [repositories/repository.go]

    A shallow embedding of the Go package [repositories] and of the parts of
    the Go standard library its functions call ([strings], [fmt], [strconv]),
    followed by the properties of the vector codec ([vectorToString],
    [parseVectorString]), of endpoint resolution ([getOllamaURL]), of ingestion
    ([CreateDocument]) and of similarity search ([SearchSimilarDocuments]).

    Go strings are byte sequences: they are modelled as [string], whose
    characters ([ascii]) are the 256 byte values.  A [float32] is an IEEE 754
    binary32 datum, modelled by the Standard Library's [spec_float] at
    precision 24 and exponent bound 128.  A function that can panic returns
    an [option]; a function that talks to the provider or to the store takes
    them as a record of oracles and returns, with its results, the events of
    the call.

    The file has three parts: the embedding, the auxiliary definitions the
    proofs are stated with, and the properties. *)

From Stdlib Require Import ZArith NArith QArith Qabs Lia Bool Ascii String List.
From Stdlib Require Import Floats.SpecFloat.
From stdpp Require Import base option list gmap strings sorting.

Local Open Scope Z_scope.

(** ** Bytes *)

Definition byte_val (c : ascii) : N := N_of_ascii c.

Definition byte_between (lo hi c : ascii) : bool :=
  ((byte_val lo <=? byte_val c) && (byte_val c <=? byte_val hi))%N.

(** [isDigit]: ['0' <= c && c <= '9']. *)
Definition is_digit (c : ascii) : bool := byte_between "0" "9" c.

(** [strconv.lower]: [c | ('x' - 'X')], i.e. bit 5 is set. *)
Definition lower (c : ascii) : ascii :=
  let '(Ascii b0 b1 b2 b3 b4 _ b6 b7) := c in Ascii b0 b1 b2 b3 b4 true b6 b7.

(** The decimal digit [d] (below ten) as a byte. *)
Definition digit_char (d : N) : ascii := ascii_of_N (48 + d).

Definition digit_val (c : ascii) : N := (byte_val c - 48)%N.

(** ** The [strings] package *)

Module GoStrings.

(** [strings.IndexByte(cutset, c) >= 0]. *)
Fixpoint contains_byte (cutset : string) (c : ascii) : bool :=
  match cutset with
  | EmptyString => false
  | String k rest => Ascii.eqb k c || contains_byte rest c
  end.

(** [trimLeftASCII]: drops the leading bytes that are in the set. *)
Fixpoint trimLeftASCII (s cutset : string) : string :=
  match s with
  | EmptyString => EmptyString
  | String c s' => if contains_byte cutset c then trimLeftASCII s' cutset else s
  end.

(** [trimRightASCII]: drops the trailing bytes that are in the set. *)
Fixpoint trimRightASCII (s cutset : string) : string :=
  match s with
  | EmptyString => EmptyString
  | String c s' =>
      match trimRightASCII s' cutset with
      | EmptyString => if contains_byte cutset c then EmptyString else String c EmptyString
      | r => String c r
      end
  end.

(** [strings.Trim(s, cutset)] for a cutset of ASCII bytes (the package
    calls it with ["[]"]): Go builds the byte set and returns
    [trimLeftASCII(trimRightASCII(s, &as), &as)]. *)
Definition Trim (s cutset : string) : string :=
  trimLeftASCII (trimRightASCII s cutset) cutset.

(** [strings.Split(s, sep)] for a separator of one byte (the package calls
    it with [","]): the substrings between the occurrences of the byte, one
    more than there are occurrences; [Split("", sep)] is [[""]]. *)
Fixpoint Split (s : string) (sep : ascii) : list string :=
  match s with
  | EmptyString => [EmptyString]
  | String c s' =>
      if Ascii.eqb c sep then EmptyString :: Split s' sep
      else match Split s' sep with
           | part :: parts => String c part :: parts
           | [] => [String c EmptyString]
           end
  end.

(** [strings.Join(elems, sep)]. *)
Fixpoint Join (elems : list string) (sep : string) : string :=
  match elems with
  | [] => EmptyString
  | [e] => e
  | e :: rest => e +:+ sep +:+ Join rest sep
  end.

(** [unicode.IsSpace] holds of U+0009..U+000D, U+0020, U+0085, U+00A0,
    U+1680, U+2000..U+200A, U+2028, U+2029, U+202F, U+205F and U+3000.
    [space_prefix s] is the rest of [s] after its first rune when that rune
    is one of them: the rune is read in UTF-8, where each of these code
    points has exactly one (shortest-form) encoding. *)
Definition space_prefix (s : string) : option string :=
  match s with
  | String c1 s1 =>
      if byte_between "009" "013" c1 || Ascii.eqb c1 " " then Some s1
      else match s1 with
      | String c2 s2 =>
          if Ascii.eqb c1 "194" && (Ascii.eqb c2 "133" || Ascii.eqb c2 "160")
          then Some s2
          else match s2 with
          | String c3 s3 =>
              if Ascii.eqb c1 "225" && Ascii.eqb c2 "154" && Ascii.eqb c3 "128"
              then Some s3
              else if Ascii.eqb c1 "226" && Ascii.eqb c2 "128" &&
                      (byte_between "128" "138" c3 || Ascii.eqb c3 "168" ||
                       Ascii.eqb c3 "169" || Ascii.eqb c3 "175")
              then Some s3
              else if Ascii.eqb c1 "226" && Ascii.eqb c2 "129" && Ascii.eqb c3 "159"
              then Some s3
              else if Ascii.eqb c1 "227" && Ascii.eqb c2 "128" && Ascii.eqb c3 "128"
              then Some s3
              else None
          | EmptyString => None
          end
      | EmptyString => None
      end
  | EmptyString => None
  end.

(** The same test on the last rune, read backwards: [rs] is the string
    reversed, so the bytes of the rune come last byte first. *)
Definition space_suffix (rs : string) : option string :=
  match rs with
  | String c1 s1 =>
      if byte_between "009" "013" c1 || Ascii.eqb c1 " " then Some s1
      else match s1 with
      | String c2 s2 =>
          if Ascii.eqb c2 "194" && (Ascii.eqb c1 "133" || Ascii.eqb c1 "160")
          then Some s2
          else match s2 with
          | String c3 s3 =>
              if Ascii.eqb c3 "225" && Ascii.eqb c2 "154" && Ascii.eqb c1 "128"
              then Some s3
              else if Ascii.eqb c3 "226" && Ascii.eqb c2 "128" &&
                      (byte_between "128" "138" c1 || Ascii.eqb c1 "168" ||
                       Ascii.eqb c1 "169" || Ascii.eqb c1 "175")
              then Some s3
              else if Ascii.eqb c3 "226" && Ascii.eqb c2 "129" && Ascii.eqb c1 "159"
              then Some s3
              else if Ascii.eqb c3 "227" && Ascii.eqb c2 "128" && Ascii.eqb c1 "128"
              then Some s3
              else None
          | EmptyString => None
          end
      | EmptyString => None
      end
  | EmptyString => None
  end.

(** Dropping runes from the front while [strip] recognises one.  A rune is
    at least one byte, so the length of the string bounds the iterations. *)
Fixpoint trim_while (strip : string -> option string) (fuel : nat) (s : string) : string :=
  match fuel with
  | O => s
  | S fuel' =>
      match strip s with
      | Some rest => trim_while strip fuel' rest
      | None => s
      end
  end.

(** [strings.TrimSpace(s)]: [s] without its leading and trailing white
    space, as defined by Unicode. *)
Definition TrimSpace (s : string) : string :=
  let l := trim_while space_prefix (String.length s) s in
  String.rev (trim_while space_suffix (String.length l) (String.rev l)).

End GoStrings.

(** ** [float32] *)

(** IEEE 754 binary32: 24 bits of precision, exponents of finite values
    [m * 2^e] between -149 and 104. *)
Definition float32 : Type := spec_float.

(** A valid binary32 datum that is neither NaN nor an infinity. *)
Definition is_finite32 (f : float32) : bool :=
  match f with
  | S754_zero _ => true
  | S754_finite _ m e => bounded 24 128 m e
  | _ => false
  end.

(** The rational a float denotes (0 for NaN and the infinities, which
    denote none). *)
Definition F2Q (f : float32) : Q :=
  match f with
  | S754_finite s m e =>
      let mag := match e with
                 | Z0 => Zpos m # 1
                 | Zpos k => (Zpos m * 2 ^ Zpos k) # 1
                 | Zneg k => Zpos m # (2 ^ k)
                 end in
      if s then Qopp mag else mag
  | _ => 0%Q
  end.

(** ** The [strconv] package *)

Module GoStrconv.

(** The integer nearest to [a / b] ([b] positive), ties to the even one. *)
Definition div_round_even (a b : Z) : Z :=
  let q := a / b in
  match 2 * (a mod b) ?= b with
  | Lt => q
  | Gt => q + 1
  | Eq => if Z.even q then q else q + 1
  end.

(** Correct rounding to binary32 of the rational [n / d] ([n] not
    negative) carrying the sign [neg]: the nearest binary32 value, ties to
    the even mantissa.  [n * 2^149 / d] is the value in units of the least
    subnormal, [sh] the exponent of the result above -149; the flag says
    that the rounded value exceeds the largest finite binary32 (Go then
    returns the infinity together with [ErrRange]). *)
Definition round32 (neg : bool) (n : Z) (d : positive) : float32 * bool :=
  let a := n * 2 ^ 149 in
  let sh := Z.max (Z.log2 (a / Zpos d) - 23) 0 in
  let m := div_round_even a (Zpos d * 2 ^ sh) in
  let '(m, sh) := if m =? 2 ^ 24 then (2 ^ 23, sh + 1) else (m, sh) in
  match m with
  | Zpos p =>
      if sh >? 253 then (S754_infinity neg, true)
      else (S754_finite neg p (sh - 149), false)
  | _ => (S754_zero neg, false)
  end.

(** *** Formatting *)

(** The decimal digits of [n], most significant first, in front of [acc];
    [fuel] bounds the number of digits after the first. *)
Fixpoint formatBits (fuel : nat) (n : N) (acc : string) : string :=
  let acc' := String (digit_char (n mod 10)) acc in
  match fuel with
  | O => acc'
  | S fuel' => if (n / 10 =? 0)%N then acc' else formatBits fuel' (n / 10) acc'
  end.

(** The digits of an unsigned integer, ["0"] for zero. *)
Definition FormatUint (n : N) : string :=
  formatBits (N.to_nat (N.log2 n)) n EmptyString.

(** The [k] low decimal digits of [n], padded with zeros, in front of [acc]. *)
Fixpoint fixed_digits (k : nat) (n : N) (acc : string) : string :=
  match k with
  | O => acc
  | S k' => fixed_digits k' (n / 10) (String (digit_char (n mod 10)) acc)
  end.

(** [m * 2^e] in millionths, rounded to the nearest integer, ties to even:
    [%f] rounds the exact decimal expansion of the float at its sixth
    fractional digit ([bigFtoa]: [d.Round(d.dp + prec)], whose
    [shouldRoundUp] rounds an exact half to the even digit). *)
Definition millionths (m : positive) (e : Z) : N :=
  Z.to_N (match e with
          | Zneg k => div_round_even (Zpos m * 10 ^ 6) (2 ^ Zpos k)
          | _ => Zpos m * 2 ^ e * 10 ^ 6
          end).

Definition sign_string (neg : bool) : string := if neg then "-" else "".

(** The [%f] form of a magnitude given in millionths: integer part, point,
    six fractional digits ([fmtF]). *)
Definition fmtF (neg : bool) (n : N) : string :=
  sign_string neg +:+ FormatUint (n / 1000000) +:+
  String "." (fixed_digits 6 (n mod 1000000) EmptyString).

(** [strconv.AppendFloat(dst, v, 'f', 6, 32)]. *)
Definition AppendFloat (v : float32) : string :=
  match v with
  | S754_nan => "NaN"
  | S754_infinity s => if s then "-Inf" else "+Inf"
  | S754_zero s => fmtF s 0
  | S754_finite s m e => fmtF s (millionths m e)
  end.

(** *** Parsing *)

Inductive NumError := ErrSyntax | ErrRange.

(** [commonPrefixLenIgnoreCase(s, prefix)], [prefix] in lower case: upper
    case ASCII letters of [s] are folded before the comparison. *)
Fixpoint commonPrefixLenIgnoreCase (s prefix : string) : nat :=
  match s, prefix with
  | String c s', String p prefix' =>
      let c := if byte_between "A" "Z" c then ascii_of_N (byte_val c + 32) else c in
      if Ascii.eqb c p then S (commonPrefixLenIgnoreCase s' prefix') else O
  | _, _ => O
  end.

Definition drop_bytes (n : nat) (s : string) : string :=
  String.substring n (String.length s - n) s.

(** [special(s)]: the infinities and NaN, with the unread rest of [s]. *)
Definition special (s : string) : option (float32 * string) :=
  let infinity (neg : bool) (body : string) :=
    let n := commonPrefixLenIgnoreCase body "infinity" in
    let n := if (3 <? n)%nat && (n <? 8)%nat then 3%nat else n in
    if (n =? 3)%nat || (n =? 8)%nat
    then Some (S754_infinity neg, drop_bytes n body) else None in
  match s with
  | String c s' =>
      if Ascii.eqb c "+" then infinity false s'
      else if Ascii.eqb c "-" then infinity true s'
      else if Ascii.eqb c "i" || Ascii.eqb c "I" then infinity false s
      else if Ascii.eqb c "n" || Ascii.eqb c "N" then
        if (commonPrefixLenIgnoreCase s "nan" =? 3)%nat
        then Some (S754_nan, drop_bytes 3 s) else None
      else None
  | EmptyString => None
  end.

(** The variables of [readFloat]'s digit loop.  Go keeps the first 19
    digits (16 in base 16) in a [uint64] and records in [trunc] that it
    dropped others; the conversions that follow ([atofHex], the decimal
    conversion with its fall back on the full literal) round the value of
    all the digits correctly, so [mantissa] holds all of them here and
    [ndMant] is [nd]. *)
Record digits := mkDigits {
  mantissa : N;
  nd : Z;
  dp : Z;
  sawdot : bool;
  sawdigits : bool;
  underscores : bool
}.

Definition is_hex_letter (c : ascii) : bool := byte_between "a" "f" (lower c).

(** The loop labelled [loop] of [readFloat]: the state when it breaks (or
    reaches the end of the string) and the unread rest. *)
Fixpoint readDigits (hex : bool) (s : string) (st : digits) : digits * string :=
  match s with
  | EmptyString => (st, EmptyString)
  | String c s' =>
      if Ascii.eqb c "_" then
        readDigits hex s'
          (mkDigits (mantissa st) (nd st) (dp st) (sawdot st) (sawdigits st) true)
      else if Ascii.eqb c "." then
        if sawdot st then (st, s)
        else readDigits hex s'
               (mkDigits (mantissa st) (nd st) (nd st) true (sawdigits st) (underscores st))
      else if is_digit c then
        if Ascii.eqb c "0" && (nd st =? 0) then
          readDigits hex s'
            (mkDigits (mantissa st) (nd st) (dp st - 1) (sawdot st) true (underscores st))
        else
          readDigits hex s'
            (mkDigits (mantissa st * (if hex then 16 else 10) + digit_val c)%N
                      (nd st + 1) (dp st) (sawdot st) true (underscores st))
      else if hex && is_hex_letter c then
        readDigits hex s'
          (mkDigits (mantissa st * 16 + (byte_val (lower c) - 97 + 10))%N
                    (nd st + 1) (dp st) (sawdot st) true (underscores st))
      else (st, s)
  end.

(** The digits of the exponent: [e] stops growing once it has reached
    10000; the flag records an underscore. *)
Fixpoint readExponent (s : string) (e : Z) (us : bool) : Z * bool * string :=
  match s with
  | EmptyString => (e, us, EmptyString)
  | String c s' =>
      if Ascii.eqb c "_" then readExponent s' e true
      else if is_digit c then
        readExponent s' (if e <? 10000 then e * 10 + Z.of_N (digit_val c) else e) us
      else (e, us, s)
  end.

(** [underscoreOK(s)]: underscores stand only between digits, or between a
    base prefix and a digit.  [saw] is the class of the last byte:
    ["0"] a digit or base prefix, ["_"] an underscore, ["!"] another byte,
    ["^"] none yet. *)
Fixpoint underscoreScan (hex : bool) (s : string) (saw : ascii) : bool :=
  match s with
  | EmptyString => negb (Ascii.eqb saw "_")
  | String c s' =>
      if is_digit c || (hex && is_hex_letter c) then underscoreScan hex s' "0"
      else if Ascii.eqb c "_" then
        if Ascii.eqb saw "0" then underscoreScan hex s' "_" else false
      else if Ascii.eqb saw "_" then false
      else underscoreScan hex s' "!"
  end.

Definition underscoreOK (s : string) : bool :=
  let s := match s with
           | String c s' => if Ascii.eqb c "-" || Ascii.eqb c "+" then s' else s
           | EmptyString => s
           end in
  match s with
  | String c0 (String c1 s') =>
      if Ascii.eqb c0 "0" &&
         (Ascii.eqb (lower c1) "b" || Ascii.eqb (lower c1) "o" || Ascii.eqb (lower c1) "x")
      then underscoreScan (Ascii.eqb (lower c1) "x") s' "0"
      else underscoreScan false s "^"
  | _ => underscoreScan false s "^"
  end.

(** What [readFloat] returns when [ok]: the value read is
    [mantissa * 10^exp], or [mantissa * 2^exp] when [hex]. *)
Record literal := mkLiteral {
  lit_mantissa : N;
  lit_exp : Z;
  lit_neg : bool;
  lit_hex : bool;
  lit_rest : string
}.

(** The optional base prefix of [readFloat]: [0x] or [0X] with at least one
    byte after it ([i+2 < len(s)]). *)
Definition basePrefix (s : string) : bool * string :=
  match s with
  | String z (String x (String c r)) =>
      if Ascii.eqb z "0" && Ascii.eqb (lower x) "x" then (true, String c r) else (false, s)
  | _ => (false, s)
  end.

(** The end of [readFloat], once the exponent has moved the decimal point
    to [dp]: the underscores of the bytes read, [s] without [rest], must be
    well placed. *)
Definition finishFloat (s : string) (neg hex : bool) (st : digits) (dp ndMant : Z)
    (us : bool) (rest : string) : option literal :=
  let consumed := String.substring 0 (String.length s - String.length rest) s in
  if us && negb (underscoreOK consumed) then None
  else Some (mkLiteral (mantissa st)
               (if (mantissa st =? 0)%N then 0 else dp - ndMant) neg hex rest).

(** [readFloat] after the optional sign: [s] is the whole string, [s1] what
    follows the sign. *)
Definition readNumber (s : string) (neg : bool) (s1 : string) : option literal :=
  let '(hex, s2) := basePrefix s1 in
  let '(st, s3) := readDigits hex s2 (mkDigits 0 0 0 false false false) in
  if negb (sawdigits st) then None
  else
    let dp0 := if sawdot st then dp st else nd st in
    let '(dp1, ndMant) := if hex then (dp0 * 4, nd st * 4) else (dp0, nd st) in
    match s3 with
    | String c s4 =>
        if Ascii.eqb (lower c) (if hex then "p" else "e") then
          match s4 with
          | EmptyString => None
          | String sg s5 =>
              let '(esign, s6) :=
                if Ascii.eqb sg "+" then (1, s5)
                else if Ascii.eqb sg "-" then (-1, s5) else (1, s4) in
              match s6 with
              | String d _ =>
                  if is_digit d then
                    let '(e, us, rest) := readExponent s6 0 (underscores st) in
                    finishFloat s neg hex st (dp1 + e * esign) ndMant us rest
                  else None
              | EmptyString => None
              end
          end
        else if hex then None
        else finishFloat s neg hex st dp1 ndMant (underscores st) s3
    | EmptyString =>
        if hex then None else finishFloat s neg hex st dp1 ndMant (underscores st) s3
    end.

(** [readFloat(s)]; [None] is [ok == false]. *)
Definition readFloat (s : string) : option literal :=
  match s with
  | EmptyString => None
  | String c0 s0 =>
      if Ascii.eqb c0 "+" then readNumber s false s0
      else if Ascii.eqb c0 "-" then readNumber s true s0
      else readNumber s false s
  end.

(** The binary32 nearest to [mantissa * base^exp]. *)
Definition convert32 (l : literal) : float32 * bool :=
  let b := if lit_hex l then 2 else 10 in
  match lit_exp l with
  | Zneg k => round32 (lit_neg l) (Z.of_N (lit_mantissa l)) (Z.to_pos (b ^ Zpos k))
  | e => round32 (lit_neg l) (Z.of_N (lit_mantissa l) * b ^ e) 1
  end.

(** [atof32(s)]: the float, the unread rest of [s] and the error. *)
Definition atof32 (s : string) : float32 * string * option NumError :=
  match special s with
  | Some (f, rest) => (f, rest, None)
  | None =>
      match readFloat s with
      | None => (S754_zero false, s, Some ErrSyntax)
      | Some l =>
          let '(f, overflow) := convert32 l in
          (f, lit_rest l, if overflow then Some ErrRange else None)
      end
  end.

(** [strconv.ParseFloat(s, 32)].  Go returns a [float64] that converts to
    [float32] without changing its value; the model returns that
    [float32].  A literal that does not extend to the end of [s] is a
    syntax error. *)
Definition ParseFloat (s : string) : float32 * option NumError :=
  let '(f, rest, err) := atof32 s in
  match rest, err with
  | EmptyString, _ => (f, err)
  | _, Some ErrSyntax => (f, err)
  | _, _ => (S754_zero false, Some ErrSyntax)
  end.

End GoStrconv.

(** ** The [fmt] package *)

Module GoFmt.

(** The printer's [fmtFloat] with no flag, on the bytes [num] that
    [strconv.AppendFloat] produced: it puts a plus sign in front of an
    unsigned number, prints an infinity with its sign and NaN without, and
    drops the plus sign of a number. *)
Definition fmtFloat (num : string) : string :=
  let num := match num with
             | String c _ =>
                 if Ascii.eqb c "-" || Ascii.eqb c "+" then num else String "+" num
             | EmptyString => String "+" num
             end in
  match num with
  | String sg (String c rest) =>
      if Ascii.eqb c "I" || Ascii.eqb c "N" then
        if Ascii.eqb c "N" then String c rest else num
      else if Ascii.eqb sg "+" then String c rest else num
  | _ => num
  end.

(** [fmt.Sprintf("%f", v)] for a [float32] operand: the verb [%f] formats
    with the default precision 6. *)
Definition Sprintf_f (v : float32) : string :=
  fmtFloat (GoStrconv.AppendFloat v).

End GoFmt.

(** ** Go slices and panics

    A Go function either returns or panics; [option] carries the panic
    ([None]).  Storing at an index of a slice panics when the index is out of
    range. *)

Definition store {A : Type} (l : list A) (i : nat) (x : A) : option (list A) :=
  if decide (i < length l)%nat then Some (<[i:=x]> l) else None.

(** ** The vector codec *)

(** The body of [for i, v := range embedding { strValues[i] = fmt.Sprintf("%f", v) }],
    from index [i] on. *)
Fixpoint vectorToString_loop (i : nat) (embedding : list float32) (strValues : list string)
    : option (list string) :=
  match embedding with
  | [] => Some strValues
  | v :: rest =>
      strValues' ← store strValues i (GoFmt.Sprintf_f v);
      vectorToString_loop (S i) rest strValues'
  end.

(** [vectorToString]: the pgvector literal of a [[]float32]. *)
Definition vectorToString (embedding : list float32) : option string :=
  strValues ← vectorToString_loop 0 embedding (replicate (length embedding) EmptyString);
  Some ("[" +:+ GoStrings.Join strValues "," +:+ "]").

(** The body of the loop of [parseVectorString] from index [i] on: a part
    that [strconv.ParseFloat] reads without error is stored, any other leaves
    the zero that [make] put there. *)
Fixpoint parseVectorString_loop (i : nat) (parts : list string) (embedding : list float32)
    : option (list float32) :=
  match parts with
  | [] => Some embedding
  | part :: rest =>
      match GoStrconv.ParseFloat (GoStrings.TrimSpace part) with
      | (val, None) =>
          embedding' ← store embedding i val;
          parseVectorString_loop (S i) rest embedding'
      | (_, Some _) => parseVectorString_loop (S i) rest embedding
      end
  end.

(** [parseVectorString]. *)
Definition parseVectorString (vectorSTR : string) : option (list float32) :=
  let vectorSTR := GoStrings.Trim vectorSTR "[]" in
  if decide (vectorSTR = EmptyString) then Some []
  else
    let parts := GoStrings.Split vectorSTR "," in
    parseVectorString_loop 0 parts (replicate (length parts) (S754_zero false)).

(** ** The process environment ([os]) *)

Module GoOs.

(** [os.Getenv(key)]: the value, empty when the variable is not set. *)
Definition Getenv (env : gmap string string) (key : string) : string :=
  default EmptyString (env !! key).

(** [os.LookupEnv(key)]: the value and whether the variable is set. *)
Definition LookupEnv (env : gmap string string) (key : string) : string * bool :=
  match env !! key with
  | Some v => (v, true)
  | None => (EmptyString, false)
  end.

End GoOs.

(** [getOllamaURL], reading the environment [env]. *)
Definition getOllamaURL (env : gmap string string) : string :=
  let ollamaURL := GoOs.Getenv env "OLLAMA_URL" in
  if decide (ollamaURL ≠ EmptyString) then ollamaURL
  else
    let '(_, exists_) := GoOs.LookupEnv env "DOCKER_CONTAINER" in
    if exists_ then "http://host.docker.internal:11434"
    else "http://localhost:11434".

(** ** Documents *)

(** A point in time as the store assigns it ([time.Time]). *)
Definition Time : Type := Z.

(** IEEE 754 binary64, the type of the similarity column. *)
Definition float64 : Type := spec_float.

(** Modelled from the spec: [models.Document], declared in the package
    [golang_crud/models], which is not among the sources.  The fields are
    those [repository.go] reads and writes, with the types it uses them at
    (section 3 of the specification lists the same attributes); a nil
    [*string] is [None]. *)
Record Document := mkDocument {
  ID : Z;
  Content : string;
  MediaType : option string;
  FileName : option string;
  Embedding : list float32;
  CreatedAt : Time
}.

(** ** The world outside the package *)

(** A Go [error], by its message. *)
Definition error : Type := string.

(** An operand of [log.Printf]. *)
Inductive operand :=
| OStr (s : string)
| OPtr (p : option string)
| OInt (n : Z)
| OErr (e : error)
| OFloat (x : float64).

(** What a call does to the world besides returning, in order. *)
Inductive event :=
| Log (format : string) (operands : list operand)
| HttpPost (url contentType body : string)
| BodyClose
| QueryRow (query content : string) (mediaType fileName : option string) (embeddingStr : string)
| Query (query embeddingStr : string) (limit : Z)
| RowsClose.

(** A write call to storage is the [INSERT] issued with [db.QueryRow]. *)
Definition is_storage_write (ev : event) : bool :=
  match ev with
  | QueryRow _ _ _ _ _ => true
  | _ => false
  end.

(** [*http.Response]: the status and what [io.ReadAll(resp.Body)] yields. *)
Record Response := mkResponse {
  StatusCode : Z;
  Body : string + error
}.

(** [db.QueryRow(...).Scan(&doc.ID, &doc.CreatedAt)].  The query fails or
    returns no row and [Scan] stores nothing; or a row comes back and [Scan]
    converts its columns in order, stopping at the first it cannot convert;
    or both are stored. *)
Inductive row_result :=
| RowError (err : error)
| RowScanError (stored_id : option Z) (err : error)
| RowScanned (id : Z) (created_at : Time).

(** One row of a result set as [rows.Scan] finds it: the seven destinations
    of [SearchSimilarDocuments] filled ([sql.NullString] as [option]), or an
    error. *)
Inductive row :=
| ScanError (err : error)
| Scanned (id : Z) (content : string) (mediaType fileName : option string)
          (embeddingStr : string) (createdAt : Time) (similarity : float64).

(** [*sql.DB], by the two statements the package sends. *)
Record DB := mkDB {
  db_QueryRow : string -> string -> option string -> option string -> string -> row_result;
  db_Query : string -> string -> Z -> list row + error
}.

(** The embedding provider, the JSON codec and the environment. *)
Record World := mkWorld {
  environ : gmap string string;
  json_Marshal : gmap string string -> string + error;
  http_Post : string -> string -> string -> Response + error;
  json_Unmarshal : string -> list float32 + error;
  database : DB
}.

(** A signed integer in decimal ([%d]). *)
Definition itoa (n : Z) : string :=
  match n with
  | Zneg p => "-" +:+ GoStrconv.FormatUint (Npos p)
  | _ => GoStrconv.FormatUint (Z.to_N n)
  end.

Definition insert_query : string :=
  "INSERT INTO documents (content, media_type, file_name, embedding) VALUES ($1, $2, $3, $4) RETURNING id, created_at".

(** The text of the search statement, with the line breaks and tabs of the
    source. *)
Definition search_query : string :=
  "
		SELECT id, content, media_type, file_name, embedding, created_at,
		       1 - (embedding <=> $1) as similarity
		FROM documents 
		ORDER BY embedding <=> $1 
		LIMIT $2
	".

(** ** Ingestion *)

(** The map [ollamaReq] that [CreateDocument] serializes. *)
Definition ollamaReq (doc : Document) : gmap string string :=
  <["model" := "nomic-embed-text"]> (<["prompt" := Content doc]> ∅).

(** The URL [CreateDocument] posts to. *)
Definition endpoint (w : World) : string :=
  getOllamaURL (environ w) +:+ "/api/embeddings".

(** [CreateDocument(db, doc)].  [doc] is a pointer: the result holds the
    document as the call leaves it, the error returned ([None] is [nil]) and
    the events of the call. *)
Definition CreateDocument (w : World) (doc : Document)
    : option (Document * option error * list event) :=
  match json_Marshal w (ollamaReq doc) with
  | inr err =>
      Some (doc, Some ("failed to prepare embedding request: " +:+ err),
            [Log "Failed to marshal Ollama request: %v" [OErr err]])
  | inl requestBody =>
      let endpoint := endpoint w in
      let t1 := [Log "Sending request to Ollama: %s, URL: %s" [OStr requestBody; OStr endpoint];
                 HttpPost endpoint "application/json" requestBody] in
      match http_Post w endpoint "application/json" requestBody with
      | inr err =>
          Some (doc, Some ("failed to connect to embedding service: " +:+ err),
                t1 ++ [Log "Ollama connection error: %v" [OErr err]])
      | inl resp =>
          match Body resp with
          | inr err =>
              Some (doc, Some ("failed to read embedding response: " +:+ err),
                    t1 ++ [Log "Error reading Ollama response: %v" [OErr err]; BodyClose])
          | inl body =>
              let t2 := t1 ++ [Log "Ollama response: status=%d, body=%s"
                                 [OInt (StatusCode resp); OStr body]] in
              if decide (StatusCode resp ≠ 200) then
                Some (doc,
                      Some ("embedding service returned status: " +:+ itoa (StatusCode resp)),
                      t2 ++ [Log "Ollama returned non-200 status: %d" [OInt (StatusCode resp)];
                             BodyClose])
              else
                match json_Unmarshal w body with
                | inr err =>
                    Some (doc, Some ("failed to parse embedding response: " +:+ err),
                          t2 ++ [Log "Failed to parse Ollama response: %v" [OErr err]; BodyClose])
                | inl embedding =>
                    let doc := mkDocument (ID doc) (Content doc) (MediaType doc) (FileName doc)
                                 embedding (CreatedAt doc) in
                    embeddingStr ← vectorToString (Embedding doc);
                    let t3 := t2 ++
                      [Log "Executing query: %s" [OStr insert_query];
                       Log "Parameters: content=%s, media_type=%s, file_name=%s, embedding_length=%d"
                         [OStr (Content doc); OPtr (MediaType doc); OPtr (FileName doc);
                          OInt (Z.of_nat (length (Embedding doc)))];
                       QueryRow insert_query (Content doc) (MediaType doc) (FileName doc)
                         embeddingStr] in
                    match db_QueryRow (database w) insert_query (Content doc) (MediaType doc)
                            (FileName doc) embeddingStr with
                    | RowScanned id created_at =>
                        Some (mkDocument id (Content doc) (MediaType doc) (FileName doc)
                                (Embedding doc) created_at,
                              None, t3 ++ [BodyClose])
                    | RowScanError stored_id err =>
                        Some (mkDocument (default (ID doc) stored_id) (Content doc)
                                (MediaType doc) (FileName doc) (Embedding doc) (CreatedAt doc),
                              Some ("failed to save document: " +:+ err),
                              t3 ++ [Log "Database error: %v" [OErr err]; BodyClose])
                    | RowError err =>
                        Some (doc, Some ("failed to save document: " +:+ err),
                              t3 ++ [Log "Database error: %v" [OErr err]; BodyClose])
                    end
                end
          end
      end
  end.

(** The embedding step of [CreateDocument] fails: the request cannot be
    serialized, the provider cannot be reached, its response cannot be read,
    its status is not 200, or [json.Unmarshal] returns an error on the
    body. *)
Inductive embedding_fails (w : World) (doc : Document) : Prop :=
| marshal_fails (err : error) :
    json_Marshal w (ollamaReq doc) = inr err -> embedding_fails w doc
| post_fails (requestBody : string) (err : error) :
    json_Marshal w (ollamaReq doc) = inl requestBody ->
    http_Post w (endpoint w) "application/json" requestBody = inr err ->
    embedding_fails w doc
| read_fails (requestBody : string) (resp : Response) (err : error) :
    json_Marshal w (ollamaReq doc) = inl requestBody ->
    http_Post w (endpoint w) "application/json" requestBody = inl resp ->
    Body resp = inr err ->
    embedding_fails w doc
| status_fails (requestBody : string) (resp : Response) :
    json_Marshal w (ollamaReq doc) = inl requestBody ->
    http_Post w (endpoint w) "application/json" requestBody = inl resp ->
    StatusCode resp <> 200 ->
    embedding_fails w doc
| unmarshal_fails (requestBody : string) (resp : Response) (body : string) (err : error) :
    json_Marshal w (ollamaReq doc) = inl requestBody ->
    http_Post w (endpoint w) "application/json" requestBody = inl resp ->
    Body resp = inl body ->
    json_Unmarshal w body = inr err ->
    embedding_fails w doc.

(** The embedding step succeeds with the vector [embedding]: the provider
    answers the request with status 200 and a body whose [embedding] field
    decodes to it. *)
Definition embedding_succeeds (w : World) (doc : Document) (embedding : list float32) : Prop :=
  exists (requestBody : string) (resp : Response) (body : string),
    json_Marshal w (ollamaReq doc) = inl requestBody /\
    http_Post w (endpoint w) "application/json" requestBody = inl resp /\
    StatusCode resp = 200 /\
    Body resp = inl body /\
    json_Unmarshal w body = inl embedding.

(** The number of write calls to storage among the events of a call. *)
Definition storage_writes (events : list event) : nat :=
  length (filter (fun ev => is_storage_write ev = true) events).

(** ** Similarity search *)

(** The loop [for rows.Next() { ... }] over the rows left, appending to
    [documents]: the slice at the end and the lines logged on the way. *)
Fixpoint SearchSimilarDocuments_loop (rows : list row) (documents : list Document)
    : option (list Document * list event) :=
  match rows with
  | [] => Some (documents, [])
  | ScanError err :: rest =>
      '(documents', logged) ← SearchSimilarDocuments_loop rest documents;
      Some (documents', Log "Row scan error: %v" [OErr err] :: logged)
  | Scanned id content mediaType fileName embeddingStr createdAt similarity :: rest =>
      embedding ← parseVectorString embeddingStr;
      let doc := mkDocument id content mediaType fileName embedding createdAt in
      '(documents', logged) ← SearchSimilarDocuments_loop rest (documents ++ [doc]);
      Some (documents',
            Log "Found document ID %d with similarity: %.4f" [OInt id; OFloat similarity]
              :: logged)
  end.

(** [SearchSimilarDocuments(db, queryEmbedding, limit)]: the documents and
    the error returned, and the events of the call. *)
Definition SearchSimilarDocuments (db : DB) (queryEmbedding : list float32) (limit : Z)
    : option (list Document * option error * list event) :=
  embeddingStr ← vectorToString queryEmbedding;
  let t0 := [Log "Executing search query with embedding length: %d, limit: %d"
               [OInt (Z.of_nat (length queryEmbedding)); OInt limit];
             Query search_query embeddingStr limit] in
  match db_Query db search_query embeddingStr limit with
  | inr err => Some ([], Some err, t0 ++ [Log "Search query error: %v" [OErr err]])
  | inl rows =>
      '(documents, logged) ← SearchSimilarDocuments_loop rows [];
      Some (documents, None, t0 ++ logged ++ [RowsClose])
  end.

(** ** The codec as the specification words it *)

(** [decode(text)]: strip the enclosing bracket characters; an empty interior
    is the zero-length vector; otherwise split on commas, trim the white
    space around each token and parse it as a floating-point value, a token
    that fails to parse counting as [0.0]. *)
Definition decode_token (token : string) : float32 :=
  match GoStrconv.ParseFloat (GoStrings.TrimSpace token) with
  | (val, None) => val
  | (_, Some _) => S754_zero false
  end.

Definition decode (text : string) : list float32 :=
  let interior := GoStrings.Trim text "[]" in
  if decide (interior = EmptyString) then []
  else decode_token <$> GoStrings.Split interior ",".

(** The number of comma-separated segments of a string: one more than it
    has commas. *)
Fixpoint count_commas (s : string) : nat :=
  match s with
  | EmptyString => O
  | String c s' => (if Ascii.eqb c "," then 1 else 0) + count_commas s'
  end.

Definition segments (interior : string) : nat :=
  if decide (interior = EmptyString) then O else S (count_commas interior).

(** A fixed-point decimal with six fractional digits: an optional minus
    sign, at least one digit, a point, six digits, and nothing else (no
    exponent, no white space, no delimiter). *)
Fixpoint all_digits (s : string) : bool :=
  match s with
  | EmptyString => true
  | String c s' => is_digit c && all_digits s'
  end.

Fixpoint is_fixed_point_body (s : string) (seen : bool) : bool :=
  match s with
  | EmptyString => false
  | String c s' =>
      if Ascii.eqb c "." then seen && (String.length s' =? 6)%nat && all_digits s'
      else is_digit c && is_fixed_point_body s' true
  end.

Definition is_fixed_point6 (token : string) : bool :=
  match token with
  | String c s' => if Ascii.eqb c "-" then is_fixed_point_body s' false
                   else is_fixed_point_body token false
  | EmptyString => false
  end.

(** The number a fixed-point token denotes, in millionths: its digits read
    as one integer, with the sign of the token. *)
Fixpoint digits_value (s : string) (acc : Z) : Z :=
  match s with
  | EmptyString => acc
  | String c s' => digits_value s' (if is_digit c then acc * 10 + Z.of_N (digit_val c) else acc)
  end.

Definition token_millionths (token : string) : Z :=
  match token with
  | String c s' => if Ascii.eqb c "-" then - digits_value s' 0 else digits_value token 0
  | EmptyString => 0
  end.

Definition token_value (token : string) : Q := token_millionths token # 1000000.

(** ** The decoder, step by step in the words of the specification *)

(** The bracket characters. *)
Definition is_bracket (c : ascii) : bool := Ascii.eqb c "[" || Ascii.eqb c "]".

Fixpoint drop_leading (P : ascii -> bool) (s : string) : string :=
  match s with
  | String c s' => if P c then drop_leading P s' else s
  | EmptyString => EmptyString
  end.

(** Stripping the enclosing bracket characters: those in front, then those
    at the end. *)
Definition strip_brackets (s : string) : string :=
  String.rev (drop_leading is_bracket (String.rev (drop_leading is_bracket s))).

(** Splitting on commas, reading from the left: [current] holds the bytes
    of the token being read, last byte first. *)
Fixpoint split_on_commas_from (s current : string) : list string :=
  match s with
  | EmptyString => [String.rev current]
  | String c s' =>
      if Ascii.eqb c "," then String.rev current :: split_on_commas_from s' EmptyString
      else split_on_commas_from s' (String c current)
  end.

Definition split_on_commas (s : string) : list string := split_on_commas_from s EmptyString.

(** White space: the code points that have the Unicode property
    [White_Space]. *)
Definition white_space_code_points : list N :=
  [9; 10; 11; 12; 13; 32; 133; 160; 5760; 8192; 8193; 8194; 8195; 8196; 8197; 8198; 8199;
   8200; 8201; 8202; 8232; 8233; 8239; 8287; 12288]%N.

(** The UTF-8 encoding of a code point below U+10000. *)
Definition utf8 (n : N) : string :=
  if (n <? 128)%N then String (ascii_of_N n) EmptyString
  else if (n <? 2048)%N then
    String (ascii_of_N (192 + n / 64)) (String (ascii_of_N (128 + n mod 64)) EmptyString)
  else
    String (ascii_of_N (224 + n / 4096))
      (String (ascii_of_N (128 + (n / 64) mod 64))
         (String (ascii_of_N (128 + n mod 64)) EmptyString)).

Definition white_space : list string := utf8 <$> white_space_code_points.

(** [s] without the prefix [p], when it starts with it. *)
Fixpoint strip_prefix (p s : string) : option string :=
  match p, s with
  | EmptyString, _ => Some s
  | String a p', String b s' => if Ascii.eqb b a then strip_prefix p' s' else None
  | String _ _, EmptyString => None
  end.

(** [s] without its first character when that is white space; [rs], a
    string read backwards, without the white space it starts with. *)
Definition strip_white_space (s : string) : option string :=
  foldr (fun w rest => match strip_prefix w s with Some r => Some r | None => rest end)
    None white_space.

Definition strip_white_space_backwards (rs : string) : option string :=
  foldr (fun w rest => match strip_prefix (String.rev w) rs with Some r => Some r | None => rest end)
    None white_space.

Fixpoint strip_repeatedly (strip : string -> option string) (n : nat) (s : string) : string :=
  match n with
  | O => s
  | S n' => match strip s with
            | Some rest => strip_repeatedly strip n' rest
            | None => s
            end
  end.

(** Trimming the white space around a token. *)
Definition trim_white_space (token : string) : string :=
  let l := strip_repeatedly strip_white_space (String.length token) token in
  String.rev (strip_repeatedly strip_white_space_backwards (String.length l) (String.rev l)).

(** Parsing a token as a floating-point value, a token that fails to parse
    counting as [0.0]. *)
Definition parse_or_zero (token : string) : float32 :=
  match GoStrconv.ParseFloat token with
  | (val, None) => val
  | (_, Some _) => S754_zero false
  end.

Definition decode_by_words (text : string) : list float32 :=
  let interior := strip_brackets text in
  if decide (interior = EmptyString) then []
  else (fun token => parse_or_zero (trim_white_space token)) <$> split_on_commas interior.

(** ** A store that executes the statement it receives

    [SearchSimilarDocuments] leaves the order of the rows, their number and
    their similarity to the store: it sends the text of a [SELECT] statement
    and two parameters.  The store below reads the text it receives: it
    parses the statement and runs it on a table of documents, as SQL
    defines it for the constructs the statement is made of (a column, a
    numbered parameter, an integer constant, the operators [-] and [<=>],
    [AS], [FROM], [ORDER BY] with [ASC] or [DESC], [LIMIT]); any other
    statement is a syntax error.  The vector type is that of an extension:
    the function that reads a vector from text, the one that writes it and
    the distance operator [<=>] are parameters. *)

Module Sql.

(** *** The text of a statement *)

Definition is_space (c : ascii) : bool := byte_between "009" "013" c || Ascii.eqb c " ".

Definition is_punctuation (c : ascii) : bool :=
  Ascii.eqb c "," || Ascii.eqb c "(" || Ascii.eqb c ")".

(** The token read so far, if any; [current] holds its bytes last first. *)
Definition flush (current : string) : list string :=
  match current with
  | EmptyString => []
  | _ => [String.rev current]
  end.

(** Tokens: a comma, a parenthesis, or a run of other bytes that holds no
    white space. *)
Fixpoint tokens_from (s current : string) : list string :=
  match s with
  | EmptyString => flush current
  | String c s' =>
      if is_space c then flush current ++ tokens_from s' EmptyString
      else if is_punctuation c
      then flush current ++ String c EmptyString :: tokens_from s' EmptyString
      else tokens_from s' (String c current)
  end.

Definition tokens (s : string) : list string := tokens_from s EmptyString.

Inductive expr :=
| Num (n : Z)
| Param (k : nat)
| Column (name : string)
| Distance (a b : expr)
| Minus (a b : expr).

Inductive direction := Asc | Desc.

Record select := mkSelect {
  sel_items : list expr;
  sel_from : string;
  sel_order : option (expr * direction);
  sel_limit : option expr
}.

(** Key words and names are read without regard to case. *)
Definition fold_byte (c : ascii) : ascii :=
  if byte_between "A" "Z" c then ascii_of_N (byte_val c + 32) else c.

Fixpoint fold_case (s : string) : string :=
  match s with
  | EmptyString => EmptyString
  | String c s' => String (fold_byte c) (fold_case s')
  end.

Definition keyword (word token : string) : bool := String.eqb (fold_case token) word.

Fixpoint number (s : string) (acc : Z) : option Z :=
  match s with
  | EmptyString => Some acc
  | String c s' => if is_digit c then number s' (acc * 10 + Z.of_N (digit_val c)) else None
  end.

Definition is_name_byte (c : ascii) : bool :=
  byte_between "a" "z" (fold_byte c) || is_digit c || Ascii.eqb c "_".

Fixpoint is_name (s : string) : bool :=
  match s with
  | EmptyString => true
  | String c s' => is_name_byte c && is_name s'
  end.

Definition reserved (token : string) : bool :=
  keyword "select" token || keyword "from" token || keyword "order" token ||
  keyword "by" token || keyword "limit" token || keyword "as" token ||
  keyword "asc" token || keyword "desc" token.

(** A constant, a parameter [$k] or a column. *)
Definition parse_leaf (token : string) : option expr :=
  match token with
  | EmptyString => None
  | String c rest =>
      if is_digit c then Num <$> number token 0
      else if Ascii.eqb c "$" then
        match rest with
        | EmptyString => None
        | _ => (fun k => Param (Z.to_nat k)) <$> number rest 0
        end
      else if is_name token && negb (reserved token) then Some (Column (fold_case token))
      else None
  end.

(** An expression: an operand, or two operands around one operator; an
    operand is a leaf or an expression between parentheses.  [fuel] bounds
    the depth of the parentheses. *)
Fixpoint parse_expr (fuel : nat) (ts : list string) : option (expr * list string) :=
  match fuel with
  | O => None
  | S fuel' =>
      let operand (ts : list string) : option (expr * list string) :=
        match ts with
        | [] => None
        | t :: rest =>
            if String.eqb t "(" then
              match parse_expr fuel' rest with
              | Some (e, close :: rest') =>
                  if String.eqb close ")" then Some (e, rest') else None
              | _ => None
              end
            else (fun e => (e, rest)) <$> parse_leaf t
        end in
      match operand ts with
      | Some (a, op :: rest) =>
          if String.eqb op "-" then
            '(b, rest') ← operand rest; Some (Minus a b, rest')
          else if String.eqb op "<=>" then
            '(b, rest') ← operand rest; Some (Distance a b, rest')
          else Some (a, op :: rest)
      | r => r
      end
  end.

(** The select list: expressions separated by commas, each with an optional
    [AS name]. *)
Fixpoint parse_items (fuel : nat) (ts : list string) : option (list expr * list string) :=
  match fuel with
  | O => None
  | S fuel' =>
      '(e, rest) ← parse_expr (length ts) ts;
      let rest := match rest with
                  | a :: alias :: rest' =>
                      if keyword "as" a && is_name alias && negb (reserved alias)
                      then rest' else rest
                  | _ => rest
                  end in
      match rest with
      | c :: rest' =>
          if String.eqb c "," then
            '(es, rest'') ← parse_items fuel' rest'; Some (e :: es, rest'')
          else Some ([e], rest)
      | [] => Some ([e], [])
      end
  end.

Definition parse_order (ts : list string)
    : option (option (expr * direction) * list string) :=
  match ts with
  | o :: b :: rest =>
      if keyword "order" o && keyword "by" b then
        '(e, rest') ← parse_expr (length rest) rest;
        match rest' with
        | d :: rest'' =>
            if keyword "asc" d then Some (Some (e, Asc), rest'')
            else if keyword "desc" d then Some (Some (e, Desc), rest'')
            else Some (Some (e, Asc), rest')
        | [] => Some (Some (e, Asc), [])
        end
      else Some (None, ts)
  | _ => Some (None, ts)
  end.

Definition parse_limit (ts : list string) : option (option expr * list string) :=
  match ts with
  | l :: rest =>
      if keyword "limit" l then
        '(e, rest') ← parse_expr (length rest) rest; Some (Some e, rest')
      else Some (None, ts)
  | [] => Some (None, ts)
  end.

(** [SELECT items FROM table [ORDER BY expression [ASC | DESC]] [LIMIT expression]]. *)
Definition parse_select (s : string) : option select :=
  match tokens s with
  | sel :: ts =>
      if keyword "select" sel then
        '(items, ts) ← parse_items (length ts) ts;
        match ts with
        | f :: table :: ts =>
            if keyword "from" f && is_name table && negb (reserved table) then
              '(order, ts) ← parse_order ts;
              '(limit, ts) ← parse_limit ts;
              match ts with
              | [] => Some (mkSelect items (fold_case table) order limit)
              | _ => None
              end
            else None
        | _ => None
        end
      else None
  | [] => None
  end.

End Sql.

(** *** Double precision in the store *)

(** An integer constant as a [float8]. *)
Definition float8_of_Z (n : Z) : float64 := binary_normalize 53 1024 n 0 false.

Definition is_infinite (x : float64) : bool :=
  match x with
  | S754_infinity _ => true
  | _ => false
  end.

(** [x - y] on [float8]: the store refuses a result that overflows. *)
Definition float8_mi (x y : float64) : option float64 :=
  let r := SFsub 53 1024 x y in
  if is_infinite r && negb (is_infinite x) && negb (is_infinite y) then None else Some r.

(** The order of [float8] in a sort: minus infinity, the finite values by
    their value (the two zeros are equal), infinity, and NaN last. *)
Definition float8_class (x : float64) : Z :=
  match x with
  | S754_infinity true => 0
  | S754_infinity false => 2
  | S754_nan => 3
  | _ => 1
  end.

Definition float8_leb (x y : float64) : bool :=
  (float8_class x <? float8_class y) ||
  ((float8_class x =? float8_class y) && Qle_bool (F2Q x) (F2Q y)).

Definition float8_le (x y : float64) : Prop := float8_leb x y = true.

(** *** The table and the execution of a statement *)

(** A row of the table [documents]; every column may be NULL ([None]). *)
Record stored (vec : Type) := mkStored {
  col_id : option Z;
  col_content : option string;
  col_media_type : option string;
  col_file_name : option string;
  col_embedding : option vec;
  col_created_at : option Time
}.

Arguments mkStored {vec}.
Arguments col_id {vec}.
Arguments col_content {vec}.
Arguments col_media_type {vec}.
Arguments col_file_name {vec}.
Arguments col_embedding {vec}.
Arguments col_created_at {vec}.

(** A value of the store. *)
Inductive value (vec : Type) :=
| VNull
| VInt (n : Z)
| VText (s : string)
| VTime (t : Time)
| VVector (v : vec)
| VFloat (x : float64).

Arguments VNull {vec}.
Arguments VInt {vec}.
Arguments VText {vec}.
Arguments VTime {vec}.
Arguments VVector {vec}.
Arguments VFloat {vec}.

Section PgStore.

Context {vec : Type}.
Variable vector_in : string -> option vec.
Variable vector_out : vec -> string.
Variable cosine_distance : vec -> vec -> option float64.

(** The value of a column of a row; [None] for a column the table does not
    have. *)
Definition column (r : stored vec) (name : string) : option (value vec) :=
  if String.eqb name "id" then Some (from_option VInt VNull (col_id r))
  else if String.eqb name "content" then Some (from_option VText VNull (col_content r))
  else if String.eqb name "media_type" then Some (from_option VText VNull (col_media_type r))
  else if String.eqb name "file_name" then Some (from_option VText VNull (col_file_name r))
  else if String.eqb name "embedding" then Some (from_option VVector VNull (col_embedding r))
  else if String.eqb name "created_at" then Some (from_option VTime VNull (col_created_at r))
  else None.

(** The parameters that stand where a vector is expected: the operands of
    [<=>]. *)
Fixpoint vector_params (e : Sql.expr) : list nat :=
  match e with
  | Sql.Distance a b =>
      let operand x := match x with Sql.Param k => [k] | _ => vector_params x end in
      operand a ++ operand b
  | Sql.Minus a b => vector_params a ++ vector_params b
  | _ => []
  end.

Definition select_vector_params (st : Sql.select) : list nat :=
  concat (vector_params <$> Sql.sel_items st) ++
  from_option (fun o => vector_params o.1) [] (Sql.sel_order st) ++
  from_option vector_params [] (Sql.sel_limit st).

(** Binding the parameters: a parameter that stands for a vector is read
    from its text when the statement is bound, and the statement fails if
    the text is not a vector. *)
Definition bind_param (st : Sql.select) (i : nat) (v : value vec) : option (value vec) :=
  if bool_decide (S i ∈ select_vector_params st) then
    match v with
    | VText t => VVector <$> vector_in t
    | VVector _ | VNull => Some v
    | _ => None
    end
  else Some v.

Definition bind_params (st : Sql.select) (params : list (value vec))
    : option (list (value vec)) :=
  mapM (fun iv => bind_param st iv.1 iv.2) (imap pair params).

(** An operand as a vector or as a [float8]: the outer [None] is an error,
    the inner one NULL. *)
Definition as_vector (v : value vec) : option (option vec) :=
  match v with
  | VNull => Some None
  | VVector x => Some (Some x)
  | _ => None
  end.

Definition as_float8 (v : value vec) : option (option float64) :=
  match v with
  | VNull => Some None
  | VInt n => Some (Some (float8_of_Z n))
  | VFloat x => Some (Some x)
  | _ => None
  end.

(** The value of an expression on a row (no row for [LIMIT]); [None] is an
    error.  An operator applied to NULL gives NULL. *)
Fixpoint eval (params : list (value vec)) (row : option (stored vec)) (e : Sql.expr)
    : option (value vec) :=
  match e with
  | Sql.Num n => Some (VInt n)
  | Sql.Param k =>
      match k with
      | O => None
      | S i => params !! i
      end
  | Sql.Column name => r ← row; column r name
  | Sql.Distance a b =>
      x ← eval params row a ≫= as_vector;
      y ← eval params row b ≫= as_vector;
      match x, y with
      | Some u, Some v => VFloat <$> cosine_distance u v
      | _, _ => Some VNull
      end
  | Sql.Minus a b =>
      x ← eval params row a;
      y ← eval params row b;
      match x, y with
      | VInt n, VInt m =>
          if decide (-2 ^ 31 <= n - m < 2 ^ 31) then Some (VInt (n - m)) else None
      | _, _ =>
          x ← as_float8 x;
          y ← as_float8 y;
          match x, y with
          | Some u, Some v => VFloat <$> float8_mi u v
          | _, _ => Some VNull
          end
      end
  end.

(** The sort key of a row: a [float8] or NULL. *)
Definition order_key (params : list (value vec)) (e : Sql.expr) (r : stored vec)
    : option (option float64) :=
  v ← eval params (Some r) e;
  match v with
  | VNull => Some None
  | VFloat x => Some (Some x)
  | _ => None
  end.

(** Ascending order puts NULL last, descending order first. *)
Definition nulls_last_le (a b : option float64) : Prop :=
  match a, b with
  | _, None => True
  | None, Some _ => False
  | Some x, Some y => float8_le x y
  end.

Definition key_le (d : Sql.direction) : relation (option float64 * stored vec) :=
  fun a b =>
    match d with
    | Sql.Asc => nulls_last_le a.1 b.1
    | Sql.Desc => nulls_last_le b.1 a.1
    end.

#[global] Instance nulls_last_le_dec : RelDecision nulls_last_le.
Proof.
  intros a b. unfold nulls_last_le, float8_le. destruct a, b; apply _.
Defined.

#[global] Instance key_le_dec (d : Sql.direction) : RelDecision (key_le d).
Proof. intros a b. unfold key_le. destruct d; apply _. Defined.

(** [ORDER BY]. *)
Definition sort_rows (params : list (value vec)) (order : option (Sql.expr * Sql.direction))
    (table : list (stored vec)) : option (list (stored vec)) :=
  match order with
  | None => Some table
  | Some (e, d) =>
      keyed ← mapM (fun r => k ← order_key params e r; Some (k, r)) table;
      Some (snd <$> merge_sort (key_le d) keyed)
  end.

(** [LIMIT]: the store refuses a negative count; [LIMIT NULL] is no limit. *)
Definition limit_rows (params : list (value vec)) (limit : option Sql.expr)
    (rows : list (stored vec)) : option (list (stored vec)) :=
  match limit with
  | None => Some rows
  | Some e =>
      v ← eval params None e;
      match v with
      | VInt n => if decide (n < 0) then None else Some (take (Z.to_nat n) rows)
      | VNull => Some rows
      | _ => None
      end
  end.

(** Running a statement on the table [documents]: the rows of the result,
    each with the values of the select list. *)
Definition run (st : Sql.select) (params : list (value vec)) (table : list (stored vec))
    : option (list (list (value vec))) :=
  if String.eqb (Sql.sel_from st) "documents" then
    params ← bind_params st params;
    sorted ← sort_rows params (Sql.sel_order st) table;
    limited ← limit_rows params (Sql.sel_limit st) sorted;
    mapM (fun r => mapM (eval params (Some r)) (Sql.sel_items st)) limited
  else None.

(** [rows.Scan] into the seven destinations of [SearchSimilarDocuments]: an
    [int], a [string], two [sql.NullString], a [string], a [time.Time] and a
    [float64].  A NULL is an error except in a [sql.NullString]; the
    conversions between kinds of values are not modelled and count as
    errors. *)
Definition scan_null_string (v : value vec) : option (option string) :=
  match v with
  | VNull => Some None
  | VText s => Some (Some s)
  | _ => None
  end.

Definition scan_string (v : value vec) : option string :=
  match v with
  | VText s => Some s
  | VVector x => Some (vector_out x)
  | _ => None
  end.

Definition scan_row (columns : list (value vec)) : row :=
  match columns with
  | [VInt id; content; mediaType; fileName; embedding; VTime createdAt; VFloat similarity] =>
      match scan_string content, scan_null_string mediaType, scan_null_string fileName,
            scan_string embedding with
      | Some content, Some mediaType, Some fileName, Some embeddingStr =>
          Scanned id content mediaType fileName embeddingStr createdAt similarity
      | _, _, _, _ => ScanError "sql: Scan error: unsupported conversion"
      end
  | [_; _; _; _; _; _; _] => ScanError "sql: Scan error: unsupported conversion"
  | _ => ScanError "sql: expected a different number of destination arguments in Scan"
  end.

(** [db.Query(query, embeddingStr, limit)] on the store. *)
Definition pg_query (table : list (stored vec)) (query embeddingStr : string) (limit : Z)
    : list row + error :=
  match Sql.parse_select query with
  | None => inr "pq: syntax error"
  | Some st =>
      match run st [VText embeddingStr; VInt limit] table with
      | None => inr "pq: the statement failed"
      | Some rows => inl (scan_row <$> rows)
      end
  end.

(** The store as a [*sql.DB]; [insert] answers the inserts. *)
Definition pg_store (insert : string -> string -> option string -> option string -> string
                              -> row_result)
    (table : list (stored vec)) : DB :=
  mkDB insert (pg_query table).

(** *** What the search statement asks for *)

(** [embedding <=> $1] on a row, for the query vector [qv]: NULL when the
    embedding is. *)
Definition distance_to (qv : vec) (r : stored vec) : option float64 :=
  e ← col_embedding r; cosine_distance e qv.

(** [1 - (embedding <=> $1)]. *)
Definition similarity_to (qv : vec) (r : stored vec) : option float64 :=
  d ← distance_to qv r; float8_mi (float8_of_Z 1) d.

(** The statement evaluates on a row without error: the distance is defined
    (the vectors have the same dimension) and the similarity does not
    overflow. *)
Definition evaluates (qv : vec) (r : stored vec) : Prop :=
  forall e, col_embedding r = Some e ->
    exists d s, cosine_distance e qv = Some d /\ float8_mi (float8_of_Z 1) d = Some s.

Definition by_distance (qv : vec) : relation (stored vec) :=
  fun r1 r2 => nulls_last_le (distance_to qv r1) (distance_to qv r2).

(** The rows in ascending order of distance, NULL last, and the first
    [limit] of them. *)
Definition select_similar (table : list (stored vec)) (qv : vec) (limit : Z)
    : list (stored vec) :=
  take (Z.to_nat limit)
    (snd <$> merge_sort (key_le Sql.Asc) ((fun r => (distance_to qv r, r)) <$> table)).

(** The values of the select list on a row. *)
Definition selected (qv : vec) (r : stored vec) : list (value vec) :=
  [from_option VInt VNull (col_id r); from_option VText VNull (col_content r);
   from_option VText VNull (col_media_type r); from_option VText VNull (col_file_name r);
   from_option VVector VNull (col_embedding r); from_option VTime VNull (col_created_at r);
   from_option VFloat VNull (similarity_to qv r)].

(** The document [SearchSimilarDocuments] builds from a row that scans. *)
Definition document_of (r : stored vec) : Document :=
  mkDocument (default 0 (col_id r)) (default EmptyString (col_content r))
    (col_media_type r) (col_file_name r)
    (decode (from_option vector_out EmptyString (col_embedding r)))
    (default 0 (col_created_at r)).

(** A row scans when none of its required columns is NULL. *)
Definition scannable (r : stored vec) : bool :=
  bool_decide (is_Some (col_id r)) && bool_decide (is_Some (col_content r)) &&
  bool_decide (is_Some (col_embedding r)) && bool_decide (is_Some (col_created_at r)).

End PgStore.

(** What the text of the search statement says. *)
Definition search_select : Sql.select :=
  Sql.mkSelect
    [Sql.Column "id"; Sql.Column "content"; Sql.Column "media_type";
     Sql.Column "file_name"; Sql.Column "embedding"; Sql.Column "created_at";
     Sql.Minus (Sql.Num 1) (Sql.Distance (Sql.Column "embedding") (Sql.Param 1))]
    "documents"
    (Some (Sql.Distance (Sql.Column "embedding") (Sql.Param 1), Sql.Asc))
    (Some (Sql.Param 2)).


(** The documents of the rows of a result set that scan, in order. *)
Definition scanned_document (r : row) : option Document :=
  match r with
  | ScanError _ => None
  | Scanned id content mediaType fileName embeddingStr createdAt _ =>
      Some (mkDocument id content mediaType fileName (decode embeddingStr) createdAt)
  end.

Definition scanned_documents (rows : list row) : list Document :=
  omap scanned_document rows.

Definition scan_fails (r : row) : bool :=
  match r with ScanError _ => true | Scanned _ _ _ _ _ _ _ => false end.

(** The line [SearchSimilarDocuments] logs for a row. *)
Definition row_log (r : row) : event :=
  match r with
  | ScanError err => Log "Row scan error: %v" [OErr err]
  | Scanned id _ _ _ _ _ similarity =>
      Log "Found document ID %d with similarity: %.4f" [OInt id; OFloat similarity]
  end.

(** The similarities logged by [SearchSimilarDocuments], in order. *)
Definition logged_similarity (ev : event) : option float64 :=
  match ev with
  | Log _ [OInt _; OFloat x] => Some x
  | _ => None
  end.

(** * Auxiliary definitions

    Quantities and predicates the proofs below are stated with, and the
    worlds of the examples. *)

Import GoStrconv.

(** The exponent [round32] chooses, and the quotient it rounds. *)
Definition round_shift (a d : Z) : Z := Z.max (Z.log2 (a / d) - 23) 0.

(** The magnitude of a finite float in units of [2^-149]. *)
Definition units (f : float32) : Z :=
  match f with
  | S754_finite _ m e => Zpos m * 2 ^ (e + 149)
  | _ => 0
  end.

Definition sign_of (f : float32) : bool :=
  match f with
  | S754_zero s | S754_infinity s | S754_finite s _ _ => s
  | S754_nan => false
  end.

Definition signedQ (s : bool) (q : Q) : Q := if s then Qopp q else q.

(** Every byte of the string satisfies [P]. *)
Fixpoint string_forall (P : ascii -> bool) (s : string) : bool :=
  match s with
  | EmptyString => true
  | String c s' => P c && string_forall P s'
  end.

(** The bytes of a [%f] token of a finite float. *)
Definition is_plain (c : ascii) : bool :=
  is_digit c || Ascii.eqb c "-" || Ascii.eqb c ".".

Ltac by_bits c := destruct c as [[] [] [] [] [] [] [] []]; try discriminate; try reflexivity.

Ltac white_space_table :=
  let ws := eval vm_compute in white_space in change white_space with ws.

(** Deciding the comparisons of a byte with a constant one after the other. *)
Ltac split_eqb :=
  repeat match goal with
         | |- context [Ascii.eqb ?c ?k] =>
             is_var c; destruct (Ascii.eqb_spec c k) as [->|?]; cbn
         end.

Definition no_comma (s : string) : bool :=
  string_forall (fun c => negb (Ascii.eqb c ",")) s.

(** The digit loop of [readFloat] on one decimal digit. *)
Definition feed (st : digits) (c : ascii) : digits :=
  if Ascii.eqb c "0" && (nd st =? 0)
  then mkDigits (mantissa st) (nd st) (dp st - 1) (sawdot st) true (underscores st)
  else mkDigits (mantissa st * 10 + digit_val c)%N (nd st + 1) (dp st) (sawdot st) true
         (underscores st).

Fixpoint feed_all (st : digits) (s : string) : digits :=
  match s with
  | EmptyString => st
  | String c s' => feed_all (feed st c) s'
  end.

(** No digit is counted before the first non-zero one. *)
Definition digits_ok (st : digits) : Prop :=
  0 <= nd st /\ (nd st = 0 -> mantissa st = 0%N).

(** The body of a [%f] token: the digits of [i], a point, the six digits of
    [f]. *)
Definition token_body (i f : N) : string :=
  FormatUint i +:+ String "." (fixed_digits 6 f EmptyString).

Definition millis (f : float32) : N :=
  match f with
  | S754_finite _ m e => millionths m e
  | _ => 0%N
  end.

Definition token_of (f : float32) : string := fmtF (sign_of f) (millis f).

(** A store that answers every insert with [r] and every search with [rows]. *)
Definition fixed_DB (r : row_result) (rows : list row + error) : DB :=
  mkDB (fun _ _ _ _ _ => r) (fun _ _ _ => rows).

(** A provider that answers every request with the status and body given;
    the body decodes to [embedding]. *)
Definition fixed_World (status : Z) (body : string + error)
    (embedding : list float32 + error) (db : DB) : World :=
  mkWorld ∅ (fun _ => inl "request") (fun _ _ _ => inl (mkResponse status body))
    (fun _ => embedding) db.

(** The double quote, which a string literal cannot hold. *)
Definition quote : string := String (ascii_of_nat 34) EmptyString.

(** The body [{"embedding":[0.1,0.2,0.3]}]. *)
Definition example_body : string :=
  "{" +:+ quote +:+ "embedding" +:+ quote +:+ ":[0.1,0.2,0.3]}".

(** The [float32] values of 0.1, 0.2 and 0.3. *)
Definition example_embedding : list float32 :=
  [S754_finite false 13421773 (-27); S754_finite false 13421773 (-26);
   S754_finite false 10066330 (-25)].

Definition hello : Document := mkDocument 0 "hello" None None [] 0.

(** The provider answers with HTTP 500. *)
Definition world_500 : World :=
  fixed_World 500 (inl "internal error") (inl []) (fixed_DB (RowScanned 7 0) (inl [])).

(** The provider returns the embedding [0.1, 0.2, 0.3] and the store echoes
    the identifier 7 and the timestamp 1700000000. *)
Definition world_ok : World :=
  fixed_World 200 (inl example_body) (inl example_embedding)
    (fixed_DB (RowScanned 7 1700000000) (inl [])).

(** The provider returns the embedding and the store has lost its
    connection. *)
Definition world_db_down : World :=
  fixed_World 200 (inl example_body) (inl example_embedding)
    (fixed_DB (RowError "connection lost") (inl [])).

(** A vector extension for the examples.  A vector is a list of floats; the
    text of a vector is read with [decode] and the empty vector is refused;
    the distance of two vectors of the same dimension is the sum of the
    distances of their components, and that of two vectors of different
    dimensions is not defined. *)
Definition example_vector_in (text : string) : option (list float32) :=
  match decode text with
  | [] => None
  | v => Some v
  end.

Definition example_vector_out (v : list float32) : string :=
  default EmptyString (vectorToString v).

Fixpoint sum_of_distances (u v : list float32) : float64 :=
  match u, v with
  | a :: u', b :: v' =>
      SFadd 53 1024 (SFabs (SFsub 53 1024 a b)) (sum_of_distances u' v')
  | _, _ => S754_zero false
  end.

Definition example_distance (u v : list float32) : option float64 :=
  if decide (length u = length v) then Some (sum_of_distances u v) else None.

(** A table of three documents, one without embedding. *)
Definition small_table : list (stored (list float32)) :=
  [mkStored (Some 1) (Some "far") None None
     (Some [S754_finite false 8388608 (-23); S754_finite false 8388608 (-22);
            S754_finite false 12582912 (-22)]) (Some 10);
   mkStored (Some 2) (Some "none") None None None (Some 20);
   mkStored (Some 3) (Some "near") None None
     (Some [S754_finite false 13421773 (-27); S754_finite false 13421773 (-26);
            S754_finite false 8388608 (-24)]) (Some 30)].

(** A store that takes no insert. *)
Definition read_only (query content : string) (mediaType fileName : option string)
    (embeddingStr : string) : row_result :=
  RowError "pq: cannot execute INSERT in a read-only transaction".

(** The body [{"error":"model not found"}]: a JSON object without the field
    [embedding]. *)
Definition error_body : string :=
  "{" +:+ quote +:+ "error" +:+ quote +:+ ":" +:+ quote +:+ "model not found" +:+ quote +:+ "}".

(** The provider answers 200 with that body.  [json.Unmarshal] ignores the
    fields its target does not have and leaves the others as they are: it
    returns no error and the slice [Embedding] stays nil.  The store accepts
    the insert. *)
Definition world_wrong_shape : World :=
  fixed_World 200 (inl error_body) (inl []) (fixed_DB (RowScanned 8 1700000000) (inl [])).

(** Seven rows, the third of which does not scan. *)
Definition seven_rows : list row :=
  [Scanned 11 "a" None None "[1.000000]" 1 (S754_finite false 4503599627370496 (-53));
   Scanned 12 "b" (Some "text/plain") None "[2.000000]" 2 (S754_zero false);
   ScanError "sql: Scan error on column index 1";
   Scanned 14 "d" None (Some "d.txt") "[4.000000]" 4 (S754_zero false);
   Scanned 15 "e" None None "[5.000000]" 5 (S754_zero false);
   Scanned 16 "f" None None "[6.000000]" 6 (S754_zero false);
   Scanned 17 "g" None None "[7.000000]" 7 (S754_zero false)].

(** ** Calls and outcomes

    The calls of each kind among the events of a call. *)

Definition is_http_post (ev : event) : bool :=
  match ev with HttpPost _ _ _ => true | _ => false end.

Definition is_body_close (ev : event) : bool :=
  match ev with BodyClose => true | _ => false end.

Definition is_db_call (ev : event) : bool :=
  match ev with QueryRow _ _ _ _ _ | Query _ _ _ => true | _ => false end.

Definition http_posts (events : list event) : nat :=
  length (filter (fun ev => is_http_post ev = true) events).

Definition body_closes (events : list event) : nat :=
  length (filter (fun ev => is_body_close ev = true) events).

(** The provider answered the request of [CreateDocument] with a response
    (of whatever status). *)
Definition provider_responds (w : World) (doc : Document) : Prop :=
  exists (requestBody : string) (resp : Response),
    json_Marshal w (ollamaReq doc) = inl requestBody /\
    http_Post w (endpoint w) "application/json" requestBody = inl resp.

(** The events of [CreateDocument] up to the insert, when the embedding step
    succeeds. *)
Definition insert_trace (w : World) (doc : Document) (requestBody body : string)
    (E : list float32) (text : string) : list event :=
  [Log "Sending request to Ollama: %s, URL: %s" [OStr requestBody; OStr (endpoint w)];
   HttpPost (endpoint w) "application/json" requestBody;
   Log "Ollama response: status=%d, body=%s" [OInt 200; OStr body];
   Log "Executing query: %s" [OStr insert_query];
   Log "Parameters: content=%s, media_type=%s, file_name=%s, embedding_length=%d"
     [OStr (Content doc); OPtr (MediaType doc); OPtr (FileName doc);
      OInt (Z.of_nat (length E))];
   QueryRow insert_query (Content doc) (MediaType doc) (FileName doc) text].

(** ASCII white space: tab, line feed, vertical tab, form feed, carriage
    return and space. *)
Definition is_ascii_space (c : ascii) : bool :=
  byte_between "009" "013" c || Ascii.eqb c " ".

(** * Properties *)

(** ** The library models on examples *)

Example Trim_brackets : GoStrings.Trim "[[1,2]]]" "[]" = "1,2".
Proof. reflexivity. Qed.

Example Split_commas : GoStrings.Split "a,,b," "," = ["a"; ""; "b"; ""].
Proof. reflexivity. Qed.

Example Join_commas : GoStrings.Join ["a"; "b"; "c"] "," = "a,b,c".
Proof. reflexivity. Qed.

Example TrimSpace_ascii : GoStrings.TrimSpace "  1.5 " = "1.5".
Proof. reflexivity. Qed.

(** U+00A0 (bytes 194 160) and U+3000 (bytes 227 128 128) are white space;
    the lone byte 160 is not a rune and stays. *)
Example TrimSpace_unicode :
  GoStrings.TrimSpace
    (String "194" (String "160" (String " " (String "1" (String "227" (String "128"
       (String "128" EmptyString)))))))
  = "1" /\
  GoStrings.TrimSpace (String "160" (String "1" (String "160" EmptyString)))
  = String "160" (String "1" (String "160" EmptyString)).
Proof. split; reflexivity. Qed.

Example Sprintf_one_and_half :
  GoFmt.Sprintf_f (S754_finite false 3 (-1)) = "1.500000".
Proof. reflexivity. Qed.

Example Sprintf_negative_tie :
  GoFmt.Sprintf_f (S754_finite true 1 (-7)) = "-0.007812".
Proof. reflexivity. Qed.

Example Sprintf_nan_inf :
  map GoFmt.Sprintf_f [S754_nan; S754_infinity false; S754_infinity true; S754_zero true]
  = ["NaN"; "+Inf"; "-Inf"; "-0.000000"].
Proof. reflexivity. Qed.

Example ParseFloat_examples :
  map GoStrconv.ParseFloat ["1.5"; "-0.007812"; "bad"; "1e40"; "0x1p-2"; "1_0.5"; "_1"; " 1"; "Infinity"; "1e-50"]
  = [ (S754_finite false 12582912 (-23), None);
      (S754_finite true 16776142 (-31), None);
      (S754_zero false, Some GoStrconv.ErrSyntax);
      (S754_infinity false, Some GoStrconv.ErrRange);
      (S754_finite false 8388608 (-25), None);
      (S754_finite false 11010048 (-20), None);
      (S754_zero false, Some GoStrconv.ErrSyntax);
      (S754_zero false, Some GoStrconv.ErrSyntax);
      (S754_infinity false, None);
      (S754_zero false, None) ].
Proof. vm_compute. reflexivity. Qed.

(** The largest finite float, the least literal that overflows (half an ulp
    above it), the halfway case between two floats, and the neighbourhood of
    half the least subnormal. *)
Example ParseFloat_rounding :
  map GoStrconv.ParseFloat
    ["340282346638528859811704183484516925440"; "340282356779733661637539395458142568448";
     "340282356779733661637539395458142568447"; "16777217"; "16777219"; "1e-45"; "1e-46";
     "0x1.fffffep+127"; "0x1.ffffffp+127"; "-0"]
  = [ (S754_finite false 16777215 104, None);
      (S754_infinity false, Some GoStrconv.ErrRange);
      (S754_finite false 16777215 104, None);
      (S754_finite false 8388608 1, None);
      (S754_finite false 8388610 1, None);
      (S754_finite false 1 (-149), None);
      (S754_zero false, None);
      (S754_finite false 16777215 104, None);
      (S754_infinity false, Some GoStrconv.ErrRange);
      (S754_zero true, None) ].
Proof. vm_compute. reflexivity. Qed.

Example ParseFloat_special_and_syntax :
  map GoStrconv.ParseFloat
    ["nan"; "NaN"; "+Inf"; "-infinity"; "infinit"; "+nan"; ".5"; "5."; "."; "1e"; "0x1";
     "1__0"]
  = [ (S754_nan, None); (S754_nan, None); (S754_infinity false, None);
      (S754_infinity true, None);
      (S754_zero false, Some GoStrconv.ErrSyntax);
      (S754_zero false, Some GoStrconv.ErrSyntax);
      (S754_finite false 8388608 (-24), None);
      (S754_finite false 10485760 (-21), None);
      (S754_zero false, Some GoStrconv.ErrSyntax);
      (S754_zero false, Some GoStrconv.ErrSyntax);
      (S754_zero false, Some GoStrconv.ErrSyntax);
      (S754_zero false, Some GoStrconv.ErrSyntax) ].
Proof. vm_compute. reflexivity. Qed.

Example Sprintf_extremes :
  map GoFmt.Sprintf_f
    [S754_finite false 13421773 (-27); S754_finite false 16777215 104;
     S754_finite false 1 (-149)]
  = ["0.100000"; "340282346638528859811704183484516925440.000000"; "0.000000"].
Proof. vm_compute. reflexivity. Qed.

Example vectorToString_example :
  vectorToString [S754_finite false 3 (-1); S754_zero false; S754_finite true 5 0]
  = Some "[1.500000,0.000000,-5.000000]".
Proof. reflexivity. Qed.

Example parseVectorString_example :
  parseVectorString "[1.500000, 0.000000,x,-5.000000]"
  = Some [S754_finite false 12582912 (-23); S754_zero false; S754_zero false;
          S754_finite true 10485760 (-21)].
Proof. vm_compute. reflexivity. Qed.

(** ** Rounding *)

Lemma div_round_even_spec a b :
  0 < b -> - b <= 2 * (div_round_even a b * b - a) <= b.
Proof.
  intros Hb. unfold div_round_even.
  pose proof (Z.div_mod a b ltac:(lia)) as Hdm.
  pose proof (Z.mod_pos_bound a b Hb) as Hr.
  destruct (Z.compare_spec (2 * (a mod b)) b) as [He|Hl|Hg];
    [destruct (Z.even (a / b))|..]; lia.
Qed.

(** No integer multiple of [b] is nearer to [a] than the rounded quotient. *)
Lemma div_round_even_nearest a b j :
  0 < b -> Z.abs (div_round_even a b * b - a) <= Z.abs (j * b - a).
Proof.
  intros Hb. pose proof (div_round_even_spec a b Hb) as Hs.
  set (x := div_round_even a b) in *.
  destruct (Z.lt_trichotomy j x) as [Hlt|[->|Hgt]]; [|lia|].
  - assert ((x - j) * b >= b) by nia. lia.
  - assert ((j - x) * b >= b) by nia. lia.
Qed.

Lemma div_round_even_nonneg a b : 0 < b -> 0 <= a -> 0 <= div_round_even a b.
Proof.
  intros Hb Ha. unfold div_round_even.
  pose proof (Z.div_pos a b Ha Hb).
  destruct (_ ?= _); [destruct (Z.even _)|..]; lia.
Qed.

Lemma div_round_even_exact a b : 0 < b -> div_round_even (a * b) b = a.
Proof.
  intros Hb. unfold div_round_even.
  rewrite Z.div_mul, Z.mod_mul by lia.
  destruct (Z.compare_spec (2 * 0) b); lia.
Qed.

Lemma round_shift_nonneg a d : 0 <= round_shift a d.
Proof. unfold round_shift. lia. Qed.

Lemma round_shift_upper a d :
  0 < d -> 0 <= a -> a < d * 2 ^ (round_shift a d + 24).
Proof.
  intros Hd Ha. unfold round_shift.
  set (t := a / d). set (sh := Z.max _ _).
  assert (Ht : 0 <= t) by (apply Z.div_pos; lia).
  assert (Hlt : t < 2 ^ (sh + 24)).
  { destruct (Z.eq_dec t 0) as [->|Hne].
    - apply Z.pow_pos_nonneg; lia.
    - pose proof (Z.log2_spec t ltac:(lia)) as [_ Hu].
      eapply Z.lt_le_trans; [exact Hu|].
      apply Z.pow_le_mono_r; lia. }
  pose proof (Z.div_mod a d ltac:(lia)) as Hdm.
  pose proof (Z.mod_pos_bound a d Hd) as Hr. fold t in Hdm.
  assert (t + 1 <= 2 ^ (sh + 24)) by lia. nia.
Qed.

Lemma round_shift_lower a d :
  0 < d -> 0 <= a -> 0 < round_shift a d -> d * 2 ^ (round_shift a d + 23) <= a.
Proof.
  intros Hd Ha. unfold round_shift.
  set (t := a / d). intros Hsh.
  assert (Hlog : 23 < Z.log2 t) by lia.
  assert (Ht : 0 < t).
  { destruct (Z.le_gt_cases t 0) as [Hle|]; [|lia].
    rewrite (Z.log2_nonpos t Hle) in Hlog. lia. }
  replace (Z.max (Z.log2 t - 23) 0 + 23) with (Z.log2 t) by lia.
  pose proof (Z.log2_spec t Ht) as [Hl _].
  pose proof (Z.div_mod a d ltac:(lia)) as Hdm.
  pose proof (Z.mod_pos_bound a d Hd) as Hr. fold t in Hdm. nia.
Qed.

(** The rounded mantissa stays within 24 bits, up to the carry. *)
Lemma round_mantissa_upper a d :
  0 < d -> 0 <= a ->
  div_round_even a (d * 2 ^ round_shift a d) <= 2 ^ 24.
Proof.
  intros Hd Ha.
  pose proof (round_shift_nonneg a d) as Hsh.
  pose proof (round_shift_upper a d Hd Ha) as Hup.
  set (sh := round_shift a d) in *.
  assert (HD : 0 < d * 2 ^ sh) by (apply Z.mul_pos_pos; [lia|apply Z.pow_pos_nonneg; lia]).
  pose proof (div_round_even_spec a _ HD) as Hs.
  set (x := div_round_even a _) in *.
  rewrite Z.pow_add_r in Hup by lia.
  change (2 ^ 24) with 16777216 in *.
  destruct (Z.le_gt_cases x 16777216) as [|Hgt]; [done|].
  assert ((x - 16777216) * (d * 2 ^ sh) >= d * 2 ^ sh) by nia. lia.
Qed.

Lemma round_mantissa_lower a d :
  0 < d -> 0 <= a -> 0 < round_shift a d ->
  2 ^ 23 <= div_round_even a (d * 2 ^ round_shift a d).
Proof.
  intros Hd Ha Hpos.
  pose proof (round_shift_lower a d Hd Ha Hpos) as Hlo.
  set (sh := round_shift a d) in *.
  assert (HD : 0 < d * 2 ^ sh) by (apply Z.mul_pos_pos; [lia|apply Z.pow_pos_nonneg; lia]).
  pose proof (div_round_even_spec a _ HD) as Hs.
  set (x := div_round_even a _) in *.
  rewrite Z.pow_add_r in Hlo by lia.
  change (2 ^ 23) with 8388608 in *.
  destruct (Z.le_gt_cases 8388608 x) as [|Hgt]; [done|].
  assert ((8388608 - x) * (d * 2 ^ sh) >= d * 2 ^ sh) by nia. lia.
Qed.

(** Nearest: no binary32 magnitude [mv * 2^sv] (in units of [2^-149]) is
    nearer to [a / d] than the rounded one. *)
Lemma round_nearest a d mv sv :
  0 < d -> 0 <= a -> 0 <= sv -> 0 <= mv < 2 ^ 24 ->
  let sh := round_shift a d in
  Z.abs (div_round_even a (d * 2 ^ sh) * 2 ^ sh * d - a) <= Z.abs (mv * 2 ^ sv * d - a).
Proof.
  intros Hd Ha Hsv Hmv sh.
  pose proof (round_shift_nonneg a d) as Hsh. fold sh in Hsh.
  assert (Hp : 0 < 2 ^ sh) by (apply Z.pow_pos_nonneg; lia).
  assert (HD : 0 < d * 2 ^ sh) by (apply Z.mul_pos_pos; lia).
  set (x := div_round_even a (d * 2 ^ sh)).
  replace (x * 2 ^ sh * d) with (x * (d * 2 ^ sh)) by ring.
  destruct (Z.le_gt_cases sh sv) as [Hle|Hgt].
  - replace (mv * 2 ^ sv * d) with (mv * 2 ^ (sv - sh) * (d * 2 ^ sh)).
    + apply div_round_even_nearest; lia.
    + replace sv with ((sv - sh) + sh) at 2 by lia.
      rewrite Z.pow_add_r by lia. ring.
  - pose proof (round_shift_lower a d Hd Ha ltac:(fold sh; lia)) as Hlo. fold sh in Hlo.
    pose proof (div_round_even_nearest a (d * 2 ^ sh) (2 ^ 23) HD) as Hn. fold x in Hn.
    rewrite Z.pow_add_r in Hlo by lia.
    assert (Hsv' : 2 ^ sv * 2 <= 2 ^ sh).
    { replace sh with (sv + 1 + (sh - sv - 1)) by lia.
      rewrite !Z.pow_add_r by lia.
      assert (0 < 2 ^ (sh - sv - 1)) by (apply Z.pow_pos_nonneg; lia).
      assert (0 < 2 ^ sv) by (apply Z.pow_pos_nonneg; lia).
      change (2 ^ 1) with 2. nia. }
    change (2 ^ 24) with 16777216 in *. change (2 ^ 23) with 8388608 in *.
    assert (0 < 2 ^ sv) by (apply Z.pow_pos_nonneg; lia).
    assert (H1 : mv * 2 ^ sv < 8388608 * 2 ^ sh) by nia.
    assert (H2 : mv * 2 ^ sv * d < 8388608 * 2 ^ sh * d)
      by (apply Z.mul_lt_mono_pos_r; lia).
    lia.
Qed.

(** ** Valid binary32 data *)

Lemma digits2_pos_log2 m : Zpos (digits2_pos m) = Z.log2 (Zpos m) + 1.
Proof.
  induction m as [m IH|m IH|]; simpl; try reflexivity.
  - rewrite Pos2Z.inj_succ, IH. destruct m; simpl; lia.
  - rewrite Pos2Z.inj_succ, IH. destruct m; simpl; lia.
Qed.

Lemma bounded_elim m e :
  bounded 24 128 m e = true -> -149 <= e <= 104 /\ Zpos m < 2 ^ 24.
Proof.
  unfold bounded, canonical_mantissa, fexp, emin.
  rewrite andb_true_iff, Z.eqb_eq, Z.leb_le, digits2_pos_log2.
  intros [Hc He]. split; [lia|].
  apply Z.log2_lt_pow2; lia.
Qed.

Lemma bounded_intro m e :
  -149 <= e <= 104 -> Zpos m < 2 ^ 24 -> (e = -149 \/ 2 ^ 23 <= Zpos m) ->
  bounded 24 128 m e = true.
Proof.
  intros He Hm Hn. unfold bounded, canonical_mantissa, fexp, emin.
  rewrite andb_true_iff, Z.eqb_eq, Z.leb_le, digits2_pos_log2.
  split; [|lia].
  apply Z.log2_lt_pow2 in Hm; [|lia].
  destruct Hn as [->|Hn]; [lia|].
  apply Z.log2_le_pow2 in Hn; lia.
Qed.

Lemma units_bound f :
  is_finite32 f = true -> 0 <= units f <= (2 ^ 24 - 1) * 2 ^ 253.
Proof.
  destruct f as [s|s| |s m e]; simpl; try discriminate; try lia.
  intros [He Hm]%bounded_elim.
  assert (0 < 2 ^ (e + 149)) by (apply Z.pow_pos_nonneg; lia).
  assert (2 ^ (e + 149) <= 2 ^ 253) by (apply Z.pow_le_mono_r; lia).
  split; [lia|].
  transitivity ((2 ^ 24 - 1) * 2 ^ (e + 149)).
  - apply Z.mul_le_mono_nonneg_r; lia.
  - apply Z.mul_le_mono_nonneg_l; lia.
Qed.

(** What [round32] returns, in terms of the rounded quotient. *)
Lemma round32_spec neg n d :
  0 <= n ->
  let a := n * 2 ^ 149 in
  let sh := round_shift a (Zpos d) in
  let x := div_round_even a (Zpos d * 2 ^ sh) in
  match round32 neg n d with
  | (f, false) => is_finite32 f = true /\ sign_of f = neg /\ units f = x * 2 ^ sh
  | (f, true) => f = S754_infinity neg /\ 2 ^ 277 <= x * 2 ^ sh
  end.
Proof.
  intros Hn a sh x.
  assert (Ha : 0 <= a) by (subst a; apply Z.mul_nonneg_nonneg; lia).
  pose proof (round_shift_nonneg a (Zpos d)) as Hsh.
  pose proof (round_mantissa_upper a (Zpos d) ltac:(lia) Ha) as Hup.
  assert (Hx0 : 0 <= x).
  { apply div_round_even_nonneg; [|done].
    apply Z.mul_pos_pos; [lia|apply Z.pow_pos_nonneg; lia]. }
  assert (Hlo : 0 < sh -> 2 ^ 23 <= x)
    by (intros; apply round_mantissa_lower; [lia|done|done]).
  unfold round32. fold a. fold (round_shift a (Zpos d)). fold sh. fold x. fold sh in Hup. fold x in Hup.
  destruct (Z.eqb_spec x (2 ^ 24)) as [Hx|Hx].
  - change (2 ^ 23) with (Zpos 8388608).
    destruct (Z.gtb_spec (sh + 1) 253) as [Hov|Hov].
    + split; [done|]. rewrite Hx.
      replace 277 with (24 + 253) by lia. rewrite Z.pow_add_r by lia.
      apply Z.mul_le_mono_nonneg_l; [lia|]. apply Z.pow_le_mono_r; lia.
    + split; [|split; [done|]].
      * apply bounded_intro; [lia|reflexivity|right; lia].
      * simpl. rewrite Hx. replace (sh + 1 - 149 + 149) with (1 + sh) by lia.
        rewrite Z.pow_add_r by lia. change (2 ^ 24) with 16777216.
        change (2 ^ 1) with 2. lia.
  - destruct x as [|p|p] eqn:Ex; [simpl; auto| |lia].
    change (2 ^ 24) with 16777216 in *.
    destruct (Z.gtb_spec sh 253) as [Hov|Hov].
    + split; [done|].
      specialize (Hlo ltac:(lia)).
      replace 277 with (23 + 254) by lia. rewrite Z.pow_add_r by lia.
      assert (2 ^ 254 <= 2 ^ sh) by (apply Z.pow_le_mono_r; lia).
      assert (0 < 2 ^ 254) by reflexivity.
      nia.
    + split; [|split; [done|]].
      * apply bounded_intro; [lia|lia|].
        destruct (Z.eq_dec sh 0); [left; lia|right; apply Hlo; lia].
      * simpl. replace (sh - 149 + 149) with sh by lia. reflexivity.
Qed.

(** ** Formatting and reading back a finite float *)

(** The six-digit decimal of a float is within half a millionth of it. *)
Lemma millionths_near m e :
  bounded 24 128 m e = true ->
  2 * Z.abs (Zpos m * 2 ^ (e + 149) * 10 ^ 6 - Z.of_N (millionths m e) * 2 ^ 149) <= 2 ^ 149.
Proof.
  intros [He Hm]%bounded_elim. unfold millionths.
  destruct e as [|k|k].
  - change (2 ^ 0) with 1. change (10 ^ 6) with 1000000.
    rewrite Z2N.id by lia. rewrite Z.add_0_l.
    replace (_ - _) with 0 by ring. simpl Z.abs. vm_compute. discriminate.
  - assert (0 < 2 ^ Zpos k) by (apply Z.pow_pos_nonneg; lia).
    rewrite Z2N.id by (change (10 ^ 6) with 1000000; nia).
    rewrite Z.pow_add_r by lia.
    replace (_ - _) with 0 by ring. simpl Z.abs. vm_compute. discriminate.
  - assert (Hp : 0 < 2 ^ Zpos k) by (apply Z.pow_pos_nonneg; lia).
    pose proof (div_round_even_spec (Zpos m * 10 ^ 6) (2 ^ Zpos k) Hp) as Hs.
    rewrite Z2N.id by (apply div_round_even_nonneg; [done|change (10 ^ 6) with 1000000; lia]).
    set (n := div_round_even _ _) in *.
    assert (Hq : 0 < 2 ^ (Zneg k + 149)) by (apply Z.pow_pos_nonneg; lia).
    assert (Hsplit : 2 ^ 149 = 2 ^ (Zneg k + 149) * 2 ^ Zpos k).
    { rewrite <- Z.pow_add_r by lia. f_equal. lia. }
    rewrite Hsplit.
    replace (Zpos m * 2 ^ (Zneg k + 149) * 10 ^ 6 - n * (2 ^ (Zneg k + 149) * 2 ^ Zpos k))
      with (2 ^ (Zneg k + 149) * (Zpos m * 10 ^ 6 - n * 2 ^ Zpos k)) by ring.
    rewrite Z.abs_mul, (Z.abs_eq (2 ^ _)) by lia.
    assert (2 * Z.abs (Zpos m * 10 ^ 6 - n * 2 ^ Zpos k) <= 2 ^ Zpos k) by lia.
    nia.
Qed.

(** Rounding the six-digit decimal of a finite float to binary32 does not
    overflow and lands within a millionth of the float. *)
Lemma round32_millionths s (f : float32) n :
  is_finite32 f = true ->
  0 <= n ->
  2 * Z.abs (units f * 10 ^ 6 - n * 2 ^ 149) <= 2 ^ 149 ->
  exists f', round32 s n 1000000 = (f', false) /\
             is_finite32 f' = true /\ sign_of f' = s /\
             Z.abs (units f' - units f) * 10 ^ 6 <= 2 ^ 149.
Proof.
  intros Hf Hn Hnear.
  pose proof (units_bound f Hf) as Hb.
  assert (Hmv : exists mv sv, 0 <= sv /\ 0 <= mv < 2 ^ 24 /\ units f = mv * 2 ^ sv).
  { destruct f as [z|z| |z m e]; simpl in *; try discriminate.
    - exists 0, 0. split; [lia|split; [vm_compute; split; congruence|reflexivity]].
    - apply bounded_elim in Hf as [He Hm]. exists (Zpos m), (e + 149). lia. }
  destruct Hmv as (mv & sv & Hsv & Hmv & Hu).
  assert (Ha : 0 <= n * 2 ^ 149) by (apply Z.mul_nonneg_nonneg; [lia|vm_compute; congruence]).
  pose proof (round_nearest (n * 2 ^ 149) 1000000 mv sv ltac:(lia) Ha Hsv Hmv) as Hnear'.
  pose proof (round32_spec s n 1000000 Hn) as Hspec.
  cbv zeta in Hnear', Hspec.
  set (sh := round_shift _ _) in *.
  set (x := div_round_even _ _) in *.
  rewrite <- Hu in Hnear'.
  change (10 ^ 6) with 1000000 in *.
  assert (Hclose : Z.abs (x * 2 ^ sh - units f) * 1000000 <= 2 ^ 149) by lia.
  destruct (round32 s n 1000000) as [f' [|]].
  - exfalso. destruct Hspec as [_ Hbig].
    change (2 ^ 24) with 16777216 in *.
    change (2 ^ 149) with 713623846352979940529142984724747568191373312 in *.
    change (2 ^ 253) with 14474011154664524427946373126085988481658748083205070504932198000989141204992 in *.
    change (2 ^ 277) with 242833611528216133864932738352939863330300854881517440156476551217363035650651062272 in *.
    lia.
  - destruct Hspec as (Hfin & Hsign & Hunits).
    exists f'. rewrite Hunits. auto.
Qed.

(** ** The rational a float denotes *)

Lemma F2Q_units f :
  is_finite32 f = true ->
  (F2Q f == signedQ (sign_of f) (units f # 713623846352979940529142984724747568191373312))%Q.
Proof.
  destruct f as [z|z| |z m e]; simpl; try discriminate.
  - intros _. destruct z; reflexivity.
  - intros [He Hm]%bounded_elim.
    assert (Hq : forall a b : Q, (a == b)%Q -> (signedQ z a == signedQ z b)%Q)
      by (intros a b Hab; destruct z; simpl; rewrite Hab; reflexivity).
    apply Hq. unfold Qeq.
    destruct e as [|k|k]; cbn [Qnum Qden];
      change (Zpos 713623846352979940529142984724747568191373312) with (2 ^ 149).
    + simpl. lia.
    + rewrite Z.pow_add_r by lia. ring.
    + rewrite Pos2Z.inj_pow. change (Zpos 2) with 2.
      rewrite <- Z.mul_assoc, <- Z.pow_add_r by lia.
      do 2 f_equal. lia.
Qed.

Lemma signedQ_close s a b p :
  (Z.abs (a - b) * 1000000 <= Zpos p)%Z ->
  (Qabs (signedQ s (a # p) - signedQ s (b # p)) <= 1 # 1000000)%Q.
Proof.
  intros H. apply Qabs_Qle_condition.
  assert (Hab : ((a # p) - (b # p) == (a - b) # p)%Q).
  { unfold Qminus, Qplus, Qopp, Qeq. simpl. rewrite Pos2Z.inj_mul. ring. }
  destruct s; simpl.
  - assert (E : (- (a # p) - - (b # p) == - ((a # p) - (b # p)))%Q) by ring.
    rewrite E, Hab. unfold Qle. simpl. split; lia.
  - rewrite Hab. unfold Qle. simpl. split; lia.
Qed.

Lemma F2Q_close f f' :
  is_finite32 f = true -> is_finite32 f' = true -> sign_of f' = sign_of f ->
  Z.abs (units f' - units f) * 10 ^ 6 <= 2 ^ 149 ->
  (Qabs (F2Q f' - F2Q f) <= 1 # 1000000)%Q.
Proof.
  intros Hf Hf' Hs Hu.
  rewrite (F2Q_units f Hf), (F2Q_units f' Hf'), Hs.
  apply signedQ_close. exact Hu.
Qed.

(** ** Strings *)

Lemma append_cons c s t : String c s +:+ t = String c (s +:+ t).
Proof. reflexivity. Qed.

Lemma append_nil_l s : EmptyString +:+ s = s.
Proof. reflexivity. Qed.

Lemma append_nil_r s : s +:+ EmptyString = s.
Proof. induction s as [|c s IH]; [reflexivity|]. by rewrite append_cons, IH. Qed.

Lemma append_assoc s1 s2 s3 : (s1 +:+ s2) +:+ s3 = s1 +:+ (s2 +:+ s3).
Proof. induction s1 as [|c s1 IH]; [reflexivity|]. by rewrite !append_cons, IH. Qed.

Lemma length_append s1 s2 :
  String.length (s1 +:+ s2) = (String.length s1 + String.length s2)%nat.
Proof. induction s1 as [|c s1 IH]; [reflexivity|]. rewrite append_cons. cbn. by rewrite IH. Qed.

Lemma string_forall_append P s1 s2 :
  string_forall P (s1 +:+ s2) = string_forall P s1 && string_forall P s2.
Proof.
  induction s1 as [|c s1 IH]; [reflexivity|]. rewrite append_cons. cbn.
  rewrite IH. by rewrite andb_assoc.
Qed.

Lemma string_forall_impl (P Q : ascii -> bool) s :
  (forall c, P c = true -> Q c = true) ->
  string_forall P s = true -> string_forall Q s = true.
Proof.
  intros HPQ. induction s as [|c s IH]; [done|]. cbn.
  rewrite !andb_true_iff. intros [Hc Hs]. auto.
Qed.

Lemma all_digits_forall s : all_digits s = string_forall is_digit s.
Proof. induction s as [|c s IH]; [reflexivity|]. cbn. by rewrite IH. Qed.

Lemma rev_app_append s1 s2 : String.rev_app s1 s2 = String.rev s1 +:+ s2.
Proof.
  unfold String.rev. revert s2.
  induction s1 as [|c s1 IH]; intros s2; [reflexivity|]. cbn.
  rewrite (IH (String c s2)), (IH (String c EmptyString)), append_assoc. reflexivity.
Qed.

Lemma rev_cons c s : String.rev (String c s) = String.rev s +:+ String c EmptyString.
Proof. unfold String.rev at 1. cbn. apply rev_app_append. Qed.

Lemma rev_append s1 s2 : String.rev (s1 +:+ s2) = String.rev s2 +:+ String.rev s1.
Proof.
  induction s1 as [|c s1 IH].
  - rewrite append_nil_l. change (String.rev EmptyString) with EmptyString.
    by rewrite append_nil_r.
  - rewrite append_cons, !rev_cons, IH, append_assoc. reflexivity.
Qed.

Lemma rev_involutive s : String.rev (String.rev s) = s.
Proof.
  induction s as [|c s IH]; [reflexivity|].
  rewrite rev_cons, rev_append, IH. reflexivity.
Qed.

Lemma string_forall_rev P s : string_forall P (String.rev s) = string_forall P s.
Proof.
  induction s as [|c s IH]; [reflexivity|].
  rewrite rev_cons, string_forall_append, IH. cbn.
  rewrite andb_true_r. apply andb_comm.
Qed.

Lemma length_rev s : String.length (String.rev s) = String.length s.
Proof.
  induction s as [|c s IH]; [reflexivity|].
  rewrite rev_cons, length_append, IH. cbn. lia.
Qed.

(** ** Bytes of a token *)

Lemma plain_not_comma c : is_plain c = true -> Ascii.eqb c "," = false.
Proof. by_bits c. Qed.

Lemma plain_not_bracket c : is_plain c = true -> GoStrings.contains_byte "[]" c = false.
Proof. by_bits c. Qed.

Lemma plain_not_x c : is_plain c = true -> Ascii.eqb (lower c) "x" = false.
Proof. by_bits c. Qed.

Lemma digit_is_plain c : is_digit c = true -> is_plain c = true.
Proof. by_bits c. Qed.

Lemma plain_space_prefix c s :
  is_plain c = true -> GoStrings.space_prefix (String c s) = None.
Proof.
  intros Hc. destruct s as [|c2 [|c3 s]]; revert Hc; by_bits c.
Qed.

Lemma plain_space_suffix c s :
  is_plain c = true -> GoStrings.space_suffix (String c s) = None.
Proof.
  intros Hc. destruct s as [|c2 [|c3 s]]; revert Hc; by_bits c;
    intros _; cbn; rewrite ?andb_false_r; reflexivity.
Qed.

(** ** [Trim], [Split], [Join] and [TrimSpace] on tokens *)

Lemma trimRightASCII_append_cut s c cutset :
  GoStrings.contains_byte cutset c = true ->
  GoStrings.trimRightASCII (s +:+ String c EmptyString) cutset
  = GoStrings.trimRightASCII s cutset.
Proof.
  intros Hc. induction s as [|a s IH].
  - rewrite append_nil_l. cbn. by rewrite Hc.
  - rewrite append_cons. cbn. by rewrite IH.
Qed.

Lemma trimRightASCII_id s cutset :
  string_forall (fun c => negb (GoStrings.contains_byte cutset c)) s = true ->
  GoStrings.trimRightASCII s cutset = s.
Proof.
  induction s as [|a s IH]; [done|]. cbn.
  rewrite andb_true_iff, negb_true_iff. intros [Ha Hs].
  rewrite (IH Hs), Ha. by destruct s.
Qed.

Lemma trimLeftASCII_id s cutset :
  string_forall (fun c => negb (GoStrings.contains_byte cutset c)) s = true ->
  GoStrings.trimLeftASCII s cutset = s.
Proof.
  destruct s as [|a s]; [done|]. cbn.
  rewrite andb_true_iff, negb_true_iff. by intros [-> _].
Qed.

(** The interior of a bracketed string that has no bracket inside. *)
Lemma Trim_bracketed body :
  string_forall (fun c => negb (GoStrings.contains_byte "[]" c)) body = true ->
  GoStrings.Trim ("[" +:+ body +:+ "]") "[]" = body.
Proof.
  intros Hb. unfold GoStrings.Trim.
  rewrite <- append_assoc.
  rewrite trimRightASCII_append_cut by reflexivity.
  rewrite append_cons, append_nil_l.
  change (GoStrings.trimRightASCII (String "[" body) "[]")
    with (match GoStrings.trimRightASCII body "[]" with
          | EmptyString => EmptyString
          | r => String "[" r
          end).
  rewrite trimRightASCII_id by done.
  destruct body as [|a s]; [reflexivity|].
  change (GoStrings.trimLeftASCII (String "[" (String a s)) "[]")
    with (GoStrings.trimLeftASCII (String a s) "[]").
  by apply trimLeftASCII_id.
Qed.

Lemma Split_no_comma s : no_comma s = true -> GoStrings.Split s "," = [s].
Proof.
  unfold no_comma. induction s as [|a s IH]; [done|]. cbn.
  rewrite andb_true_iff, negb_true_iff. intros [Ha Hs]. by rewrite Ha, (IH Hs).
Qed.

Lemma Split_append s rest :
  no_comma s = true ->
  GoStrings.Split (s +:+ "," +:+ rest) "," = s :: GoStrings.Split rest ",".
Proof.
  unfold no_comma. induction s as [|a s IH].
  - intros _. reflexivity.
  - cbn. rewrite andb_true_iff, negb_true_iff. intros [Ha Hs].
    rewrite append_cons. cbn. by rewrite Ha, (IH Hs).
Qed.

Lemma Split_Join tokens :
  tokens <> [] -> Forall (fun t => no_comma t = true) tokens ->
  GoStrings.Split (GoStrings.Join tokens ",") "," = tokens.
Proof.
  induction tokens as [|t [|t' rest] IH]; [done|..]; intros _ Hall.
  - cbn. apply Split_no_comma. by inversion Hall.
  - change (GoStrings.Join (t :: t' :: rest) ",")
      with (t +:+ "," +:+ GoStrings.Join (t' :: rest) ",").
    inversion Hall as [|? ? Ht Hrest]; subst.
    rewrite Split_append by done. f_equal. by apply IH.
Qed.

Lemma Split_length s : length (GoStrings.Split s ",") = S (count_commas s).
Proof.
  induction s as [|a s IH]; [reflexivity|]. cbn.
  destruct (Ascii.eqb a ","); cbn.
  - by rewrite IH.
  - destruct (GoStrings.Split s ","); cbn in *; lia.
Qed.

Lemma string_forall_Join (P : ascii -> bool) tokens :
  P ","%char = true -> Forall (fun t => string_forall P t = true) tokens ->
  string_forall P (GoStrings.Join tokens ",") = true.
Proof.
  intros Hc. induction tokens as [|t [|t' rest] IH]; intros Hall; [done|..].
  - cbn. by inversion Hall.
  - change (GoStrings.Join (t :: t' :: rest) ",")
      with (t +:+ "," +:+ GoStrings.Join (t' :: rest) ",").
    inversion Hall as [|? ? Ht Hrest]; subst.
    rewrite !string_forall_append, Ht, IH by done. cbn. by rewrite Hc.
Qed.

Lemma trim_while_None strip fuel s :
  strip s = None -> GoStrings.trim_while strip fuel s = s.
Proof. intros H. destruct fuel; [done|]. cbn. by rewrite H. Qed.

(** A token of plain bytes has no white space to trim. *)
Lemma TrimSpace_plain s :
  string_forall is_plain s = true -> GoStrings.TrimSpace s = s.
Proof.
  intros Hs. unfold GoStrings.TrimSpace.
  assert (Hl : GoStrings.trim_while GoStrings.space_prefix (String.length s) s = s).
  { destruct s as [|c s]; [reflexivity|].
    apply trim_while_None, plain_space_prefix.
    cbn in Hs. by apply andb_true_iff in Hs as [-> _]. }
  rewrite Hl.
  assert (Hr : string_forall is_plain (String.rev s) = true)
    by (by rewrite string_forall_rev).
  rewrite trim_while_None; [apply rev_involutive|].
  destruct (String.rev s) as [|c r]; [reflexivity|].
  apply plain_space_suffix.
  cbn in Hr. by apply andb_true_iff in Hr as [-> _].
Qed.

(** ** Decimal digits *)

Lemma digit_char_spec d :
  (d < 10)%N ->
  is_digit (digit_char d) = true /\ digit_val (digit_char d) = d /\
  Ascii.eqb (digit_char d) "0" = (d =? 0)%N.
Proof.
  intros Hd.
  assert (H : (d = 0 \/ d = 1 \/ d = 2 \/ d = 3 \/ d = 4 \/ d = 5 \/ d = 6 \/ d = 7 \/
               d = 8 \/ d = 9)%N) by lia.
  repeat (destruct H as [-> | H]; [vm_compute; done|]). subst d. vm_compute. done.
Qed.

Lemma mod10_lt n : (n mod 10 < 10)%N.
Proof. apply N.mod_lt. discriminate. Qed.

Lemma digits_value_append s1 s2 a :
  digits_value (s1 +:+ s2) a = digits_value s2 (digits_value s1 a).
Proof.
  revert a. induction s1 as [|c s1 IH]; intros a; [reflexivity|].
  rewrite append_cons. cbn. apply IH.
Qed.

Lemma digits_value_digit d s a :
  (d < 10)%N ->
  digits_value (String (digit_char d) s) a = digits_value s (a * 10 + Z.of_N d).
Proof.
  intros Hd. destruct (digit_char_spec d Hd) as (Hdig & Hval & _).
  cbn. by rewrite Hdig, Hval.
Qed.

Lemma formatBits_append fuel n acc :
  formatBits fuel n acc = formatBits fuel n EmptyString +:+ acc.
Proof.
  revert n acc. induction fuel as [|fuel IH]; intros n acc; [reflexivity|].
  cbn. destruct (n / 10 =? 0)%N; [reflexivity|].
  rewrite IH, (IH _ (String _ EmptyString)), append_assoc. reflexivity.
Qed.

Lemma formatBits_digits fuel n acc :
  all_digits acc = true -> all_digits (formatBits fuel n acc) = true.
Proof.
  revert n acc. induction fuel as [|fuel IH]; intros n acc Hacc.
  - cbn. destruct (digit_char_spec _ (mod10_lt n)) as [-> _]. done.
  - assert (Hs : all_digits (String (digit_char (n mod 10)) acc) = true).
    { cbn. destruct (digit_char_spec _ (mod10_lt n)) as [-> _]. done. }
    cbn. destruct (n / 10 =? 0)%N; [done|]. by apply IH.
Qed.

Lemma formatBits_value fuel n acc :
  (n < 2 ^ N.of_nat (S fuel))%N ->
  digits_value (formatBits fuel n acc) 0 = digits_value acc (Z.of_N n).
Proof.
  revert n acc. induction fuel as [|fuel IH]; intros n acc Hn.
  - cbn [formatBits]. rewrite digits_value_digit by apply mod10_lt.
    change (2 ^ N.of_nat 1)%N with 2%N in Hn.
    rewrite N.mod_small by lia. f_equal.
  - cbn [formatBits].
    pose proof (N.div_mod' n 10) as Hdm. pose proof (mod10_lt n) as Hm.
    destruct (N.eqb_spec (n / 10) 0) as [Hz|Hnz].
    + rewrite digits_value_digit by done. f_equal. lia.
    + rewrite IH.
      * rewrite digits_value_digit by done. f_equal. lia.
      * rewrite Nat2N.inj_succ, N.pow_succ_r' in Hn.
        assert (n / 10 <= n / 2)%N.
        { apply N.div_le_compat_l. lia. }
        assert (n / 2 < 2 ^ N.of_nat (S fuel))%N; [|lia].
        apply N.Div0.div_lt_upper_bound. lia.
Qed.

Lemma FormatUint_digits n : all_digits (FormatUint n) = true.
Proof. by apply formatBits_digits. Qed.

Lemma FormatUint_value n : digits_value (FormatUint n) 0 = Z.of_N n.
Proof.
  unfold FormatUint. rewrite formatBits_value; [reflexivity|].
  rewrite Nat2N.inj_succ, N2Nat.id.
  destruct n as [|p]; [reflexivity|].
  apply N.log2_spec. lia.
Qed.

Lemma FormatUint_head n :
  exists c r, FormatUint n = String c r /\ is_digit c = true.
Proof.
  assert (Hne : exists c r, FormatUint n = String c r).
  { unfold FormatUint. generalize (N.to_nat (N.log2 n)). intros fuel.
    rewrite formatBits_append.
    revert n. induction fuel as [|fuel IH]; intros n; cbn; [eauto|].
    destruct (n / 10 =? 0)%N; [eauto|].
    rewrite formatBits_append. destruct (IH (n / 10)%N) as (c & r & E).
    rewrite append_nil_r in E. rewrite E. eauto. }
  destruct Hne as (c & r & E). exists c, r. split; [done|].
  pose proof (FormatUint_digits n) as Hd.
  rewrite E in Hd. cbn in Hd. by apply andb_true_iff in Hd as [-> _].
Qed.

Lemma fixed_digits_append k n acc :
  fixed_digits k n acc = fixed_digits k n EmptyString +:+ acc.
Proof.
  revert n acc. induction k as [|k IH]; intros n acc; [reflexivity|]. cbn.
  rewrite IH, (IH _ (String _ EmptyString)), append_assoc. reflexivity.
Qed.

Lemma fixed_digits_length k n acc :
  String.length (fixed_digits k n acc) = (k + String.length acc)%nat.
Proof.
  revert n acc. induction k as [|k IH]; intros n acc; [reflexivity|]. cbn.
  rewrite IH. cbn. lia.
Qed.

Lemma fixed_digits_digits k n acc :
  all_digits acc = true -> all_digits (fixed_digits k n acc) = true.
Proof.
  revert n acc. induction k as [|k IH]; intros n acc Hacc; [done|]. cbn.
  apply IH. cbn. destruct (digit_char_spec _ (mod10_lt n)) as [-> _]. done.
Qed.

Lemma fixed_digits_value k n acc a :
  digits_value (fixed_digits k n acc) a
  = digits_value acc (a * 10 ^ Z.of_nat k + Z.of_N n mod 10 ^ Z.of_nat k).
Proof.
  revert n acc a. induction k as [|k IH]; intros n acc a.
  - cbn. rewrite Z.mod_1_r. f_equal. lia.
  - cbn [fixed_digits]. rewrite IH, digits_value_digit by apply mod10_lt.
    f_equal. rewrite Nat2Z.inj_succ, Z.pow_succ_r by lia.
    rewrite N2Z.inj_mod, N2Z.inj_div. change (Z.of_N 10) with 10.
    assert (0 < 10 ^ Z.of_nat k) by (apply Z.pow_pos_nonneg; lia).
    rewrite (Z.rem_mul_r (Z.of_N n) 10 (10 ^ Z.of_nat k)) by lia. ring.
Qed.

(** ** Reading a [%f] token *)

Lemma readDigits_digit c s st :
  is_digit c = true ->
  readDigits false (String c s) st = readDigits false s (feed st c).
Proof.
  by_bits c; intros _; unfold feed; cbn; destruct (nd st =? 0); reflexivity.
Qed.

Lemma readDigits_dot s st :
  sawdot st = false ->
  readDigits false (String "." s) st
  = readDigits false s
      (mkDigits (mantissa st) (nd st) (nd st) true (sawdigits st) (underscores st)).
Proof. intros H. cbn. by rewrite H. Qed.

Lemma readDigits_nil hex st : readDigits hex EmptyString st = (st, EmptyString).
Proof. reflexivity. Qed.

Lemma readDigits_digits ds rest st :
  all_digits ds = true ->
  readDigits false (ds +:+ rest) st = readDigits false rest (feed_all st ds).
Proof.
  revert st. induction ds as [|c ds IH]; intros st; [reflexivity|].
  cbn [all_digits]. rewrite andb_true_iff. intros [Hc Hds].
  rewrite append_cons, readDigits_digit by done. by apply IH.
Qed.

Lemma feed_spec c st :
  is_digit c = true -> digits_ok st ->
  digits_ok (feed st c) /\
  Z.of_N (mantissa (feed st c)) = Z.of_N (mantissa st) * 10 + Z.of_N (digit_val c) /\
  dp (feed st c) - nd (feed st c) = dp st - nd st - 1 /\
  sawdot (feed st c) = sawdot st /\ underscores (feed st c) = underscores st /\
  sawdigits (feed st c) = true.
Proof.
  intros Hc [Hnd Hz]. unfold feed, digits_ok.
  destruct (Ascii.eqb_spec c "0") as [->|Hne]; cbn [andb].
  - destruct (Z.eqb_spec (nd st) 0) as [H0|H0]; cbn.
    + rewrite (Hz H0). repeat split; try done; lia.
    + repeat split; try done; lia.
  - cbn. repeat split; try done; lia.
Qed.

Lemma feed_all_spec ds st :
  all_digits ds = true -> digits_ok st ->
  let st' := feed_all st ds in
  digits_ok st' /\
  Z.of_N (mantissa st') = digits_value ds (Z.of_N (mantissa st)) /\
  dp st' - nd st' = dp st - nd st - Z.of_nat (String.length ds) /\
  sawdot st' = sawdot st /\ underscores st' = underscores st /\
  (ds <> EmptyString -> sawdigits st' = true).
Proof.
  revert st. induction ds as [|c ds IH]; intros st.
  - intros _ Hok. cbn. repeat split; try done; try apply Hok. lia.
  - cbn [all_digits]. rewrite andb_true_iff. intros [Hc Hds] Hok.
    destruct (feed_spec c st Hc Hok) as (Hok1 & Hm1 & Hd1 & Hs1 & Hu1 & Hg1).
    destruct (IH (feed st c) Hds Hok1) as (Hok2 & Hm2 & Hd2 & Hs2 & Hu2 & Hg2).
    cbn [feed_all digits_value String.length]. rewrite Hc.
    repeat split; try apply Hok2.
    + by rewrite Hm2, Hm1.
    + lia.
    + congruence.
    + congruence.
    + intros _. destruct ds as [|c' ds']; [exact Hg1|]. by apply Hg2.
Qed.

Lemma basePrefix_plain s :
  string_forall is_plain s = true -> basePrefix s = (false, s).
Proof.
  destruct s as [|z [|x [|c r]]]; try reflexivity.
  cbn. rewrite !andb_true_iff. intros (_ & Hx & _).
  unfold basePrefix. by rewrite (plain_not_x x Hx), andb_false_r.
Qed.

Lemma token_body_plain i f : string_forall is_plain (token_body i f) = true.
Proof.
  unfold token_body. rewrite string_forall_append. cbn [string_forall].
  rewrite andb_true_iff. split; [|apply andb_true_iff; split; [reflexivity|]].
  - apply (string_forall_impl is_digit); [apply digit_is_plain|].
    rewrite <- all_digits_forall. apply FormatUint_digits.
  - apply (string_forall_impl is_digit); [apply digit_is_plain|].
    rewrite <- all_digits_forall. by apply fixed_digits_digits.
Qed.

Lemma readDigits_token_body i f :
  (f < 1000000)%N ->
  exists st,
    readDigits false (token_body i f) (mkDigits 0 0 0 false false false) = (st, EmptyString) /\
    mantissa st = (i * 1000000 + f)%N /\ dp st - nd st = -6 /\
    sawdot st = true /\ sawdigits st = true /\ underscores st = false.
Proof.
  intros Hf. unfold token_body.
  set (st0 := mkDigits 0 0 0 false false false).
  assert (Hok0 : digits_ok st0) by (split; [cbn; lia|done]).
  rewrite readDigits_digits by apply FormatUint_digits.
  destruct (feed_all_spec (FormatUint i) st0 (FormatUint_digits i) Hok0)
    as (Hok1 & Hm1 & _ & Hs1 & Hu1 & Hg1).
  set (st1 := feed_all st0 (FormatUint i)) in *.
  assert (Hne : FormatUint i <> EmptyString)
    by (destruct (FormatUint_head i) as (c & r & -> & _); done).
  specialize (Hg1 Hne).
  set (st2 := mkDigits (mantissa st1) (nd st1) (nd st1) true (sawdigits st1) (underscores st1)).
  rewrite readDigits_dot by (by rewrite Hs1). fold st2.
  assert (Hok2 : digits_ok st2) by exact Hok1.
  assert (Hfd : all_digits (fixed_digits 6 f EmptyString) = true)
    by (by apply fixed_digits_digits).
  rewrite <- (append_nil_r (fixed_digits 6 f EmptyString)).
  rewrite readDigits_digits by done.
  destruct (feed_all_spec _ st2 Hfd Hok2) as (Hok3 & Hm3 & Hd3 & Hs3 & Hu3 & Hg3).
  exists (feed_all st2 (fixed_digits 6 f EmptyString)).
  split; [apply readDigits_nil|].
  rewrite fixed_digits_length in Hd3.
  change (Z.of_nat (6 + String.length EmptyString)) with 6 in Hd3.
  change (dp st2) with (nd st1) in Hd3. change (nd st2) with (nd st1) in Hd3.
  change (sawdot st2) with true in Hs3.
  change (underscores st2) with (underscores st1) in Hu3.
  change (underscores st0) with false in Hu1.
  rewrite fixed_digits_value in Hm3.
  change (mantissa st2) with (mantissa st1) in Hm3.
  change (digits_value EmptyString ?x) with x in Hm3.
  rewrite Hm1, FormatUint_value in Hm3.
  repeat split.
  - apply N2Z.inj. rewrite Hm3, N2Z.inj_add, N2Z.inj_mul.
    change (Z.of_nat 6) with 6. change (10 ^ 6) with 1000000.
    change (Z.of_N 1000000) with 1000000.
    rewrite Z.mod_small by lia. reflexivity.
  - lia.
  - done.
  - apply Hg3. pose proof (fixed_digits_length 6 f EmptyString) as Hl.
    destruct (fixed_digits 6 f EmptyString); [discriminate|done].
  - by rewrite Hu3, Hu1.
Qed.

Lemma token_body_head i f :
  exists c r, token_body i f = String c r /\ is_digit c = true.
Proof.
  unfold token_body. destruct (FormatUint_head i) as (c & r & -> & Hc).
  rewrite append_cons. eauto.
Qed.

Lemma fmtF_token neg n :
  fmtF neg n = sign_string neg +:+ token_body (n / 1000000) (n mod 1000000).
Proof. reflexivity. Qed.

Lemma readNumber_token s neg i f :
  (f < 1000000)%N ->
  readNumber s neg (token_body i f)
  = Some (mkLiteral (i * 1000000 + f)
            (if (i * 1000000 + f =? 0)%N then 0 else -6) neg false EmptyString).
Proof.
  intros Hf. unfold readNumber.
  rewrite basePrefix_plain by apply token_body_plain.
  destruct (readDigits_token_body i f Hf) as (st & -> & Hm & Hd & Hs & Hg & Hu).
  rewrite Hg, Hs. cbn [negb]. unfold finishFloat. rewrite Hu, Hm, Hd.
  reflexivity.
Qed.

Lemma readFloat_minus body :
  readFloat (String "-" body) = readNumber (String "-" body) true body.
Proof. reflexivity. Qed.

Lemma readFloat_digit c r :
  is_digit c = true -> readFloat (String c r) = readNumber (String c r) false (String c r).
Proof. by_bits c. Qed.

Lemma special_minus c r : is_digit c = true -> special (String "-" (String c r)) = None.
Proof. by_bits c. Qed.

Lemma special_digit c r : is_digit c = true -> special (String c r) = None.
Proof. by_bits c. Qed.

Lemma readFloat_token neg n :
  readFloat (fmtF neg n)
  = Some (mkLiteral n (if (n =? 0)%N then 0 else -6) neg false EmptyString).
Proof.
  rewrite fmtF_token.
  assert (Hf : (n mod 1000000 < 1000000)%N) by (apply N.mod_lt; discriminate).
  assert (Hn : (n / 1000000 * 1000000 + n mod 1000000 = n)%N).
  { rewrite (N.div_mod' n 1000000) at 3. lia. }
  destruct neg.
  - change (sign_string true +:+ ?b) with (String "-" b).
    rewrite readFloat_minus, readNumber_token by done. by rewrite Hn.
  - change (sign_string false +:+ ?b) with b.
    destruct (token_body_head (n / 1000000) (n mod 1000000)) as (c & r & E & Hc).
    rewrite E, readFloat_digit by done. rewrite <- E.
    rewrite readNumber_token by done. by rewrite Hn.
Qed.

Lemma special_token neg n : special (fmtF neg n) = None.
Proof.
  rewrite fmtF_token.
  destruct (token_body_head (n / 1000000) (n mod 1000000)) as (c & r & -> & Hc).
  destruct neg.
  - by apply special_minus.
  - by apply special_digit.
Qed.

Lemma round32_zero neg d : round32 neg 0 d = (S754_zero neg, false).
Proof. reflexivity. Qed.

Lemma convert32_token neg n :
  convert32 (mkLiteral n (if (n =? 0)%N then 0 else -6) neg false EmptyString)
  = round32 neg (Z.of_N n) 1000000.
Proof.
  destruct (N.eqb_spec n 0) as [->|Hn].
  - unfold convert32. cbn [lit_exp lit_hex lit_neg lit_mantissa].
    change (Z.of_N 0 * 10 ^ 0) with 0. change (Z.of_N 0) with 0.
    by rewrite !round32_zero.
  - reflexivity.
Qed.

(** Reading a [%f] token back: the correctly rounded value of its digits. *)
Lemma ParseFloat_token neg n :
  ParseFloat (fmtF neg n)
  = let '(f, overflow) := round32 neg (Z.of_N n) 1000000 in
    (f, if overflow then Some ErrRange else None).
Proof.
  unfold ParseFloat, atof32.
  rewrite special_token, readFloat_token, convert32_token.
  destruct (round32 neg (Z.of_N n) 1000000) as [f [|]]; reflexivity.
Qed.

(** ** [Sprintf] on a finite float *)

Lemma fmtFloat_digit c r : is_digit c = true -> GoFmt.fmtFloat (String c r) = String c r.
Proof. by_bits c. Qed.

Lemma fmtFloat_minus c r :
  is_digit c = true -> GoFmt.fmtFloat (String "-" (String c r)) = String "-" (String c r).
Proof. by_bits c. Qed.

Lemma fmtFloat_token neg n : GoFmt.fmtFloat (fmtF neg n) = fmtF neg n.
Proof.
  rewrite fmtF_token.
  destruct (token_body_head (n / 1000000) (n mod 1000000)) as (c & r & -> & Hc).
  destruct neg.
  - by apply fmtFloat_minus.
  - by apply fmtFloat_digit.
Qed.

Lemma Sprintf_f_finite f :
  is_finite32 f = true -> GoFmt.Sprintf_f f = fmtF (sign_of f) (millis f).
Proof.
  unfold GoFmt.Sprintf_f.
  destruct f as [s|s| |s m e]; try discriminate; intros _; apply fmtFloat_token.
Qed.

Lemma fmtF_plain neg n : string_forall is_plain (fmtF neg n) = true.
Proof.
  rewrite fmtF_token, string_forall_append, token_body_plain.
  by destruct neg.
Qed.

(** A finite float survives [Sprintf] and [ParseFloat] up to a millionth. *)
Lemma millis_near f :
  is_finite32 f = true ->
  2 * Z.abs (units f * 10 ^ 6 - Z.of_N (millis f) * 2 ^ 149) <= 2 ^ 149.
Proof.
  destruct f as [s|s| |s m e]; intros Hf; try discriminate Hf.
  - cbn [units millis]. change (Z.of_N 0) with 0.
    rewrite !Z.mul_0_l. discriminate.
  - cbn [units millis]. apply millionths_near. exact Hf.
Qed.

Lemma ParseFloat_Sprintf f :
  is_finite32 f = true ->
  exists f', ParseFloat (GoFmt.Sprintf_f f) = (f', None) /\
             is_finite32 f' = true /\
             (Qabs (F2Q f' - F2Q f) <= 1 # 1000000)%Q.
Proof.
  intros Hf. rewrite Sprintf_f_finite by exact Hf. rewrite ParseFloat_token.
  assert (H0 : 0 <= Z.of_N (millis f)) by apply N2Z.is_nonneg.
  destruct (round32_millionths (sign_of f) f (Z.of_N (millis f)) Hf H0 (millis_near f Hf))
    as (f' & -> & Hfin & Hsign & Hclose).
  exists f'. split; [done|]. split; [done|]. by apply F2Q_close.
Qed.

(** ** The loops of the codec *)

Lemma store_middle {A} (filled : list A) (old x : A) (rest : list A) :
  store (filled ++ old :: rest) (length filled) x = Some ((filled ++ [x]) ++ rest).
Proof.
  unfold store. rewrite decide_True.
  - f_equal. rewrite <- (Nat.add_0_r (length filled)), insert_app_r.
    by rewrite <- app_assoc.
  - rewrite length_app. cbn. lia.
Qed.

Lemma vectorToString_loop_spec vs filled rest :
  length rest = length vs ->
  vectorToString_loop (length filled) vs (filled ++ rest)
  = Some (filled ++ (GoFmt.Sprintf_f <$> vs)).
Proof.
  revert filled rest. induction vs as [|v vs IH]; intros filled rest Hlen.
  - destruct rest; [|done]. cbn. by rewrite !app_nil_r.
  - destruct rest as [|old rest]; [done|]. cbn [vectorToString_loop].
    rewrite store_middle. cbn [mbind option_bind].
    replace (S (length filled)) with (length (filled ++ [GoFmt.Sprintf_f v]))
      by (rewrite length_app; cbn; lia).
    rewrite IH by (cbn in Hlen; lia).
    by rewrite <- app_assoc.
Qed.

(** [vectorToString] never panics: it is the bracketed join of the tokens. *)
Lemma vectorToString_eq v :
  vectorToString v
  = Some ("[" +:+ GoStrings.Join (GoFmt.Sprintf_f <$> v) "," +:+ "]").
Proof.
  unfold vectorToString.
  pose proof (vectorToString_loop_spec v [] (replicate (length v) EmptyString)
                (length_replicate _ _)) as E.
  cbn [length app] in E. by rewrite E.
Qed.

Lemma parseVectorString_loop_spec parts filled n :
  n = length parts ->
  parseVectorString_loop (length filled) parts (filled ++ replicate n (S754_zero false))
  = Some (filled ++ (decode_token <$> parts)).
Proof.
  revert filled n. induction parts as [|part parts IH]; intros filled n ->.
  - cbn. by rewrite !app_nil_r.
  - cbn [parseVectorString_loop length replicate fmap list_fmap].
    assert (Hd : decode_token part
                 = match ParseFloat (GoStrings.TrimSpace part) with
                   | (val, None) => val
                   | (_, Some _) => S754_zero false
                   end) by reflexivity.
    revert Hd. destruct (ParseFloat (GoStrings.TrimSpace part)) as [val [err|]]; intros ->.
    + replace (filled ++ S754_zero false :: replicate (length parts) (S754_zero false))
        with ((filled ++ [S754_zero false]) ++ replicate (length parts) (S754_zero false))
        by (rewrite <- app_assoc; reflexivity).
      replace (S (length filled)) with (length (filled ++ [S754_zero false]))
        by (rewrite length_app; cbn; lia).
      rewrite IH by done. by rewrite <- app_assoc.
    + rewrite store_middle. cbn [mbind option_bind].
      replace (S (length filled)) with (length (filled ++ [val]))
        by (rewrite length_app; cbn; lia).
      rewrite IH by done. by rewrite <- app_assoc.
Qed.

(** [parseVectorString] never panics and computes [decode]. *)
Lemma parseVectorString_decode s : parseVectorString s = Some (decode s).
Proof.
  unfold parseVectorString, decode.
  destruct (decide (GoStrings.Trim s "[]" = EmptyString)); [done|].
  pose proof (parseVectorString_loop_spec (GoStrings.Split (GoStrings.Trim s "[]") ",")
                [] _ eq_refl) as E.
  cbn [length app] in E. exact E.
Qed.

Lemma decode_length s : length (decode s) = segments (GoStrings.Trim s "[]").
Proof.
  unfold decode, segments.
  destruct (decide (GoStrings.Trim s "[]" = EmptyString)); [done|].
  by rewrite length_fmap, Split_length.
Qed.

(** ** Encoding finite vectors *)

Lemma Sprintf_tokens v :
  Forall (fun f => is_finite32 f = true) v ->
  GoFmt.Sprintf_f <$> v = token_of <$> v.
Proof.
  induction 1 as [|f v Hf _ IH]; [done|]. cbn.
  by rewrite IH, Sprintf_f_finite.
Qed.

Lemma plain_no_comma s : string_forall is_plain s = true -> no_comma s = true.
Proof.
  apply string_forall_impl. intros c Hc. cbn beta. by rewrite plain_not_comma.
Qed.

Lemma tokens_no_bracket v :
  string_forall (fun c => negb (GoStrings.contains_byte "[]" c))
    (GoStrings.Join (token_of <$> v) ",") = true.
Proof.
  apply string_forall_Join; [reflexivity|].
  apply Forall_fmap, Forall_forall. intros f _. cbn beta. unfold compose.
  eapply string_forall_impl; [|apply fmtF_plain].
  intros c Hc. cbn beta. by rewrite plain_not_bracket.
Qed.

Lemma Join_nonempty t tokens :
  t <> EmptyString -> GoStrings.Join (t :: tokens) "," <> EmptyString.
Proof.
  intros Ht. destruct tokens; cbn; [done|].
  destruct t; [done|]. by rewrite append_cons.
Qed.

Lemma token_nonempty f : token_of f <> EmptyString.
Proof.
  unfold token_of. rewrite fmtF_token.
  destruct (token_body_head (millis f / 1000000) (millis f mod 1000000)) as (c & r & -> & _).
  by destruct (sign_of f).
Qed.

(** A token reads back as a finite float within a millionth. *)
Lemma decode_token_of f :
  is_finite32 f = true ->
  is_finite32 (decode_token (token_of f)) = true /\
  (Qabs (F2Q (decode_token (token_of f)) - F2Q f) <= 1 # 1000000)%Q.
Proof.
  intros Hf. unfold decode_token, token_of.
  rewrite TrimSpace_plain by apply fmtF_plain.
  destruct (ParseFloat_Sprintf f Hf) as (f' & E & Hfin & Hclose).
  rewrite Sprintf_f_finite in E by done. by rewrite E.
Qed.

(** The text of a finite vector decodes token by token. *)
Lemma decode_tokens v :
  decode ("[" +:+ GoStrings.Join (token_of <$> v) "," +:+ "]")
  = decode_token <$> (token_of <$> v).
Proof.
  unfold decode. rewrite Trim_bracketed by apply tokens_no_bracket.
  destruct v as [|f v]; [reflexivity|].
  rewrite decide_False by (apply Join_nonempty, token_nonempty).
  rewrite Split_Join; [done|done|].
  apply Forall_fmap, Forall_forall. intros g _. cbn beta. unfold compose.
  apply plain_no_comma, fmtF_plain.
Qed.

(** ** The shape and the value of a token *)

Lemma is_fixed_point_body_digits ds frac seen :
  all_digits ds = true ->
  is_fixed_point_body (ds +:+ String "." frac) seen
  = (seen || negb (String.eqb ds EmptyString)) &&
    (String.length frac =? 6)%nat && all_digits frac.
Proof.
  revert seen. induction ds as [|c ds IH]; intros seen.
  - intros _. rewrite append_nil_l. cbn. by rewrite orb_false_r.
  - cbn [all_digits]. rewrite andb_true_iff. intros [Hc Hds].
    rewrite append_cons. cbn [is_fixed_point_body].
    assert (Hdot : Ascii.eqb c "." = false) by (revert Hc; by_bits c).
    rewrite Hdot, Hc, (IH true Hds). cbn. by rewrite orb_true_r.
Qed.

Lemma token_body_fixed_point i f seen :
  is_fixed_point_body (token_body i f) seen = true.
Proof.
  unfold token_body. rewrite is_fixed_point_body_digits by apply FormatUint_digits.
  rewrite fixed_digits_length, fixed_digits_digits by done.
  destruct (FormatUint_head i) as (c & r & -> & _). cbn. by rewrite orb_true_r.
Qed.

Lemma is_fixed_point6_minus s :
  is_fixed_point6 (String "-" s) = is_fixed_point_body s false.
Proof. reflexivity. Qed.

Lemma is_fixed_point6_digit c s :
  is_digit c = true -> is_fixed_point6 (String c s) = is_fixed_point_body (String c s) false.
Proof. by_bits c. Qed.

Lemma fmtF_fixed_point neg n : is_fixed_point6 (fmtF neg n) = true.
Proof.
  rewrite fmtF_token. destruct neg.
  - change (sign_string true +:+ ?b) with (String "-" b).
    rewrite is_fixed_point6_minus. apply token_body_fixed_point.
  - change (sign_string false +:+ ?b) with b.
    destruct (token_body_head (n / 1000000) (n mod 1000000)) as (c & r & E & Hc).
    rewrite E, is_fixed_point6_digit by done. rewrite <- E.
    apply token_body_fixed_point.
Qed.

Lemma digits_value_dot s a : digits_value (String "." s) a = digits_value s a.
Proof. reflexivity. Qed.

Lemma token_body_value i f :
  (f < 1000000)%N -> digits_value (token_body i f) 0 = Z.of_N i * 1000000 + Z.of_N f.
Proof.
  intros Hf. unfold token_body.
  rewrite digits_value_append, FormatUint_value, digits_value_dot, fixed_digits_value.
  change (digits_value EmptyString ?x) with x.
  change (10 ^ Z.of_nat 6) with 1000000.
  rewrite Z.mod_small by lia. reflexivity.
Qed.

Lemma token_millionths_minus s : token_millionths (String "-" s) = - digits_value s 0.
Proof. reflexivity. Qed.

Lemma token_millionths_digit c s :
  is_digit c = true -> token_millionths (String c s) = digits_value (String c s) 0.
Proof. by_bits c. Qed.

Lemma fmtF_millionths neg n :
  token_millionths (fmtF neg n) = if neg then - Z.of_N n else Z.of_N n.
Proof.
  rewrite fmtF_token.
  assert (Hf : (n mod 1000000 < 1000000)%N) by (apply N.mod_lt; discriminate).
  assert (Hn : Z.of_N (n / 1000000) * 1000000 + Z.of_N (n mod 1000000) = Z.of_N n).
  { rewrite (N.div_mod' n 1000000) at 3. lia. }
  destruct neg.
  - change (sign_string true +:+ ?b) with (String "-" b).
    rewrite token_millionths_minus, token_body_value by done. by rewrite Hn.
  - change (sign_string false +:+ ?b) with b.
    destruct (token_body_head (n / 1000000) (n mod 1000000)) as (c & r & E & Hc).
    rewrite E, token_millionths_digit by done. rewrite <- E.
    rewrite token_body_value by done. by rewrite Hn.
Qed.

Lemma token_value_close f :
  is_finite32 f = true ->
  (Qabs (token_value (token_of f) - F2Q f) <= 1 # 2000000)%Q.
Proof.
  intros Hf. pose proof (millis_near f Hf) as Hnear.
  rewrite (F2Q_units f Hf). unfold token_value, token_of.
  rewrite fmtF_millionths.
  set (n := Z.of_N (millis f)) in *. set (u := units f) in *.
  change (10 ^ 6) with 1000000 in Hnear.
  change (2 ^ 149) with 713623846352979940529142984724747568191373312 in Hnear.
  apply Qabs_Qle_condition.
  destruct (sign_of f); unfold signedQ, Qminus, Qplus, Qopp, Qle; cbn [Qnum Qden];
    rewrite ?Pos2Z.inj_mul; split; lia.
Qed.

(** * The vector codec *)

(** C1.  For every vector of finite 32-bit floats, [vectorToString] returns
    a text, [parseVectorString] returns a vector from that text, the vector
    has the length of the original, and each of its components is a finite
    float within [1e-6] of the corresponding original component. *)
Theorem decode_encode_within_tolerance (v : list float32) :
  Forall (fun f => is_finite32 f = true) v ->
  exists text decoded,
    vectorToString v = Some text /\
    parseVectorString text = Some decoded /\
    length decoded = length v /\
    Forall2 (fun d f => is_finite32 d = true /\
                        (Qabs (F2Q d - F2Q f) <= 1 # 1000000)%Q) decoded v.
Proof.
  intros Hv.
  exists ("[" +:+ GoStrings.Join (token_of <$> v) "," +:+ "]"),
         (decode_token <$> (token_of <$> v)).
  split; [|split; [|split]].
  - by rewrite vectorToString_eq, Sprintf_tokens.
  - by rewrite parseVectorString_decode, decode_tokens.
  - by rewrite !length_fmap.
  - rewrite <- list_fmap_compose. apply Forall2_fmap_l, Forall_Forall2_diag.
    eapply Forall_impl; [exact Hv|]. intros f Hf. by apply decode_token_of.
Qed.

(** The floats 0.1, -2.5, -0, the least subnormal and the largest finite
    float. *)
Lemma decode_encode_within_tolerance_witness :
  exists text decoded,
    vectorToString [S754_finite false 13421773 (-27); S754_finite true 10485760 (-22);
                    S754_zero true; S754_finite false 1 (-149);
                    S754_finite false 16777215 104] = Some text /\
    parseVectorString text = Some decoded /\
    length decoded = 5%nat /\
    Forall2 (fun d f => is_finite32 d = true /\
                        (Qabs (F2Q d - F2Q f) <= 1 # 1000000)%Q) decoded
      [S754_finite false 13421773 (-27); S754_finite true 10485760 (-22);
       S754_zero true; S754_finite false 1 (-149); S754_finite false 16777215 104].
Proof.
  apply (decode_encode_within_tolerance
           [S754_finite false 13421773 (-27); S754_finite true 10485760 (-22);
            S754_zero true; S754_finite false 1 (-149); S754_finite false 16777215 104]).
  repeat constructor.
Defined.

(** ** The decoder of the specification *)

Lemma is_bracket_contains c : GoStrings.contains_byte "[]" c = is_bracket c.
Proof. by_bits c. Qed.

Lemma trimLeftASCII_drop_leading s :
  GoStrings.trimLeftASCII s "[]" = drop_leading is_bracket s.
Proof.
  induction s as [|c s IH]; [done|]. cbn [GoStrings.trimLeftASCII drop_leading].
  by rewrite is_bracket_contains, IH.
Qed.

Lemma drop_leading_snoc P s c :
  drop_leading P (s +:+ String c EmptyString)
  = match drop_leading P s with
    | EmptyString => if P c then EmptyString else String c EmptyString
    | r => r +:+ String c EmptyString
    end.
Proof.
  induction s as [|a s IH]; [done|].
  rewrite append_cons. cbn [drop_leading]. destruct (P a); [exact IH|done].
Qed.

Lemma trimRightASCII_drop_leading s :
  GoStrings.trimRightASCII s "[]" = String.rev (drop_leading is_bracket (String.rev s)).
Proof.
  induction s as [|c s IH]; [done|].
  cbn [GoStrings.trimRightASCII]. rewrite rev_cons, drop_leading_snoc, IH, is_bracket_contains.
  destruct (drop_leading is_bracket (String.rev s)) as [|a r].
  - by destruct (is_bracket c).
  - rewrite rev_append. change (String.rev (String c EmptyString)) with (String c EmptyString).
    rewrite rev_cons. by destruct (String.rev r).
Qed.

Lemma trimLeft_trimRight s cutset :
  GoStrings.trimLeftASCII (GoStrings.trimRightASCII s cutset) cutset
  = GoStrings.trimRightASCII (GoStrings.trimLeftASCII s cutset) cutset.
Proof.
  induction s as [|c s IH]; [done|].
  cbn [GoStrings.trimLeftASCII GoStrings.trimRightASCII].
  destruct (GoStrings.contains_byte cutset c) eqn:Hc.
  - rewrite <- IH.
    destruct (GoStrings.trimRightASCII s cutset) as [|a r]; [done|].
    cbn [GoStrings.trimLeftASCII]. by rewrite Hc.
  - cbn [GoStrings.trimRightASCII]. rewrite Hc.
    destruct (GoStrings.trimRightASCII s cutset) as [|a r];
      cbn [GoStrings.trimLeftASCII]; by rewrite Hc.
Qed.

Lemma Trim_strip_brackets s : GoStrings.Trim s "[]" = strip_brackets s.
Proof.
  unfold GoStrings.Trim, strip_brackets.
  by rewrite trimLeft_trimRight, trimRightASCII_drop_leading, trimLeftASCII_drop_leading.
Qed.

Lemma split_on_commas_from_Split s current :
  split_on_commas_from s current
  = match GoStrings.Split s "," with
    | part :: parts => (String.rev current +:+ part) :: parts
    | [] => [String.rev current]
    end.
Proof.
  revert current. induction s as [|c s IH]; intros current.
  - cbn. by rewrite append_nil_r.
  - cbn [split_on_commas_from GoStrings.Split].
    pose proof (Split_length s) as Hl.
    destruct (Ascii.eqb c ",").
    + rewrite IH, append_nil_r. f_equal.
      by destruct (GoStrings.Split s ",").
    + rewrite IH.
      destruct (GoStrings.Split s ",") as [|part parts]; [done|].
      by rewrite rev_cons, append_assoc.
Qed.

Lemma Split_split_on_commas s : GoStrings.Split s "," = split_on_commas s.
Proof.
  unfold split_on_commas. rewrite split_on_commas_from_Split.
  pose proof (Split_length s) as Hl.
  by destruct (GoStrings.Split s ",").
Qed.

(** The two ranges of [space_prefix] and [space_suffix], byte by byte. *)
Lemma between_9_13 c :
  byte_between "009" "013" c
  = Ascii.eqb c "009" || Ascii.eqb c "010" || Ascii.eqb c "011" || Ascii.eqb c "012"
    || Ascii.eqb c "013".
Proof. by_bits c. Qed.

Lemma between_128_138 c :
  byte_between "128" "138" c
  = Ascii.eqb c "128" || Ascii.eqb c "129" || Ascii.eqb c "130" || Ascii.eqb c "131"
    || Ascii.eqb c "132" || Ascii.eqb c "133" || Ascii.eqb c "134" || Ascii.eqb c "135"
    || Ascii.eqb c "136" || Ascii.eqb c "137" || Ascii.eqb c "138".
Proof. by_bits c. Qed.

(** [unicode.IsSpace] on the first rune is membership of the table. *)
Lemma space_prefix_strip s : GoStrings.space_prefix s = strip_white_space s.
Proof.
  unfold strip_white_space, GoStrings.space_prefix. white_space_table.
  destruct s as [|c1 [|c2 [|c3 s]]]; rewrite ?between_9_13, ?between_128_138;
    cbn; split_eqb; reflexivity.
Qed.

Lemma space_suffix_strip rs : GoStrings.space_suffix rs = strip_white_space_backwards rs.
Proof.
  unfold strip_white_space_backwards, GoStrings.space_suffix. white_space_table.
  destruct rs as [|c1 [|c2 [|c3 s]]]; rewrite ?between_9_13, ?between_128_138;
    cbn; split_eqb; reflexivity.
Qed.

Lemma trim_while_strip_repeatedly strip strip' n s :
  (forall x, strip x = strip' x) ->
  GoStrings.trim_while strip n s = strip_repeatedly strip' n s.
Proof.
  intros H. revert s. induction n as [|n IH]; intros s; [done|].
  cbn. rewrite H. by destruct (strip' s).
Qed.

(** [strings.TrimSpace] trims the white space of the table. *)
Lemma TrimSpace_trim_white_space s : GoStrings.TrimSpace s = trim_white_space s.
Proof.
  unfold GoStrings.TrimSpace, trim_white_space.
  rewrite (trim_while_strip_repeatedly _ _ _ _ space_prefix_strip).
  by rewrite (trim_while_strip_repeatedly _ _ _ _ space_suffix_strip).
Qed.

(** The decoder of the source is the decoder of the specification. *)
Lemma decode_decode_by_words s : decode s = decode_by_words s.
Proof.
  unfold decode, decode_by_words.
  rewrite Trim_strip_brackets, Split_split_on_commas.
  destruct (decide _); [done|].
  apply list_fmap_ext. intros _ token _.
  unfold decode_token, parse_or_zero. by rewrite TrimSpace_trim_white_space.
Qed.

(** C2.  [parseVectorString] computes the decoder of the specification: it
    strips the enclosing bracket characters, returns the zero-length vector
    for an empty interior, and otherwise splits the interior on commas,
    trims the white space around each token and parses it, a token that
    fails to parse giving [0.0]; so it returns as many components as there
    are tokens.  On ["[]"], ["[1.000000,2.000000]"] and ["[1.0,bad,3.0]"] it
    returns the empty vector, [1, 2] and [1, 0, 3]; on a text with a space,
    a tab and a no-break space around its tokens it returns [1.5, -2, 3]. *)
Theorem parseVectorString_lenient_decode :
  (forall s : string,
     parseVectorString s = Some (decode_by_words s) /\
     length (decode_by_words s)
     = (if decide (strip_brackets s = EmptyString) then O
        else length (split_on_commas (strip_brackets s)))) /\
  (forall token : string,
     snd (ParseFloat (trim_white_space token)) <> None ->
     parse_or_zero (trim_white_space token) = S754_zero false) /\
  parseVectorString "[]" = Some [] /\
  parseVectorString "[1.000000,2.000000]"
  = Some [S754_finite false 8388608 (-23); S754_finite false 8388608 (-22)] /\
  parseVectorString "[1.0,bad,3.0]"
  = Some [S754_finite false 8388608 (-23); S754_zero false;
          S754_finite false 12582912 (-22)] /\
  parseVectorString ("[ 1.5 ," +:+ String "009" "-2 ," +:+ String "194" (String "160" "3")
                     +:+ String "194" (String "133" "]"))
  = Some [S754_finite false 12582912 (-23); S754_finite true 8388608 (-22);
          S754_finite false 12582912 (-22)].
Proof.
  split; [|split; [|split; [|split; [|split]]]].
  - intros s. split; [by rewrite parseVectorString_decode, decode_decode_by_words|].
    unfold decode_by_words. destruct (decide _); [done|]. apply length_fmap.
  - intros token. unfold parse_or_zero.
    destruct (ParseFloat (trim_white_space token)) as [val [err|]]; [done|].
    by intros [].
  - reflexivity.
  - vm_compute. reflexivity.
  - vm_compute. reflexivity.
  - vm_compute. reflexivity.
Qed.

(** C10.  [parseVectorString] returns a vector on every string, and the
    vector has one component per comma-separated segment of the interior
    left by trimming the brackets (none when the interior is empty). *)
Theorem parseVectorString_total (s : string) :
  exists v : list float32,
    parseVectorString s = Some v /\
    length v = segments (GoStrings.Trim s "[]").
Proof.
  exists (decode s). split; [apply parseVectorString_decode|apply decode_length].
Qed.

(** C8, as amended.  For every vector of finite floats, [vectorToString]
    returns the comma-separated join of one token per component, in order,
    between brackets; each token is a fixed-point decimal with six
    fractional digits and denotes a number within half a millionth of its
    component. *)
Theorem vectorToString_fixed_point_tokens (v : list float32) :
  Forall (fun f => is_finite32 f = true) v ->
  exists tokens : list string,
    vectorToString v = Some ("[" +:+ GoStrings.Join tokens "," +:+ "]") /\
    length tokens = length v /\
    Forall2 (fun t f => is_fixed_point6 t = true /\
                        (Qabs (token_value t - F2Q f) <= 1 # 2000000)%Q) tokens v.
Proof.
  intros Hv. exists (token_of <$> v). split; [|split].
  - by rewrite vectorToString_eq, Sprintf_tokens.
  - apply length_fmap.
  - apply Forall2_fmap_l, Forall_Forall2_diag.
    eapply Forall_impl; [exact Hv|]. intros f Hf. split.
    + apply fmtF_fixed_point.
    + by apply token_value_close.
Qed.

Lemma vectorToString_fixed_point_tokens_witness :
  exists tokens : list string,
    vectorToString [S754_finite false 13421773 (-27); S754_finite true 10485760 (-22)]
    = Some ("[" +:+ GoStrings.Join tokens "," +:+ "]") /\
    length tokens = 2%nat /\
    Forall2 (fun t f => is_fixed_point6 t = true /\
                        (Qabs (token_value t - F2Q f) <= 1 # 2000000)%Q) tokens
      [S754_finite false 13421773 (-27); S754_finite true 10485760 (-22)].
Proof.
  apply (vectorToString_fixed_point_tokens
           [S754_finite false 13421773 (-27); S754_finite true 10485760 (-22)]).
  repeat constructor.
Defined.

(** C8 fails on a vector that holds NaN: the text is ["[NaN]"], and no
    fixed-point token stands between its brackets. *)
Lemma vectorToString_nan_token :
  vectorToString [S754_nan] = Some "[NaN]" /\
  ~ exists tokens : list string,
      vectorToString [S754_nan] = Some ("[" +:+ GoStrings.Join tokens "," +:+ "]") /\
      length tokens = 1%nat /\
      Forall (fun t => is_fixed_point6 t = true) tokens.
Proof.
  split; [reflexivity|].
  intros (tokens & E & Hlen & Hall).
  destruct tokens as [|t [|t' tokens]]; try discriminate Hlen.
  apply Forall_inv in Hall.
  change (vectorToString [S754_nan]) with (Some "[NaN]") in E.
  change (GoStrings.Join [t] ",") with t in E.
  destruct t as [|c1 [|c2 [|c3 [|c4 t]]]]; try discriminate E; try discriminate Hall.
  - injection E as ? ? ?. subst. discriminate Hall.
  - destruct t; discriminate E.
Qed.

(** * Ingestion *)

Lemma storage_writes_app t1 t2 :
  storage_writes (t1 ++ t2) = (storage_writes t1 + storage_writes t2)%nat.
Proof. unfold storage_writes. by rewrite filter_app, length_app. Qed.

(** C3, as amended.  If the embedding step fails (the request cannot be
    serialized, the provider cannot be reached, its response cannot be read,
    its status is not 200, or [json.Unmarshal] returns an error on the
    body), [CreateDocument] returns an error, leaves the document as it was
    and issues no write call to storage; a provider status other than 200
    whose body could be read is reported as such. *)
Theorem CreateDocument_embedding_failure (w : World) (doc : Document) :
  embedding_fails w doc ->
  exists (err : error) (events : list event),
    CreateDocument w doc = Some (doc, Some err, events) /\
    storage_writes events = O /\
    (forall requestBody resp body,
       json_Marshal w (ollamaReq doc) = inl requestBody ->
       http_Post w (endpoint w) "application/json" requestBody = inl resp ->
       Body resp = inl body -> StatusCode resp <> 200 ->
       err = "embedding service returned status: " +:+ itoa (StatusCode resp)).
Proof.
  intros Hfail. unfold CreateDocument.
  destruct (json_Marshal w (ollamaReq doc)) as [requestBody|err] eqn:Em.
  2:{ eexists _, _. split; [reflexivity|]. split; [reflexivity|]. intros; discriminate. }
  destruct (http_Post w (endpoint w) "application/json" requestBody) as [resp|err] eqn:Ep.
  2:{ eexists _, _. split; [reflexivity|]. split; [reflexivity|].
      intros ? ? ? [= <-] H. rewrite Ep in H. discriminate H. }
  destruct (Body resp) as [body|err] eqn:Eb.
  2:{ eexists _, _. split; [reflexivity|]. split; [reflexivity|].
      intros ? ? ? [= <-] H. rewrite Ep in H. injection H as <-.
      intros H. rewrite Eb in H. discriminate H. }
  destruct (decide (StatusCode resp ≠ 200)) as [Hs|Hs].
  { eexists _, _. split; [reflexivity|]. split; [reflexivity|].
    intros ? ? ? [= <-] H. rewrite Ep in H. by injection H as <-. }
  destruct (json_Unmarshal w body) as [embedding|err] eqn:Eu.
  2:{ eexists _, _. split; [reflexivity|]. split; [reflexivity|].
      intros ? ? ? [= <-] H. rewrite Ep in H. injection H as <-.
      intros _ H. by destruct Hs. }
  exfalso.
  destruct Hfail as [e H|b e H1 H2|b r e H1 H2 H3|b r H1 H2 H3|b r c e H1 H2 H3 H4];
    rewrite Em in *; simplify_eq; rewrite Ep in *; simplify_eq;
    try (rewrite Eb in *; simplify_eq); try (rewrite Eu in *; simplify_eq); done.
Qed.

Lemma CreateDocument_embedding_failure_witness :
  exists (err : error) (events : list event),
    CreateDocument world_500 hello = Some (hello, Some err, events) /\
    storage_writes events = O /\
    (forall requestBody resp body,
       json_Marshal world_500 (ollamaReq hello) = inl requestBody ->
       http_Post world_500 (endpoint world_500) "application/json" requestBody = inl resp ->
       Body resp = inl body -> StatusCode resp <> 200 ->
       err = "embedding service returned status: " +:+ itoa (StatusCode resp)).
Proof.
  apply (CreateDocument_embedding_failure world_500 hello).
  apply (status_fails _ _ "request" (mkResponse 500 (inl "internal error")));
    [reflexivity|reflexivity|discriminate].
Defined.

(** C3 fails on a body of another shape: the provider answers 200 with a
    JSON object that has no [embedding], and [CreateDocument] inserts the
    document with the empty vector ["[]"] and returns no error. *)
Lemma CreateDocument_wrong_shape_inserts :
  json_Unmarshal world_wrong_shape error_body = inl [] /\
  exists (doc' : Document) (events : list event),
    CreateDocument world_wrong_shape hello = Some (doc', None, events) /\
    Embedding doc' = [] /\
    storage_writes events = 1%nat /\
    QueryRow insert_query "hello" None None "[]" ∈ events /\
    ~ exists (err : error) (events' : list event),
        CreateDocument world_wrong_shape hello = Some (hello, Some err, events') /\
        storage_writes events' = O.
Proof.
  split; [reflexivity|].
  eexists _, _. split; [reflexivity|]. split; [reflexivity|]. split; [reflexivity|].
  split.
  - do 5 apply list_elem_of_further. apply list_elem_of_here.
  - intros (err & events' & E & _). discriminate E.
Qed.

(** C9.  When the embedding step yields [E] and the store answers the
    insert with the identifier [id] and the timestamp [t], [CreateDocument]
    returns no error and leaves the document with that identifier, that
    timestamp and the embedding [E], after one write call. *)
Theorem CreateDocument_success (w : World) (doc : Document) (E : list float32)
    (text : string) (id : Z) (t : Time) :
  embedding_succeeds w doc E ->
  vectorToString E = Some text ->
  db_QueryRow (database w) insert_query (Content doc) (MediaType doc) (FileName doc) text
  = RowScanned id t ->
  exists events : list event,
    CreateDocument w doc
    = Some (mkDocument id (Content doc) (MediaType doc) (FileName doc) E t, None, events) /\
    storage_writes events = 1%nat.
Proof.
  intros (requestBody & resp & body & Em & Ep & Hs & Eb & Eu) Ht Hrow.
  unfold CreateDocument. rewrite Em, Ep, Eb.
  rewrite decide_False by (intros H; by apply H).
  rewrite Eu. cbn [Embedding Content MediaType FileName ID CreatedAt].
  rewrite Ht. cbn [mbind option_bind]. rewrite Hrow.
  eexists. split; [reflexivity|]. reflexivity.
Qed.

Lemma CreateDocument_success_witness :
  exists events : list event,
    CreateDocument world_ok hello
    = Some (mkDocument 7 (Content hello) (MediaType hello) (FileName hello)
              example_embedding 1700000000, None, events) /\
    storage_writes events = 1%nat.
Proof.
  apply (CreateDocument_success world_ok hello example_embedding
           "[0.100000,0.200000,0.300000]" 7 1700000000).
  - exists "request", (mkResponse 200 (inl example_body)), example_body.
    repeat split; reflexivity.
  - reflexivity.
  - reflexivity.
Defined.

(** C4, as amended.  When the embedding step yields [E] and the insert
    fails in the database, [CreateDocument] returns the error
    [failed to save document] with the cause, the identifier, the timestamp,
    the content and the labels of the document are as passed in, and its
    embedding is [E]: the embedding is assigned before the insert. *)
Theorem CreateDocument_insert_failure (w : World) (doc : Document) (E : list float32)
    (text : string) (cause : error) :
  embedding_succeeds w doc E ->
  vectorToString E = Some text ->
  db_QueryRow (database w) insert_query (Content doc) (MediaType doc) (FileName doc) text
  = RowError cause ->
  exists events : list event,
    CreateDocument w doc
    = Some (mkDocument (ID doc) (Content doc) (MediaType doc) (FileName doc) E
              (CreatedAt doc),
            Some ("failed to save document: " +:+ cause), events).
Proof.
  intros (requestBody & resp & body & Em & Ep & Hs & Eb & Eu) Ht Hrow.
  unfold CreateDocument. rewrite Em, Ep, Eb.
  rewrite decide_False by (intros H; by apply H).
  rewrite Eu. cbn [Embedding Content MediaType FileName ID CreatedAt].
  rewrite Ht. cbn [mbind option_bind]. rewrite Hrow.
  eexists. reflexivity.
Qed.

Lemma CreateDocument_insert_failure_witness :
  exists events : list event,
    CreateDocument world_db_down hello
    = Some (mkDocument (ID hello) (Content hello) (MediaType hello) (FileName hello)
              example_embedding (CreatedAt hello),
            Some ("failed to save document: " +:+ "connection lost"), events).
Proof.
  apply (CreateDocument_insert_failure world_db_down hello example_embedding
           "[0.100000,0.200000,0.300000]" "connection lost").
  - exists "request", (mkResponse 200 (inl example_body)), example_body.
    repeat split; reflexivity.
  - reflexivity.
  - reflexivity.
Defined.

(** C4 fails: the insert fails, [CreateDocument] returns an error, and the
    document passed in has been changed. *)
Lemma CreateDocument_insert_failure_mutates :
  exists (doc' : Document) (err : error) (events : list event),
    CreateDocument world_db_down hello = Some (doc', Some err, events) /\
    doc' <> hello.
Proof.
  eexists _, _, _. split; [reflexivity|]. discriminate.
Qed.

(** * Endpoint resolution *)

(** C7.  The override [OLLAMA_URL], when set and not empty, is the endpoint
    whatever the container marker; without it, the presence of the marker
    [DOCKER_CONTAINER] selects the container gateway; without either, the
    endpoint is the local default. *)
Theorem getOllamaURL_precedence (env : gmap string string) :
  (forall url : string,
     env !! "OLLAMA_URL" = Some url -> url <> EmptyString -> getOllamaURL env = url) /\
  (env !! "OLLAMA_URL" = None \/ env !! "OLLAMA_URL" = Some EmptyString ->
   is_Some (env !! "DOCKER_CONTAINER") ->
   getOllamaURL env = "http://host.docker.internal:11434") /\
  (env !! "OLLAMA_URL" = None \/ env !! "OLLAMA_URL" = Some EmptyString ->
   env !! "DOCKER_CONTAINER" = None ->
   getOllamaURL env = "http://localhost:11434").
Proof.
  unfold getOllamaURL, GoOs.Getenv, GoOs.LookupEnv.
  split; [|split].
  - intros url -> Hne. cbn. by rewrite decide_True.
  - intros Hov [marker ->].
    rewrite decide_False; [done|]. by destruct Hov as [-> | ->]; cbn; intros H; apply H.
  - intros Hov ->.
    rewrite decide_False; [done|]. by destruct Hov as [-> | ->]; cbn; intros H; apply H.
Qed.

Lemma getOllamaURL_precedence_witness :
  getOllamaURL (<["OLLAMA_URL" := "http://gpu:11434"]> (<["DOCKER_CONTAINER" := "1"]> ∅))
  = "http://gpu:11434" /\
  getOllamaURL (<["OLLAMA_URL" := EmptyString]> (<["DOCKER_CONTAINER" := EmptyString]> ∅))
  = "http://host.docker.internal:11434" /\
  getOllamaURL ∅ = "http://localhost:11434".
Proof.
  split; [|split].
  - apply (proj1 (getOllamaURL_precedence _)); [reflexivity|discriminate].
  - apply (proj1 (proj2 (getOllamaURL_precedence _))); [right; reflexivity|].
    exists EmptyString. reflexivity.
  - apply (proj2 (proj2 (getOllamaURL_precedence _))); [left; reflexivity|reflexivity].
Defined.

(** * Similarity search *)

Lemma SearchSimilarDocuments_loop_spec rows documents :
  SearchSimilarDocuments_loop rows documents
  = Some (documents ++ scanned_documents rows, row_log <$> rows).
Proof.
  revert documents. induction rows as [|r rows IH]; intros documents.
  - cbn. by rewrite app_nil_r.
  - destruct r as [err|id content mediaType fileName embeddingStr createdAt similarity];
      cbn [SearchSimilarDocuments_loop].
    + rewrite IH. reflexivity.
    + rewrite parseVectorString_decode. cbn [mbind option_bind].
      rewrite IH. cbn [mbind option_bind]. unfold scanned_documents. cbn [omap list_omap scanned_document fmap list_fmap row_log].
      by rewrite <- app_assoc.
Qed.

(** What [SearchSimilarDocuments] returns when the store answers with the
    result set [rows]. *)
Lemma SearchSimilarDocuments_rows db q limit text rows :
  vectorToString q = Some text ->
  db_Query db search_query text limit = inl rows ->
  SearchSimilarDocuments db q limit
  = Some (scanned_documents rows, None,
          [Log "Executing search query with embedding length: %d, limit: %d"
             [OInt (Z.of_nat (length q)); OInt limit];
           Query search_query text limit] ++ (row_log <$> rows) ++ [RowsClose]).
Proof.
  intros Ht Hq. unfold SearchSimilarDocuments.
  rewrite Ht. cbn [mbind option_bind]. rewrite Hq.
  rewrite SearchSimilarDocuments_loop_spec. reflexivity.
Qed.

Lemma scanned_documents_all rows :
  Forall (fun r => scan_fails r = false) rows ->
  Some <$> scanned_documents rows = scanned_document <$> rows.
Proof.
  unfold scanned_documents.
  induction 1 as [|r rows Hr _ IH]; [done|].
  destruct r; [done|]. cbn. by rewrite IH.
Qed.

(** C6.  When the store answers with a result set, [SearchSimilarDocuments]
    returns no error and the documents of the rows that scan, in the order
    of the result set, and logs a scan error for each row that does not.
    If exactly one row fails to scan, the documents returned are those of
    the other rows, in their order, one fewer than there are rows: six for
    seven rows. *)
Theorem SearchSimilarDocuments_skips_failed_rows (db : DB) (q : list float32) (limit : Z)
    (text : string) (rows : list row) :
  vectorToString q = Some text ->
  db_Query db search_query text limit = inl rows ->
  exists events : list event,
    SearchSimilarDocuments db q limit = Some (scanned_documents rows, None, events) /\
    (forall (i : nat) (err : error),
       rows !! i = Some (ScanError err) -> Log "Row scan error: %v" [OErr err] ∈ events) /\
    (forall (i : nat) (err : error),
       rows !! i = Some (ScanError err) ->
       Forall (fun r => scan_fails r = false) (delete i rows) ->
       Some <$> scanned_documents rows = scanned_document <$> delete i rows /\
       S (length (scanned_documents rows)) = length rows /\
       (length rows = 7%nat -> length (scanned_documents rows) = 6%nat)).
Proof.
  intros Ht Hq. eexists. split; [by apply SearchSimilarDocuments_rows|]. split.
  - intros i err Hi. apply elem_of_app. right. apply elem_of_app. left.
    apply list_elem_of_fmap. exists (ScanError err). split; [done|].
    by apply list_elem_of_lookup_2 in Hi.
  - intros i err Hi Hothers.
    assert (Hdocs : scanned_documents rows = scanned_documents (delete i rows)).
    { rewrite <- (take_drop_middle rows i _ Hi) at 1. rewrite delete_take_drop.
      unfold scanned_documents. by rewrite !omap_app. }
    assert (Hlen : S (length (scanned_documents rows)) = length rows).
    { rewrite Hdocs.
      assert (E : length (scanned_documents (delete i rows)) = length (delete i rows)).
      { rewrite <- (length_fmap Some), scanned_documents_all by done. apply length_fmap. }
      rewrite E. apply lookup_lt_Some in Hi.
      rewrite length_delete by (by apply lookup_lt_is_Some_2). lia. }
    split; [|split; [done|lia]].
    rewrite Hdocs. by apply scanned_documents_all.
Qed.

Lemma SearchSimilarDocuments_skips_failed_rows_witness :
  exists events : list event,
    SearchSimilarDocuments (fixed_DB (RowScanned 0 0) (inl seven_rows)) example_embedding 5
    = Some (scanned_documents seven_rows, None, events) /\
    Some <$> scanned_documents seven_rows = scanned_document <$> delete 2%nat seven_rows /\
    length (scanned_documents seven_rows) = 6%nat.
Proof.
  destruct (SearchSimilarDocuments_skips_failed_rows
              (fixed_DB (RowScanned 0 0) (inl seven_rows)) example_embedding 5
              "[0.100000,0.200000,0.300000]" seven_rows eq_refl eq_refl)
    as (events & E & _ & H).
  exists events. split; [exact E|].
  destruct (H 2%nat "sql: Scan error on column index 1" eq_refl) as (Hd & _ & Hl).
  - repeat constructor.
  - split; [exact Hd|]. apply Hl. reflexivity.
Defined.

(** C5 fails: two result sets that differ only in the similarity of their
    row give the same documents, so the documents returned do not carry the
    similarity. *)
Lemma SearchSimilarDocuments_drops_similarity :
  exists (documents : list Document) (events1 events2 : list event),
    SearchSimilarDocuments
      (fixed_DB (RowScanned 0 0)
         (inl [Scanned 1 "a" None None "[1.000000]" 0
                 (S754_finite false 4503599627370496 (-53))]))
      example_embedding 5
    = Some (documents, None, events1) /\
    SearchSimilarDocuments
      (fixed_DB (RowScanned 0 0)
         (inl [Scanned 1 "a" None None "[1.000000]" 0
                 (S754_finite false 4503599627370496 (-54))]))
      example_embedding 5
    = Some (documents, None, events2) /\
    S754_finite false 4503599627370496 (-53) <> S754_finite false 4503599627370496 (-54).
Proof.
  eexists _, _, _. split; [|split].
  - vm_compute. reflexivity.
  - vm_compute. reflexivity.
  - discriminate.
Qed.

Lemma StronglySorted_sublist {A} (R : relation A) (l1 l2 : list A) :
  l1 `sublist_of` l2 -> StronglySorted R l2 -> StronglySorted R l1.
Proof.
  induction 1 as [|x l1 l2 Hsub IH|x l1 l2 Hsub IH]; intros Hs; [done|..].
  - apply StronglySorted_cons in Hs as [Hall Hs].
    apply StronglySorted_cons. split; [|by apply IH].
    apply Forall_forall. intros y Hy.
    apply (proj1 (Forall_forall _ _) Hall).
    eapply elem_of_submseteq; [exact Hy|]. by apply sublist_submseteq.
  - apply StronglySorted_cons in Hs as [_ Hs]. by apply IH.
Qed.

Lemma omap_logged_similarity (rows : list row) :
  omap logged_similarity (row_log <$> rows)
  = omap (fun r => match r with
                   | Scanned _ _ _ _ _ _ similarity => Some similarity
                   | ScanError _ => None
                   end) rows.
Proof.
  induction rows as [|r rows IH]; [done|].
  destruct r; cbn; by rewrite IH.
Qed.

Lemma mapM_all {A B} (f : A -> option B) (g : A -> B) (l : list A) :
  Forall (fun x => f x = Some (g x)) l -> mapM f l = Some (g <$> l).
Proof.
  induction 1 as [|x l Hx _ IH]; [done|]. cbn. by rewrite Hx, IH.
Qed.

Lemma mapM_fails {A B} (f : A -> option B) (l : list A) (x : A) :
  x ∈ l -> f x = None -> mapM f l = None.
Proof.
  intros Hin Hx. induction l as [|y l IH]; [by apply elem_of_nil in Hin|].
  apply elem_of_cons in Hin as [<-|Hin]; cbn.
  - by rewrite Hx.
  - rewrite (IH Hin). by destruct (f y).
Qed.

(** The order of [float8] is a total preorder. *)
Lemma float8_le_total : Total float8_le.
Proof.
  intros x y. unfold float8_le, float8_leb.
  destruct (Z.lt_trichotomy (float8_class x) (float8_class y)) as [H|[H|H]].
  - left. apply orb_true_iff. left. by apply Z.ltb_lt.
  - rewrite H, Z.eqb_refl, !andb_true_l.
    destruct (Qlt_le_dec (F2Q x) (F2Q y)) as [Hq|Hq].
    + left. apply orb_true_iff. right. by apply Qle_bool_iff, Qlt_le_weak.
    + right. apply orb_true_iff. right. by apply Qle_bool_iff.
  - right. apply orb_true_iff. left. by apply Z.ltb_lt.
Qed.

Lemma float8_le_trans : Transitive float8_le.
Proof.
  intros x y z. unfold float8_le, float8_leb.
  rewrite !orb_true_iff, !andb_true_iff, !Z.ltb_lt, !Z.eqb_eq, !Qle_bool_iff.
  intros [H1|[H1 Q1]] [H2|[H2 Q2]]; [left; lia..|].
  right. split; [lia|]. by eapply Qle_trans.
Qed.

Lemma nulls_last_le_total : Total nulls_last_le.
Proof.
  intros [x|] [y|]; cbn; auto. apply float8_le_total.
Qed.

Lemma nulls_last_le_trans : Transitive nulls_last_le.
Proof.
  intros [x|] [y|] [z|]; cbn; try done. apply float8_le_trans.
Qed.

(** The statement of [SearchSimilarDocuments], parsed. *)
Lemma search_query_parsed : Sql.parse_select search_query = Some search_select.
Proof. vm_compute. reflexivity. Qed.

Section PgStoreProperties.

Context {vec : Type}.
Variable vector_in : string -> option vec.
Variable vector_out : vec -> string.
Variable cosine_distance : vec -> vec -> option float64.

Lemma key_le_total : Total (key_le (vec := vec) Sql.Asc).
Proof. intros a b. apply nulls_last_le_total. Qed.

Lemma key_le_trans : Transitive (key_le (vec := vec) Sql.Asc).
Proof. intros a b c. apply nulls_last_le_trans. Qed.

(** The first parameter is read as a vector when the statement is bound. *)
Lemma bind_search_params text limit :
  bind_params vector_in search_select [VText text; VInt limit]
  = (fun qv => [VVector qv; VInt limit]) <$> vector_in text.
Proof.
  unfold bind_params. cbn [imap mapM mbind option_bind fst snd].
  unfold bind_param.
  change (bool_decide (1%nat ∈ select_vector_params search_select)) with true.
  change (bool_decide (2%nat ∈ select_vector_params search_select)) with false.
  cbn. by destruct (vector_in text).
Qed.

Lemma distance_value qv limit r :
  eval cosine_distance [VVector qv; VInt limit] (Some r)
    (Sql.Distance (Sql.Column "embedding") (Sql.Param 1))
  = match col_embedding r with
    | Some e => VFloat <$> cosine_distance e qv
    | None => Some VNull
    end.
Proof. cbn. by destruct (col_embedding r). Qed.

Lemma order_key_distance qv limit r :
  evaluates cosine_distance qv r ->
  order_key cosine_distance [VVector qv; VInt limit]
    (Sql.Distance (Sql.Column "embedding") (Sql.Param 1)) r
  = Some (distance_to cosine_distance qv r).
Proof.
  intros Hr. unfold order_key, distance_to. rewrite distance_value.
  destruct (col_embedding r) as [e|] eqn:Ee; [|done].
  destruct (Hr e Ee) as (d & s & Hd & _). cbn. by rewrite Hd.
Qed.

Lemma sort_rows_distance qv limit table :
  Forall (evaluates cosine_distance qv) table ->
  sort_rows cosine_distance [VVector qv; VInt limit]
    (Some (Sql.Distance (Sql.Column "embedding") (Sql.Param 1), Sql.Asc)) table
  = Some (snd <$> merge_sort (key_le Sql.Asc)
                    ((fun r => (distance_to cosine_distance qv r, r)) <$> table)).
Proof.
  intros Hall. unfold sort_rows.
  rewrite (mapM_all _ (fun r => (distance_to cosine_distance qv r, r))); [done|].
  eapply Forall_impl; [exact Hall|]. intros r Hr. cbn beta.
  by rewrite order_key_distance.
Qed.

Lemma limit_rows_param (qv : vec) limit (rows : list (stored vec)) :
  limit_rows cosine_distance [VVector qv; VInt limit] (Some (Sql.Param 2)) rows
  = if decide (limit < 0) then None else Some (take (Z.to_nat limit) rows).
Proof. reflexivity. Qed.

Lemma select_list_values qv limit r :
  evaluates cosine_distance qv r ->
  mapM (eval cosine_distance [VVector qv; VInt limit] (Some r)) (Sql.sel_items search_select)
  = Some (selected cosine_distance qv r).
Proof.
  intros Hr. unfold selected.
  cbn [Sql.sel_items search_select mapM mbind option_bind mret option_ret].
  assert (Es : eval cosine_distance [VVector qv; VInt limit] (Some r)
                 (Sql.Minus (Sql.Num 1) (Sql.Distance (Sql.Column "embedding") (Sql.Param 1)))
               = Some (from_option VFloat VNull (similarity_to cosine_distance qv r))).
  { unfold similarity_to, distance_to. cbn -[float8_mi float8_of_Z].
    destruct (col_embedding r) as [e|] eqn:Ee; [|reflexivity].
    destruct (Hr e Ee) as (d & s & Hd & Hs). cbn -[float8_mi float8_of_Z].
    rewrite Hd. cbn -[float8_mi float8_of_Z]. by rewrite Hs. }
  rewrite Es. reflexivity.
Qed.

Lemma scanned_document_selected qv r :
  scanned_document (scan_row vector_out (selected cosine_distance qv r))
  = if scannable r && bool_decide (is_Some (similarity_to cosine_distance qv r))
    then Some (document_of vector_out r) else None.
Proof.
  unfold selected, scannable, document_of.
  destruct r as [[id|] [content|] [mt|] [fn|] [emb|] [t|]];
    destruct (similarity_to cosine_distance qv _) as [s|]; reflexivity.
Qed.

Lemma run_search text limit (table : list (stored vec)) :
  run vector_in cosine_distance search_select [VText text; VInt limit] table
  = qv ← vector_in text;
    sorted ← sort_rows cosine_distance [VVector qv; VInt limit]
               (Sql.sel_order search_select) table;
    limited ← limit_rows cosine_distance [VVector qv; VInt limit]
                (Sql.sel_limit search_select) sorted;
    mapM (fun r => mapM (eval cosine_distance [VVector qv; VInt limit] (Some r))
                     (Sql.sel_items search_select)) limited.
Proof.
  unfold run. change (String.eqb (Sql.sel_from search_select) "documents") with true.
  cbv iota. rewrite bind_search_params. by destruct (vector_in text).
Qed.

(** The statement fails on a negative limit, on a text that is not a vector
    and on a stored vector whose distance to the query vector is not
    defined. *)
Lemma run_search_fails text limit (table : list (stored vec)) :
  limit < 0 \/ vector_in text = None \/
  (exists qv r e, vector_in text = Some qv /\ r ∈ table /\ col_embedding r = Some e /\
                  cosine_distance e qv = None) ->
  run vector_in cosine_distance search_select [VText text; VInt limit] table = None.
Proof.
  rewrite run_search. intros [Hneg|[Hin|(qv & r & e & Hin & Hr & He & Hd)]].
  - destruct (vector_in text) as [qv|]; [|done]. cbn [mbind option_bind].
    destruct (sort_rows _ _ _ _) as [sorted|]; [|done]. cbn [mbind option_bind].
    change (Sql.sel_limit search_select) with (Some (Sql.Param 2)).
    rewrite limit_rows_param. by rewrite decide_True.
  - by rewrite Hin.
  - rewrite Hin. cbn [mbind option_bind].
    change (Sql.sel_order search_select)
      with (Some (Sql.Distance (Sql.Column "embedding") (Sql.Param 1), Sql.Asc)).
    unfold sort_rows. rewrite (mapM_fails _ table r Hr); [done|].
    unfold order_key. rewrite distance_value, He, Hd. reflexivity.
Qed.

Lemma evaluates_similarity qv r :
  evaluates cosine_distance qv r -> scannable r = true ->
  is_Some (similarity_to cosine_distance qv r).
Proof.
  intros Hr Hs. unfold similarity_to, distance_to.
  destruct (col_embedding r) as [e|] eqn:Ee.
  - destruct (Hr e Ee) as (d & s & Hd & Hsim). cbn -[float8_mi float8_of_Z].
    rewrite Hd. cbn -[float8_mi float8_of_Z]. rewrite Hsim. by eexists.
  - unfold scannable in Hs. rewrite Ee in Hs.
    rewrite !andb_true_iff in Hs. destruct Hs as [[_ Hs] _].
    apply bool_decide_eq_true in Hs. by destruct Hs.
Qed.

(** The rows of the result set, scanned. *)
Lemma scanned_documents_selected qv (l : list (stored vec)) :
  Forall (evaluates cosine_distance qv) l ->
  scanned_documents (scan_row vector_out <$> (selected cosine_distance qv <$> l))
  = document_of vector_out <$> filter (fun r => scannable r = true) l.
Proof.
  unfold scanned_documents. induction 1 as [|r l Hr _ IH]; [done|].
  cbn [fmap list_fmap omap list_omap]. rewrite scanned_document_selected, filter_cons.
  destruct (scannable r) eqn:E.
  - rewrite decide_True by done.
    rewrite (bool_decide_eq_true_2 _ (evaluates_similarity qv r Hr E)). cbn. by rewrite IH.
  - rewrite decide_False by done. exact IH.
Qed.

Lemma logged_similarity_selected qv (l : list (stored vec)) :
  Forall (evaluates cosine_distance qv) l ->
  Some <$> omap (fun r => match r with
                          | Scanned _ _ _ _ _ _ similarity => Some similarity
                          | ScanError _ => None
                          end) (scan_row vector_out <$> (selected cosine_distance qv <$> l))
  = similarity_to cosine_distance qv <$> filter (fun r => scannable r = true) l.
Proof.
  induction 1 as [|r l Hr _ IH]; [done|].
  cbn [fmap list_fmap omap list_omap]. rewrite filter_cons.
  destruct (scannable r) eqn:E.
  - rewrite decide_True by done.
    destruct (evaluates_similarity qv r Hr E) as [s Hs].
    assert (Hrow : exists id content mt fn emb t,
               scan_row vector_out (selected cosine_distance qv r) = Scanned id content mt fn emb t s).
    { unfold selected. rewrite Hs. revert E. unfold scannable.
      destruct r as [[id|] [content|] [mt|] [fn|] [emb|] [t|]]; try discriminate;
        intros _; by eexists _, _, _, _, _, _. }
    destruct Hrow as (id & content & mt & fn & emb & t & ->).
    cbn. by rewrite Hs, <- IH.
  - rewrite decide_False by done.
    assert (Hrow : exists err, scan_row vector_out (selected cosine_distance qv r) = ScanError err).
    { unfold selected. revert E. unfold scannable.
      destruct r as [[id|] [content|] [mt|] [fn|] [emb|] [t|]];
        destruct (similarity_to cosine_distance qv _); try discriminate;
        intros _; by eexists. }
    destruct Hrow as (err & ->). exact IH.
Qed.

Lemma StronglySorted_fmap_on {A B} (R : relation A) (R' : relation B) (P : A -> Prop)
    (f : A -> B) (l : list A) :
  (forall x y, P x -> P y -> R x y -> R' (f x) (f y)) ->
  Forall P l -> StronglySorted R l -> StronglySorted R' (f <$> l).
Proof.
  intros Hf. induction l as [|x l IH]; intros HP Hs; [constructor|].
  apply Forall_cons in HP as [Hx HP].
  apply StronglySorted_cons in Hs as [Hall Hs].
  cbn. apply StronglySorted_cons. split; [|by apply IH].
  apply Forall_fmap, Forall_forall. intros y Hy. cbn.
  apply Hf; [done|by apply (proj1 (Forall_forall _ _) HP)|
             by apply (proj1 (Forall_forall _ _) Hall)].
Qed.

(** The rows sorted by [ORDER BY] are the rows of the table, in ascending
    order of distance. *)
Lemma sorted_by_distance qv (table : list (stored vec)) :
  let sorted := snd <$> merge_sort (key_le Sql.Asc)
                          ((fun r => (distance_to cosine_distance qv r, r)) <$> table) in
  sorted ≡ₚ table /\ StronglySorted (by_distance cosine_distance qv) sorted.
Proof.
  set (keyed := (fun r => (distance_to cosine_distance qv r, r)) <$> table).
  cbv zeta. split.
  - rewrite merge_sort_Permutation. unfold keyed.
    rewrite <- list_fmap_compose. by rewrite list_fmap_id.
  - apply (StronglySorted_fmap_on (key_le Sql.Asc) _
             (fun x => x.1 = distance_to cosine_distance qv x.2)).
    + intros x y Hx Hy Hxy. unfold by_distance. by rewrite <- Hx, <- Hy.
    + rewrite merge_sort_Permutation. unfold keyed.
      apply Forall_fmap, Forall_forall. by intros r _.
    + apply StronglySorted_merge_sort; [apply key_le_trans|apply key_le_total].
Qed.

(** C5, as amended.  Against a store that executes the statement it
    receives, [SearchSimilarDocuments] returns a list of documents, without
    their similarity.  The store reads the query vector from the text
    [vectorToString] made of it; when it can, when the distance of every
    stored vector to that vector is defined and the limit is not negative,
    the documents returned are those of the rows that scan among the first
    [limit] rows of the table in ascending order of distance to the vector
    read from the text: at most [limit] of them, in that order; the
    similarity of each, one minus its distance, is logged and not returned.
    A negative limit, a text the store does not read as a vector and an
    undefined distance make the statement fail, and the error is
    returned. *)
Theorem SearchSimilarDocuments_ranked
    (insert : string -> string -> option string -> option string -> string -> row_result)
    (table : list (stored vec)) (q : list float32) (limit : Z) :
  exists text : string,
    vectorToString q = Some text /\
    (limit < 0 \/ vector_in text = None \/
     (exists qv r e, vector_in text = Some qv /\ r ∈ table /\ col_embedding r = Some e /\
                     cosine_distance e qv = None) ->
     exists (err : error) (events : list event),
       SearchSimilarDocuments (pg_store vector_in vector_out cosine_distance insert table)
         q limit
       = Some ([], Some err, events)) /\
    (forall qv : vec,
       0 <= limit -> vector_in text = Some qv ->
       Forall (evaluates cosine_distance qv) table ->
       exists (hits : list (stored vec)) (events : list event),
         SearchSimilarDocuments (pg_store vector_in vector_out cosine_distance insert table)
           q limit
         = Some (document_of vector_out <$> hits, None, events) /\
         hits = filter (fun r => scannable r = true)
                  (select_similar cosine_distance table qv limit) /\
         Z.of_nat (length hits) <= limit /\
         StronglySorted (by_distance cosine_distance qv) hits /\
         hits ⊆+ table /\
         Some <$> omap logged_similarity events
         = similarity_to cosine_distance qv <$> hits).
Proof.
  eexists. split; [apply vectorToString_eq|].
  set (text := "[" +:+ GoStrings.Join (GoFmt.Sprintf_f <$> q) "," +:+ "]").
  assert (Hquery : db_Query (pg_store vector_in vector_out cosine_distance insert table)
                     search_query text limit
                   = match run vector_in cosine_distance search_select
                             [VText text; VInt limit] table with
                     | None => inr "pq: the statement failed"
                     | Some rows => inl (scan_row vector_out <$> rows)
                     end).
  { unfold pg_store, pg_query. cbn [db_Query]. by rewrite search_query_parsed. }
  split.
  - intros Hfail. rewrite (run_search_fails text limit table Hfail) in Hquery.
    eexists _, _. unfold SearchSimilarDocuments.
    rewrite vectorToString_eq. cbn [mbind option_bind]. fold text.
    rewrite Hquery. reflexivity.
  - intros qv Hpos Hin Hall.
    destruct (sorted_by_distance qv table) as [Hperm Hsorted]. cbv zeta in Hperm, Hsorted.
    set (sorted := snd <$> merge_sort (key_le Sql.Asc)
                             ((fun r => (distance_to cosine_distance qv r, r)) <$> table))
      in *.
    assert (Hsub : take (Z.to_nat limit) sorted ⊆+ table).
    { etrans; [apply sublist_submseteq, sublist_take|]. by apply Permutation_submseteq. }
    assert (Hlimited : Forall (evaluates cosine_distance qv) (take (Z.to_nat limit) sorted)).
    { apply Forall_forall. intros r Hr.
      apply (proj1 (Forall_forall _ _) Hall).
      eapply elem_of_submseteq; [exact Hr|exact Hsub]. }
    assert (Hrun : run vector_in cosine_distance search_select [VText text; VInt limit] table
                   = Some (selected cosine_distance qv <$> take (Z.to_nat limit) sorted)).
    { rewrite run_search, Hin. cbn [mbind option_bind].
      change (Sql.sel_order search_select)
        with (Some (Sql.Distance (Sql.Column "embedding") (Sql.Param 1), Sql.Asc)).
      change (Sql.sel_limit search_select) with (Some (Sql.Param 2)).
      rewrite sort_rows_distance by done. cbn [mbind option_bind]. fold sorted.
      rewrite limit_rows_param, decide_False by lia. cbn [mbind option_bind].
      apply mapM_all. eapply Forall_impl; [exact Hlimited|].
      intros r Hr. by apply select_list_values. }
    rewrite Hrun in Hquery.
    eexists _, _. split; [|split; [reflexivity|]].
    { rewrite (SearchSimilarDocuments_rows _ q limit text _ (vectorToString_eq q) Hquery).
      rewrite scanned_documents_selected by done. reflexivity. }
    unfold select_similar. fold sorted.
    assert (Hhits : filter (fun r => scannable r = true) (take (Z.to_nat limit) sorted)
                    `sublist_of` sorted).
    { etrans; [apply sublist_filter|apply sublist_take]. }
    split; [|split; [|split]].
    + etrans; [apply Nat2Z.inj_le, length_filter|]. rewrite length_take. lia.
    + by eapply StronglySorted_sublist.
    + etrans; [apply sublist_submseteq, Hhits|]. by apply Permutation_submseteq.
    + rewrite !omap_app. cbn [omap list_omap logged_similarity].
      rewrite app_nil_r. cbn [app].
      rewrite omap_logged_similarity. by apply logged_similarity_selected.
Qed.

End PgStoreProperties.

Example pg_store_example :
  fst <$> SearchSimilarDocuments
            (pg_store example_vector_in example_vector_out example_distance read_only
               small_table) example_embedding 2
  = Some ([mkDocument 3 "near" None None
             [S754_finite false 13421773 (-27); S754_finite false 13421773 (-26);
              S754_finite false 8388608 (-24)] 30;
           mkDocument 1 "far" None None
             [S754_finite false 8388608 (-23); S754_finite false 8388608 (-22);
              S754_finite false 12582912 (-22)] 10], None).
Proof. vm_compute. reflexivity. Qed.

Example pg_store_negative_limit :
  fst <$> SearchSimilarDocuments
            (pg_store example_vector_in example_vector_out example_distance read_only
               small_table) example_embedding (-1)
  = Some ([], Some "pq: the statement failed").
Proof. vm_compute. reflexivity. Qed.

Example pg_store_empty_vector :
  fst <$> SearchSimilarDocuments
            (pg_store example_vector_in example_vector_out example_distance read_only
               small_table) [] 2
  = Some ([], Some "pq: the statement failed").
Proof. vm_compute. reflexivity. Qed.

Example pg_store_other_dimension :
  fst <$> SearchSimilarDocuments
            (pg_store example_vector_in example_vector_out example_distance read_only
               small_table) [S754_zero false] 2
  = Some ([], Some "pq: the statement failed").
Proof. vm_compute. reflexivity. Qed.

Lemma SearchSimilarDocuments_ranked_witness :
  exists (hits : list (stored (list float32))) (events : list event),
    SearchSimilarDocuments
      (pg_store example_vector_in example_vector_out example_distance read_only small_table)
      example_embedding 2
    = Some (document_of example_vector_out <$> hits, None, events) /\
    Z.of_nat (length hits) <= 2 /\
    StronglySorted (by_distance example_distance example_embedding) hits.
Proof.
  destruct (SearchSimilarDocuments_ranked example_vector_in example_vector_out
              example_distance read_only small_table example_embedding 2)
    as (text & Ht & _ & H).
  injection Ht as <-.
  destruct (H example_embedding) as (hits & events & E & _ & Hl & Hs & _).
  - discriminate.
  - vm_compute. reflexivity.
  - repeat constructor; intros e [= <-]; eexists _, _; split; vm_compute; reflexivity.
  - exists hits, events. split; [exact E|]. split; [exact Hl|exact Hs].
Defined.

(** * Further properties of the codec *)

(** ** Rounding to the nearest, ties to even *)

Lemma div_round_even_tie a b :
  0 < b -> 2 * Z.abs (div_round_even a b * b - a) = b ->
  Z.even (div_round_even a b) = true.
Proof.
  intros Hb. unfold div_round_even.
  pose proof (Z.div_mod a b ltac:(lia)) as Hdm.
  pose proof (Z.mod_pos_bound a b Hb) as Hr.
  destruct (Z.compare_spec (2 * (a mod b)) b) as [He|Hl|Hg]; [|lia..].
  destruct (Z.even (a / b)) eqn:Ev; intros _; [done|].
  by rewrite Z.even_add, Ev.
Qed.

(** The rounded quotient is the only integer within half a unit of [a / b],
    and at exactly half a unit the only even one. *)
Lemma div_round_even_unique a b n :
  0 < b ->
  2 * Z.abs (n * b - a) < b \/ (2 * Z.abs (n * b - a) = b /\ Z.even n = true) ->
  div_round_even a b = n.
Proof.
  intros Hb Hn.
  pose proof (div_round_even_spec a b Hb) as Hs.
  pose proof (div_round_even_tie a b Hb) as Ht.
  set (x := div_round_even a b) in *.
  destruct (Z.lt_trichotomy x n) as [Hlt|[->|Hgt]]; [|done|]; exfalso.
  - assert ((n - x) * b >= b) by nia.
    destruct Hn as [Hn|[Hn He]]; [lia|].
    assert (Hx : Z.even x = true) by (apply Ht; lia).
    assert (n = x + 1) by nia. subst n.
    rewrite Z.even_add, Hx in He. discriminate He.
  - assert ((x - n) * b >= b) by nia.
    destruct Hn as [Hn|[Hn He]]; [lia|].
    assert (Hx : Z.even x = true) by (apply Ht; lia).
    assert (Hx1 : x = n + 1) by nia.
    rewrite Hx1, Z.even_add, He in Hx. discriminate Hx.
Qed.

Lemma div_round_even_scale a b c :
  0 < b -> 0 < c -> div_round_even (a * c) (b * c) = div_round_even a b.
Proof.
  intros Hb Hc. unfold div_round_even.
  rewrite Z.div_mul_cancel_r, Z.mul_mod_distr_r by lia.
  assert (Hcmp : (2 * (a mod b * c) ?= b * c) = (2 * (a mod b) ?= b)).
  { destruct (Z.compare_spec (2 * (a mod b)) b);
      [apply Z.compare_eq_iff|apply Z.compare_lt_iff|apply Z.compare_gt_iff]; nia. }
  by rewrite Hcmp.
Qed.

(** The millionths [%f] prints, in terms of the magnitude of the float. *)
Lemma millis_units f :
  is_finite32 f = true ->
  Z.of_N (millis f) = div_round_even (units f * 10 ^ 6) (2 ^ 149).
Proof.
  destruct f as [s|s| |s m e]; intros Hf; try discriminate Hf.
  - reflexivity.
  - apply bounded_elim in Hf as [He Hm]. cbn [units millis]. unfold millionths.
    assert (H149 : 0 < 2 ^ 149) by reflexivity.
    destruct e as [|k|k].
    + rewrite Z2N.id by (change (2 ^ 0) with 1; change (10 ^ 6) with 1000000; lia).
      rewrite Z.add_0_l.
      replace (Zpos m * 2 ^ 149 * 10 ^ 6) with (Zpos m * 2 ^ 0 * 10 ^ 6 * 2 ^ 149)
        by (change (2 ^ 0) with 1; ring).
      by rewrite div_round_even_exact.
    + assert (0 < 2 ^ Zpos k) by (apply Z.pow_pos_nonneg; lia).
      rewrite Z2N.id by (change (10 ^ 6) with 1000000; nia).
      rewrite Z.pow_add_r by lia.
      replace (Zpos m * (2 ^ Zpos k * 2 ^ 149) * 10 ^ 6)
        with (Zpos m * 2 ^ Zpos k * 10 ^ 6 * 2 ^ 149) by ring.
      by rewrite div_round_even_exact.
    + assert (Hp : 0 < 2 ^ Zpos k) by (apply Z.pow_pos_nonneg; lia).
      rewrite Z2N.id by (apply div_round_even_nonneg; [done|change (10 ^ 6) with 1000000; lia]).
      assert (Hq : 0 < 2 ^ (Zneg k + 149)) by (apply Z.pow_pos_nonneg; lia).
      assert (Hsplit : 2 ^ 149 = 2 ^ Zpos k * 2 ^ (Zneg k + 149)).
      { rewrite <- Z.pow_add_r by lia. f_equal. lia. }
      rewrite Hsplit.
      replace (Zpos m * 2 ^ (Zneg k + 149) * 10 ^ 6)
        with (Zpos m * 10 ^ 6 * 2 ^ (Zneg k + 149)) by ring.
      by rewrite div_round_even_scale.
Qed.

(** Rounding the six-digit decimal of a finite float to binary32 gives a
    finite float with the same sign that is at least as near to the decimal
    as the float was. *)
Lemma round32_millionths_nearest s (f : float32) n :
  is_finite32 f = true ->
  0 <= n ->
  2 * Z.abs (units f * 10 ^ 6 - n * 2 ^ 149) <= 2 ^ 149 ->
  exists f', round32 s n 1000000 = (f', false) /\
             is_finite32 f' = true /\ sign_of f' = s /\
             Z.abs (units f' * 10 ^ 6 - n * 2 ^ 149)
             <= Z.abs (units f * 10 ^ 6 - n * 2 ^ 149).
Proof.
  intros Hf Hn Hnear.
  pose proof (units_bound f Hf) as Hb.
  assert (Hmv : exists mv sv, 0 <= sv /\ 0 <= mv < 2 ^ 24 /\ units f = mv * 2 ^ sv).
  { destruct f as [z|z| |z m e]; simpl in *; try discriminate.
    - exists 0, 0. split; [lia|split; [vm_compute; split; congruence|reflexivity]].
    - apply bounded_elim in Hf as [He Hm]. exists (Zpos m), (e + 149). lia. }
  destruct Hmv as (mv & sv & Hsv & Hmv & Hu).
  assert (Ha : 0 <= n * 2 ^ 149) by (apply Z.mul_nonneg_nonneg; [lia|vm_compute; congruence]).
  pose proof (round_nearest (n * 2 ^ 149) 1000000 mv sv ltac:(lia) Ha Hsv Hmv) as Hnear'.
  pose proof (round32_spec s n 1000000 Hn) as Hspec.
  cbv zeta in Hnear', Hspec.
  set (sh := round_shift _ _) in *.
  set (x := div_round_even _ _) in *.
  rewrite <- Hu in Hnear'.
  change (10 ^ 6) with 1000000 in *.
  destruct (round32 s n 1000000) as [f' [|]].
  - exfalso. destruct Hspec as [_ Hbig].
    change (2 ^ 24) with 16777216 in *.
    change (2 ^ 149) with 713623846352979940529142984724747568191373312 in *.
    change (2 ^ 253) with 14474011154664524427946373126085988481658748083205070504932198000989141204992 in *.
    change (2 ^ 277) with 242833611528216133864932738352939863330300854881517440156476551217363035650651062272 in *.
    lia.
  - destruct Hspec as (Hfin & Hsign & Hunits).
    exists f'. rewrite Hunits. auto.
Qed.

(** What a token of a finite float decodes to. *)
Lemma decode_token_round32 f :
  is_finite32 f = true ->
  exists f', round32 (sign_of f) (Z.of_N (millis f)) 1000000 = (f', false) /\
             decode_token (token_of f) = f' /\
             is_finite32 f' = true /\ sign_of f' = sign_of f /\
             Z.abs (units f' * 10 ^ 6 - Z.of_N (millis f) * 2 ^ 149)
             <= Z.abs (units f * 10 ^ 6 - Z.of_N (millis f) * 2 ^ 149).
Proof.
  intros Hf.
  destruct (round32_millionths_nearest (sign_of f) f (Z.of_N (millis f)) Hf
              (N2Z.is_nonneg _) (millis_near f Hf)) as (f' & E & Hfin & Hs & Hn).
  exists f'. split; [done|]. split; [|done].
  unfold decode_token, token_of.
  rewrite TrimSpace_plain by apply fmtF_plain.
  by rewrite ParseFloat_token, E.
Qed.

(** Two valid binary32 data with the same sign and magnitude are equal. *)
Lemma finite32_eq f g :
  is_finite32 f = true -> is_finite32 g = true ->
  sign_of f = sign_of g -> units f = units g -> f = g.
Proof.
  assert (Hpos : forall m e, -149 <= e -> 0 < Zpos m * 2 ^ (e + 149)).
  { intros m e He. apply Z.mul_pos_pos; [lia|apply Z.pow_pos_nonneg; lia]. }
  assert (Hcanon : forall m e, bounded 24 128 m e = true ->
            -149 <= e <= 104 /\ Zpos m < 2 ^ 24 /\ (e = -149 \/ 2 ^ 23 <= Zpos m)).
  { intros m e Hb. pose proof (bounded_elim m e Hb) as [He Hm].
    split; [done|]. split; [done|].
    revert Hb. unfold bounded, canonical_mantissa, fexp, emin.
    rewrite andb_true_iff, Z.eqb_eq, digits2_pos_log2. intros [Hc _].
    destruct (Z.eq_dec e (-149)); [by left|right].
    assert (Hl : Z.log2 (Zpos m) = 23) by lia.
    pose proof (Z.log2_spec (Zpos m) ltac:(lia)) as [Hlo _]. by rewrite Hl in Hlo. }
  assert (Hlt : forall m e m' e', bounded 24 128 m e = true -> bounded 24 128 m' e' = true ->
            Zpos m * 2 ^ (e + 149) = Zpos m' * 2 ^ (e' + 149) -> e < e' -> False).
  { intros m e m' e' (He & Hm & _)%Hcanon (He' & Hm' & Hn')%Hcanon Hu Hee.
    destruct Hn' as [->|Hn']; [lia|].
    replace (e' + 149) with ((e' - e) + (e + 149)) in Hu by lia.
    rewrite (Z.pow_add_r 2 (e' - e) (e + 149)) in Hu by lia.
    assert (Hp : 0 < 2 ^ (e + 149)) by (apply Z.pow_pos_nonneg; lia).
    assert (Hm2 : Zpos m = Zpos m' * 2 ^ (e' - e)) by nia.
    assert (2 ^ 1 <= 2 ^ (e' - e)) by (apply Z.pow_le_mono_r; lia).
    change (2 ^ 1) with 2 in *. change (2 ^ 23) with 8388608 in *.
    change (2 ^ 24) with 16777216 in *. nia. }
  destruct f as [s|s| |s m e], g as [s'|s'| |s' m' e']; cbn [is_finite32 sign_of units];
    try discriminate; intros Hf Hg Hs Hu.
  - by subst.
  - pose proof (bounded_elim _ _ Hg) as [He _]. specialize (Hpos m' e'). lia.
  - pose proof (bounded_elim _ _ Hf) as [He _]. specialize (Hpos m e). lia.
  - subst s'.
    destruct (Z.lt_trichotomy e e') as [Hlt'|[->|Hgt]].
    + exfalso. by eapply (Hlt m e m' e').
    + f_equal. pose proof (bounded_elim _ _ Hf) as [He _].
      assert (Hp : 0 < 2 ^ (e' + 149)) by (apply Z.pow_pos_nonneg; lia). nia.
    + exfalso. eapply (Hlt m' e' m e); [done|done|lia|lia].
Qed.

(** Encoding what a token decodes to gives the token again. *)
Lemma token_of_decode_token f :
  is_finite32 f = true -> token_of (decode_token (token_of f)) = token_of f.
Proof.
  intros Hf.
  destruct (decode_token_round32 f Hf) as (f' & _ & -> & Hfin & Hs & Hn).
  unfold token_of. rewrite Hs. f_equal.
  apply N2Z.inj. rewrite (millis_units f' Hfin).
  pose proof (millis_near f Hf) as Hnear.
  pose proof (millis_units f Hf) as Hu.
  pose proof (div_round_even_tie (units f * 10 ^ 6) (2 ^ 149) ltac:(reflexivity)) as Htie.
  rewrite <- Hu in Htie.
  set (n := Z.of_N (millis f)) in *.
  apply div_round_even_unique; [reflexivity|].
  destruct (Z.eq_dec (2 * Z.abs (n * 2 ^ 149 - units f' * 10 ^ 6)) (2 ^ 149)) as [He|Hne].
  - right. split; [done|]. apply Htie. lia.
  - left. lia.
Qed.

Lemma decode_token_finite f :
  is_finite32 f = true -> is_finite32 (decode_token (token_of f)) = true.
Proof. intros Hf. by destruct (decode_token_round32 f Hf) as (f' & _ & -> & Hfin & _). Qed.

(** The magnitude of a finite float as a rational. *)
Lemma Qabs_F2Q f :
  is_finite32 f = true ->
  (Qabs (F2Q f) == units f # 713623846352979940529142984724747568191373312)%Q.
Proof.
  intros Hf. rewrite (F2Q_units f Hf).
  pose proof (units_bound f Hf) as [Hu _].
  assert (E : (Qabs (units f # 713623846352979940529142984724747568191373312)
               == units f # 713623846352979940529142984724747568191373312)%Q).
  { unfold Qabs. by rewrite Z.abs_eq. }
  destruct (sign_of f); unfold signedQ; [rewrite Qabs_opp|]; exact E.
Qed.

(** A float that is a whole number of millionths decodes from its token. *)
Lemma decode_token_exact f k :
  is_finite32 f = true -> (F2Q f == k # 1000000)%Q ->
  decode_token (token_of f) = f.
Proof.
  intros Hf Hk.
  destruct (decode_token_round32 f Hf) as (f' & _ & -> & Hfin & Hs & Hn).
  apply finite32_eq; [done|done|done|].
  assert (Hex : exists j, units f * 10 ^ 6 = j * 2 ^ 149).
  { rewrite (F2Q_units f Hf) in Hk. revert Hk.
    change (2 ^ 149) with 713623846352979940529142984724747568191373312.
    change (10 ^ 6) with 1000000.
    destruct (sign_of f); unfold signedQ, Qeq; cbn [Qnum Qden Qopp]; intros Hk.
    - exists (- k). lia.
    - exists k. lia. }
  destruct Hex as (j & Hj).
  pose proof (millis_units f Hf) as Hu.
  rewrite Hj, div_round_even_exact in Hu by reflexivity.
  rewrite Hu, Hj in Hn.
  change (10 ^ 6) with 1000000 in *.
  change (2 ^ 149) with 713623846352979940529142984724747568191373312 in *.
  lia.
Qed.

(** A token decodes to a zero exactly when the float is less than half a
    millionth in magnitude. *)
Lemma decode_token_zero f :
  is_finite32 f = true ->
  decode_token (token_of f) = S754_zero (sign_of f) <-> 2 * (units f * 10 ^ 6) < 2 ^ 149.
Proof.
  intros Hf.
  pose proof (millis_near f Hf) as Hnear.
  pose proof (millis_units f Hf) as Hu.
  pose proof (units_bound f Hf) as [Hu0 _].
  destruct (decode_token_round32 f Hf) as (f' & E & -> & Hfin & Hs & Hn).
  change (10 ^ 6) with 1000000 in *.
  change (2 ^ 149) with 713623846352979940529142984724747568191373312 in *.
  split.
  - intros ->. cbn [units] in Hn.
    assert (H5 : (2 * (units f * 1000000)) mod 5 = 0).
    { replace (2 * (units f * 1000000)) with (units f * 400000 * 5) by ring.
      apply Z.mod_mul. lia. }
    assert (2 * (units f * 1000000) <> 713623846352979940529142984724747568191373312).
    { intros Heq. rewrite Heq in H5. vm_compute in H5. discriminate H5. }
    lia.
  - intros Hsmall.
    assert (Hz : Z.of_N (millis f) = 0).
    { rewrite Hu. apply div_round_even_unique; [reflexivity|]. left. lia. }
    rewrite Hz, round32_zero in E. by injection E as <-.
Qed.

Lemma Qabs_F2Q_small f :
  is_finite32 f = true ->
  (Qabs (F2Q f) < 1 # 2000000)%Q <-> 2 * (units f * 10 ^ 6) < 2 ^ 149.
Proof.
  intros Hf. rewrite (Qabs_F2Q f Hf).
  change (10 ^ 6) with 1000000.
  change (2 ^ 149) with 713623846352979940529142984724747568191373312.
  unfold Qlt. cbn [Qnum Qden]. lia.
Qed.

(** ** The tokens of any float *)

Lemma Sprintf_f_token f :
  match f with
  | S754_zero _ | S754_finite _ _ _ => GoFmt.Sprintf_f f = token_of f
  | S754_nan => GoFmt.Sprintf_f f = "NaN"
  | S754_infinity s => GoFmt.Sprintf_f f = if s then "-Inf" else "+Inf"
  end.
Proof.
  unfold GoFmt.Sprintf_f. destruct f as [s|[]| |s m e]; try reflexivity;
    apply fmtFloat_token.
Qed.

Lemma Sprintf_f_no_comma f : no_comma (GoFmt.Sprintf_f f) = true.
Proof.
  pose proof (Sprintf_f_token f) as H.
  destruct f as [s|[]| |s m e]; rewrite H; try reflexivity;
    apply plain_no_comma, fmtF_plain.
Qed.

Lemma Sprintf_f_no_bracket f :
  string_forall (fun c => negb (GoStrings.contains_byte "[]" c)) (GoFmt.Sprintf_f f) = true.
Proof.
  pose proof (Sprintf_f_token f) as H.
  destruct f as [s|[]| |s m e]; rewrite H; try reflexivity;
    (eapply string_forall_impl; [|apply fmtF_plain]);
    intros c Hc; cbn beta; by rewrite plain_not_bracket.
Qed.

Lemma Sprintf_f_nonempty f : GoFmt.Sprintf_f f <> EmptyString.
Proof.
  pose proof (Sprintf_f_token f) as H.
  destruct f as [s|[]| |s m e]; rewrite H; try discriminate; apply token_nonempty.
Qed.

(** The text of any vector decodes token by token. *)
Lemma decode_Sprintf v :
  decode ("[" +:+ GoStrings.Join (GoFmt.Sprintf_f <$> v) "," +:+ "]")
  = decode_token <$> (GoFmt.Sprintf_f <$> v).
Proof.
  unfold decode. rewrite Trim_bracketed.
  - destruct v as [|f v]; [reflexivity|].
    rewrite decide_False by (apply Join_nonempty, Sprintf_f_nonempty).
    rewrite Split_Join; [done|done|].
    apply Forall_fmap, Forall_forall. intros g _. apply Sprintf_f_no_comma.
  - apply string_forall_Join; [reflexivity|].
    apply Forall_fmap, Forall_forall. intros g _. apply Sprintf_f_no_bracket.
Qed.

(** ** Brackets *)

Lemma trimRightASCII_append_cuts s r cutset :
  string_forall (GoStrings.contains_byte cutset) r = true ->
  GoStrings.trimRightASCII (s +:+ r) cutset = GoStrings.trimRightASCII s cutset.
Proof.
  revert s. induction r as [|c r IH]; intros s.
  - by rewrite append_nil_r.
  - cbn [string_forall]. rewrite andb_true_iff. intros [Hc Hr].
    change (String c r) with (String c EmptyString +:+ r).
    rewrite <- append_assoc, (IH _ Hr). by apply trimRightASCII_append_cut.
Qed.

Lemma Trim_append_cuts_l l s cutset :
  string_forall (GoStrings.contains_byte cutset) l = true ->
  GoStrings.Trim (l +:+ s) cutset = GoStrings.Trim s cutset.
Proof.
  unfold GoStrings.Trim. induction l as [|c l IH]; [done|].
  cbn [string_forall]. rewrite andb_true_iff. intros [Hc Hl].
  rewrite append_cons. cbn [GoStrings.trimRightASCII].
  rewrite <- (IH Hl), Hc.
  destruct (GoStrings.trimRightASCII (l +:+ s) cutset) as [|a r]; [reflexivity|].
  cbn [GoStrings.trimLeftASCII]. by rewrite Hc.
Qed.

(** [Trim] drops any run of cutset bytes at either end. *)
Lemma Trim_append_cuts l s r cutset :
  string_forall (GoStrings.contains_byte cutset) l = true ->
  string_forall (GoStrings.contains_byte cutset) r = true ->
  GoStrings.Trim (l +:+ s +:+ r) cutset = GoStrings.Trim s cutset.
Proof.
  intros Hl Hr. rewrite (Trim_append_cuts_l l _ cutset Hl).
  unfold GoStrings.Trim. by rewrite trimRightASCII_append_cuts.
Qed.

(** ** White space after a comma *)

Lemma ascii_space_prefix c s :
  is_ascii_space c = true -> GoStrings.space_prefix (String c s) = Some s.
Proof. unfold is_ascii_space, GoStrings.space_prefix. by intros ->. Qed.

Lemma ascii_space_not_comma c : is_ascii_space c = true -> Ascii.eqb c "," = false.
Proof. by_bits c. Qed.

Lemma ascii_space_not_bracket c :
  is_ascii_space c = true -> GoStrings.contains_byte "[]" c = false.
Proof. by_bits c. Qed.

(** White space in front of a token does not change what it decodes to. *)
Lemma TrimSpace_pad_l pad s :
  string_forall is_ascii_space pad = true ->
  GoStrings.TrimSpace (pad +:+ s) = GoStrings.TrimSpace s.
Proof.
  intros Hpad. unfold GoStrings.TrimSpace.
  assert (E : GoStrings.trim_while GoStrings.space_prefix (String.length (pad +:+ s)) (pad +:+ s)
              = GoStrings.trim_while GoStrings.space_prefix (String.length s) s).
  { induction pad as [|c pad IH]; [done|].
    cbn [string_forall] in Hpad. apply andb_true_iff in Hpad as [Hc Hpad].
    rewrite append_cons. cbn [String.length GoStrings.trim_while].
    rewrite ascii_space_prefix by done. by apply IH. }
  by rewrite E.
Qed.

Lemma decode_token_pad_l pad s :
  string_forall is_ascii_space pad = true ->
  decode_token (pad +:+ s) = decode_token s.
Proof. intros Hpad. unfold decode_token. by rewrite TrimSpace_pad_l. Qed.

Lemma append_comma_nonempty a b : a +:+ "," +:+ b <> EmptyString.
Proof. by destruct a. Qed.

Lemma trimRightASCII_comma a b :
  GoStrings.trimRightASCII (a +:+ "," +:+ b) "[]"
  = a +:+ "," +:+ GoStrings.trimRightASCII b "[]".
Proof.
  induction a as [|c a IH].
  - rewrite !append_nil_l, !append_cons, !append_nil_l. cbn [GoStrings.trimRightASCII].
    by destruct (GoStrings.trimRightASCII b "[]").
  - rewrite !(append_cons c a). cbn [GoStrings.trimRightASCII]. rewrite IH.
    pose proof (append_comma_nonempty a (GoStrings.trimRightASCII b "[]")) as Hne.
    by destruct (a +:+ "," +:+ GoStrings.trimRightASCII b "[]").
Qed.

Lemma trimLeftASCII_comma a b :
  GoStrings.trimLeftASCII (a +:+ "," +:+ b) "[]"
  = GoStrings.trimLeftASCII a "[]" +:+ "," +:+ b.
Proof.
  induction a as [|c a IH]; [reflexivity|].
  rewrite append_cons. cbn [GoStrings.trimLeftASCII].
  by destruct (GoStrings.contains_byte "[]" c).
Qed.

Lemma trimRightASCII_pad pad s cutset :
  string_forall (fun c => negb (GoStrings.contains_byte cutset c)) pad = true ->
  GoStrings.trimRightASCII (pad +:+ s) cutset = pad +:+ GoStrings.trimRightASCII s cutset.
Proof.
  induction pad as [|c pad IH]; [done|].
  cbn [string_forall]. rewrite andb_true_iff, negb_true_iff. intros [Hc Hpad].
  rewrite !(append_cons c pad). cbn [GoStrings.trimRightASCII]. rewrite (IH Hpad), Hc.
  by destruct (pad +:+ GoStrings.trimRightASCII s cutset).
Qed.

(** The interior of a text around one of its commas. *)
Lemma Trim_comma a b :
  GoStrings.Trim (a +:+ "," +:+ b) "[]"
  = GoStrings.trimLeftASCII a "[]" +:+ "," +:+ GoStrings.trimRightASCII b "[]".
Proof. unfold GoStrings.Trim. by rewrite trimRightASCII_comma, trimLeftASCII_comma. Qed.

Lemma Split_comma a b :
  GoStrings.Split (a +:+ "," +:+ b) "," = GoStrings.Split a "," ++ GoStrings.Split b ",".
Proof.
  induction a as [|c a IH]; [reflexivity|].
  rewrite append_cons. cbn [GoStrings.Split]. rewrite IH.
  destruct (Ascii.eqb c ","); [reflexivity|].
  pose proof (Split_length a) as Hl.
  by destruct (GoStrings.Split a ",").
Qed.

Lemma Split_pad pad s :
  no_comma pad = true ->
  exists part parts,
    GoStrings.Split s "," = part :: parts /\
    GoStrings.Split (pad +:+ s) "," = (pad +:+ part) :: parts.
Proof.
  unfold no_comma. induction pad as [|c pad IH].
  - intros _. pose proof (Split_length s) as Hl.
    destruct (GoStrings.Split s ",") as [|part parts] eqn:E; [done|].
    exists part, parts. by rewrite !append_nil_l.
  - cbn [string_forall]. rewrite andb_true_iff, negb_true_iff. intros [Hc Hpad].
    destruct (IH Hpad) as (part & parts & E1 & E2).
    exists part, parts. split; [done|].
    rewrite append_cons. cbn [GoStrings.Split]. by rewrite Hc, E2.
Qed.

(** ** Round trips *)

(** X1.  Encoding is stable under a round trip: for every vector of finite
    floats, [parseVectorString] of the text of [vectorToString] gives a
    vector that [vectorToString] encodes as the same text, so that storing
    and reading a vector again and again never drifts further. *)
Theorem vectorToString_parseVectorString_stable (v : list float32) :
  Forall (fun f => is_finite32 f = true) v ->
  exists text decoded,
    vectorToString v = Some text /\
    parseVectorString text = Some decoded /\
    vectorToString decoded = Some text.
Proof.
  intros Hv.
  exists ("[" +:+ GoStrings.Join (token_of <$> v) "," +:+ "]"),
         (decode_token <$> (token_of <$> v)).
  split; [|split].
  - by rewrite vectorToString_eq, Sprintf_tokens.
  - by rewrite parseVectorString_decode, decode_tokens.
  - rewrite vectorToString_eq, Sprintf_tokens.
    + do 4 f_equal. rewrite <- !list_fmap_compose.
      apply Forall_fmap_ext_1. eapply Forall_impl; [exact Hv|].
      intros f Hf. by apply token_of_decode_token.
    + rewrite <- list_fmap_compose. apply Forall_fmap.
      eapply Forall_impl; [exact Hv|]. intros f Hf. by apply decode_token_finite.
Qed.

Lemma vectorToString_parseVectorString_stable_witness :
  exists text decoded,
    vectorToString [S754_finite false 13421773 (-27); S754_finite true 1 (-149);
                    S754_finite false 16777215 104] = Some text /\
    parseVectorString text = Some decoded /\
    vectorToString decoded = Some text.
Proof.
  apply (vectorToString_parseVectorString_stable
           [S754_finite false 13421773 (-27); S754_finite true 1 (-149);
            S754_finite false 16777215 104]).
  repeat constructor.
Defined.

(** X2.  A vector of finite floats each of which is a whole number of
    millionths (every integer-valued float, and every multiple of 1/64) is
    read back exactly: [parseVectorString] of its text is the vector. *)
Theorem parseVectorString_vectorToString_exact (v : list float32) :
  Forall (fun f => is_finite32 f = true /\ exists k : Z, (F2Q f == k # 1000000)%Q) v ->
  exists text,
    vectorToString v = Some text /\
    parseVectorString text = Some v.
Proof.
  intros Hv.
  assert (Hfin : Forall (fun f => is_finite32 f = true) v).
  { eapply Forall_impl; [exact Hv|]. by intros f [Hf _]. }
  exists ("[" +:+ GoStrings.Join (token_of <$> v) "," +:+ "]").
  split.
  - by rewrite vectorToString_eq, Sprintf_tokens.
  - rewrite parseVectorString_decode, decode_tokens. f_equal.
    rewrite <- list_fmap_compose. rewrite <- (list_fmap_id v) at 2.
    apply Forall_fmap_ext_1. eapply Forall_impl; [exact Hv|].
    intros f [Hf [k Hk]]. by apply (decode_token_exact f k).
Qed.

(** The floats 1, -2.5, 1/64, -0 and 2^24. *)
Lemma parseVectorString_vectorToString_exact_witness :
  exists text,
    vectorToString [S754_finite false 8388608 (-23); S754_finite true 10485760 (-22);
                    S754_finite false 8388608 (-29); S754_zero true;
                    S754_finite false 8388608 1] = Some text /\
    parseVectorString text
    = Some [S754_finite false 8388608 (-23); S754_finite true 10485760 (-22);
            S754_finite false 8388608 (-29); S754_zero true;
            S754_finite false 8388608 1].
Proof.
  apply (parseVectorString_vectorToString_exact
           [S754_finite false 8388608 (-23); S754_finite true 10485760 (-22);
            S754_finite false 8388608 (-29); S754_zero true;
            S754_finite false 8388608 1]).
  repeat constructor.
  - by exists 1000000.
  - by exists (-2500000).
  - by exists 15625.
  - by exists 0.
  - by exists 16777216000000.
Defined.

(** X3.  The round trip keeps the sign of every finite component, and it
    turns a component into a zero (of that sign) exactly when the component
    is less than half a millionth in magnitude. *)
Theorem parseVectorString_vectorToString_sign (v : list float32) :
  Forall (fun f => is_finite32 f = true) v ->
  exists text decoded,
    vectorToString v = Some text /\
    parseVectorString text = Some decoded /\
    Forall2 (fun d f => sign_of d = sign_of f /\
                        (d = S754_zero (sign_of f) <-> (Qabs (F2Q f) < 1 # 2000000)%Q))
      decoded v.
Proof.
  intros Hv.
  exists ("[" +:+ GoStrings.Join (token_of <$> v) "," +:+ "]"),
         (decode_token <$> (token_of <$> v)).
  split; [|split].
  - by rewrite vectorToString_eq, Sprintf_tokens.
  - by rewrite parseVectorString_decode, decode_tokens.
  - rewrite <- list_fmap_compose. apply Forall2_fmap_l, Forall_Forall2_diag.
    eapply Forall_impl; [exact Hv|]. intros f Hf. cbn beta. unfold compose. split.
    + by destruct (decode_token_round32 f Hf) as (f' & _ & -> & _ & Hs & _).
    + by rewrite decode_token_zero, Qabs_F2Q_small.
Qed.

(** The floats 0.1, -2^-22 (about -2.4e-7) and the least subnormal. *)
Lemma parseVectorString_vectorToString_sign_witness :
  exists text decoded,
    vectorToString [S754_finite false 13421773 (-27); S754_finite true 8388608 (-45);
                    S754_finite false 1 (-149)] = Some text /\
    parseVectorString text = Some decoded /\
    Forall2 (fun d f => sign_of d = sign_of f /\
                        (d = S754_zero (sign_of f) <-> (Qabs (F2Q f) < 1 # 2000000)%Q))
      decoded
      [S754_finite false 13421773 (-27); S754_finite true 8388608 (-45);
       S754_finite false 1 (-149)].
Proof.
  apply (parseVectorString_vectorToString_sign
           [S754_finite false 13421773 (-27); S754_finite true 8388608 (-45);
            S754_finite false 1 (-149)]).
  repeat constructor.
Defined.

(** X4.  [vectorToString] and [parseVectorString] work on every vector,
    finite or not: the text decodes to a vector of the same length, in which
    a NaN is a NaN and an infinity is the infinity of the same sign. *)
Theorem parseVectorString_vectorToString_nonfinite (v : list float32) :
  exists text decoded,
    vectorToString v = Some text /\
    parseVectorString text = Some decoded /\
    length decoded = length v /\
    Forall2 (fun d f => match f with
                        | S754_nan | S754_infinity _ => d = f
                        | _ => True
                        end) decoded v.
Proof.
  exists ("[" +:+ GoStrings.Join (GoFmt.Sprintf_f <$> v) "," +:+ "]"),
         (decode_token <$> (GoFmt.Sprintf_f <$> v)).
  split; [|split; [|split]].
  - apply vectorToString_eq.
  - by rewrite parseVectorString_decode, decode_Sprintf.
  - by rewrite !length_fmap.
  - rewrite <- list_fmap_compose. apply Forall2_fmap_l, Forall_Forall2_diag.
    apply Forall_forall. intros f _. cbn beta. unfold compose.
    destruct f as [s|[]| |s m e]; try done; vm_compute; reflexivity.
Qed.

(** X5.  [parseVectorString] ignores every bracket character at either end
    of the text, whatever their number, kind and order. *)
Theorem parseVectorString_brackets (l s r : string) :
  string_forall (GoStrings.contains_byte "[]") l = true ->
  string_forall (GoStrings.contains_byte "[]") r = true ->
  parseVectorString (l +:+ s +:+ r) = parseVectorString s.
Proof.
  intros Hl Hr. unfold parseVectorString.
  by rewrite (Trim_append_cuts l s r "[]" Hl Hr).
Qed.

Lemma parseVectorString_brackets_witness :
  parseVectorString ("][[" +:+ "1.5,2" +:+ "[") = parseVectorString "1.5,2".
Proof.
  apply (parseVectorString_brackets "][[" "1.5,2" "["); reflexivity.
Defined.

(** X6.  [parseVectorString] ignores ASCII white space that follows a comma:
    a text with such white space decodes as the text without it. *)
Theorem parseVectorString_space_after_comma (s1 pad s2 : string) :
  string_forall is_ascii_space pad = true ->
  parseVectorString (s1 +:+ "," +:+ pad +:+ s2) = parseVectorString (s1 +:+ "," +:+ s2).
Proof.
  intros Hpad.
  assert (Hnc : no_comma pad = true).
  { eapply string_forall_impl; [|exact Hpad].
    intros c Hc. cbn beta. by rewrite ascii_space_not_comma. }
  assert (Hnb : string_forall (fun c => negb (GoStrings.contains_byte "[]" c)) pad = true).
  { eapply string_forall_impl; [|exact Hpad].
    intros c Hc. cbn beta. by rewrite ascii_space_not_bracket. }
  rewrite !parseVectorString_decode. f_equal. unfold decode.
  rewrite !Trim_comma, trimRightASCII_pad by done.
  rewrite !decide_False by apply append_comma_nonempty.
  rewrite !Split_comma, !fmap_app. f_equal.
  destruct (Split_pad pad (GoStrings.trimRightASCII s2 "[]") Hnc) as (part & parts & -> & ->).
  cbn [fmap list_fmap]. by rewrite decode_token_pad_l.
Qed.

Lemma parseVectorString_space_after_comma_witness :
  parseVectorString ("[1.5" +:+ "," +:+ String " " (String "009" EmptyString) +:+ "-2]")
  = parseVectorString ("[1.5" +:+ "," +:+ "-2]").
Proof.
  apply (parseVectorString_space_after_comma "[1.5" (String " " (String "009" EmptyString)) "-2]").
  reflexivity.
Defined.

(** ** Tokens out of range *)

(** A decimal of at least [2^128] rounds out of the range of binary32. *)
Lemma round32_overflow neg n :
  2 ^ 128 * 10 ^ 6 <= n -> round32 neg n 1000000 = (S754_infinity neg, true).
Proof.
  intros Hn.
  assert (Hn0 : 0 <= n) by (revert Hn; change (2 ^ 128 * 10 ^ 6) with
    340282366920938463463374607431768211456000000; lia).
  assert (Ha : 0 <= n * 2 ^ 149) by (apply Z.mul_nonneg_nonneg; [lia|vm_compute; congruence]).
  pose proof (round_nearest (n * 2 ^ 149) 1000000 (2 ^ 23) 254 ltac:(lia) Ha ltac:(lia)
                ltac:(vm_compute; split; congruence)) as Hnear.
  pose proof (round32_spec neg n 1000000 Hn0) as Hspec.
  cbv zeta in Hnear, Hspec.
  set (sh := round_shift _ _) in *.
  set (x := div_round_even _ _) in *.
  destruct (round32 neg n 1000000) as [f [|]].
  - by destruct Hspec as [-> _].
  - exfalso. destruct Hspec as (Hfin & _ & Hunits).
    pose proof (units_bound f Hfin) as [_ Hub]. rewrite Hunits in Hub.
    revert Hn Hnear Hub.
    change (2 ^ 128 * 10 ^ 6) with 340282366920938463463374607431768211456000000.
    change (2 ^ 23 * 2 ^ 254) with
      242833611528216133864932738352939863330300854881517440156476551217363035650651062272.
    change ((2 ^ 24 - 1) * 2 ^ 253) with
      242833597054204979200408310406566737244312373222769356951406046285165034661509857280.
    change (2 ^ 149) with 713623846352979940529142984724747568191373312.
    lia.
Qed.

(** X14.  A fixed-point token whose magnitude is [2^128] or more is out of
    the range of [float32]: [strconv.ParseFloat] returns a range error with
    the infinity, and [parseVectorString] leaves the component at zero,
    without the sign of the token. *)
Theorem parseVectorString_out_of_range (neg : bool) (n : N) :
  2 ^ 128 * 10 ^ 6 <= Z.of_N n ->
  ParseFloat (fmtF neg n) = (S754_infinity neg, Some ErrRange) /\
  parseVectorString ("[" +:+ fmtF neg n +:+ "]") = Some [S754_zero false].
Proof.
  intros Hn.
  assert (Hp : ParseFloat (fmtF neg n) = (S754_infinity neg, Some ErrRange)).
  { by rewrite ParseFloat_token, round32_overflow. }
  split; [done|].
  rewrite parseVectorString_decode. f_equal. unfold decode.
  rewrite Trim_bracketed.
  2:{ eapply string_forall_impl; [|apply fmtF_plain].
      intros c Hc. cbn beta. by rewrite plain_not_bracket. }
  assert (Hne : fmtF neg n <> EmptyString).
  { rewrite fmtF_token.
    destruct (token_body_head (n / 1000000) (n mod 1000000)) as (c & r & -> & _).
    by destruct neg. }
  rewrite decide_False by done.
  rewrite Split_no_comma by apply plain_no_comma, fmtF_plain.
  cbn [fmap list_fmap]. unfold decode_token.
  by rewrite TrimSpace_plain, Hp by apply fmtF_plain.
Qed.

(** The token [-340282366920938463463374607431768211456.000000]. *)
Lemma parseVectorString_out_of_range_witness :
  ParseFloat (fmtF true 340282366920938463463374607431768211456000000)
  = (S754_infinity true, Some ErrRange) /\
  parseVectorString ("[" +:+ fmtF true 340282366920938463463374607431768211456000000 +:+ "]")
  = Some [S754_zero false].
Proof.
  apply (parseVectorString_out_of_range true 340282366920938463463374607431768211456000000).
  vm_compute. discriminate.
Defined.

Example fmtF_out_of_range :
  fmtF true 340282366920938463463374607431768211456000000
  = "-340282366920938463463374607431768211456.000000".
Proof. vm_compute. reflexivity. Qed.

(** * Further properties of ingestion *)

(** The outcomes of [CreateDocument]. *)
Lemma CreateDocument_fails w doc :
  embedding_fails w doc ->
  exists err events,
    CreateDocument w doc = Some (doc, Some err, events) /\
    storage_writes events = O /\ (http_posts events <= 1)%nat.
Proof.
  intros Hfail. unfold CreateDocument.
  destruct (json_Marshal w (ollamaReq doc)) as [requestBody|err] eqn:Em.
  2:{ eexists _, _. split; [reflexivity|]. split; [reflexivity|]. by apply Nat.leb_le. }
  destruct (http_Post w (endpoint w) "application/json" requestBody) as [resp|err] eqn:Ep.
  2:{ eexists _, _. split; [reflexivity|]. split; [reflexivity|]. by apply Nat.leb_le. }
  destruct (Body resp) as [body|err] eqn:Eb.
  2:{ eexists _, _. split; [reflexivity|]. split; [reflexivity|]. by apply Nat.leb_le. }
  destruct (decide (StatusCode resp ≠ 200)) as [Hs|Hs].
  { eexists _, _. split; [reflexivity|]. split; [reflexivity|]. by apply Nat.leb_le. }
  destruct (json_Unmarshal w body) as [embedding|err] eqn:Eu.
  2:{ eexists _, _. split; [reflexivity|]. split; [reflexivity|]. by apply Nat.leb_le. }
  exfalso.
  destruct Hfail as [e H|b e H1 H2|b r e H1 H2 H3|b r H1 H2 H3|b r c e H1 H2 H3 H4];
    rewrite Em in *; simplify_eq; rewrite Ep in *; simplify_eq;
    try (rewrite Eb in *; simplify_eq); try (rewrite Eu in *; simplify_eq); done.
Qed.

Lemma embedding_fails_or_succeeds w doc :
  embedding_fails w doc \/ exists E, embedding_succeeds w doc E.
Proof.
  destruct (json_Marshal w (ollamaReq doc)) as [requestBody|err] eqn:Em.
  2:{ left. by eapply marshal_fails. }
  destruct (http_Post w (endpoint w) "application/json" requestBody) as [resp|err] eqn:Ep.
  2:{ left. by eapply post_fails. }
  destruct (decide (StatusCode resp = 200)) as [Hs|Hs].
  2:{ left. by eapply status_fails. }
  destruct (Body resp) as [body|err] eqn:Eb.
  2:{ left. by eapply read_fails. }
  destruct (json_Unmarshal w body) as [embedding|err] eqn:Eu.
  2:{ left. by eapply unmarshal_fails. }
  right. exists embedding, requestBody, resp, body. done.
Qed.

Lemma embedding_fails_not_succeeds w doc E :
  embedding_fails w doc -> embedding_succeeds w doc E -> False.
Proof.
  intros Hfail (requestBody & resp & body & Em & Ep & Hs & Eb & Eu).
  destruct Hfail as [e H|b e H1 H2|b r e H1 H2 H3|b r H1 H2 H3|b r c e H1 H2 H3 H4];
    rewrite Em in *; simplify_eq; rewrite Ep in *; simplify_eq;
    try (rewrite Eb in *; simplify_eq); try (rewrite Eu in *; simplify_eq); done.
Qed.

Lemma CreateDocument_inserts w doc E :
  embedding_succeeds w doc E ->
  exists requestBody body text,
    json_Marshal w (ollamaReq doc) = inl requestBody /\
    vectorToString E = Some text /\
    CreateDocument w doc
    = match db_QueryRow (database w) insert_query (Content doc) (MediaType doc)
              (FileName doc) text with
      | RowScanned id created_at =>
          Some (mkDocument id (Content doc) (MediaType doc) (FileName doc) E created_at,
                None, insert_trace w doc requestBody body E text ++ [BodyClose])
      | RowScanError stored_id err =>
          Some (mkDocument (default (ID doc) stored_id) (Content doc) (MediaType doc)
                  (FileName doc) E (CreatedAt doc),
                Some ("failed to save document: " +:+ err),
                insert_trace w doc requestBody body E text
                  ++ [Log "Database error: %v" [OErr err]; BodyClose])
      | RowError err =>
          Some (mkDocument (ID doc) (Content doc) (MediaType doc) (FileName doc) E
                  (CreatedAt doc),
                Some ("failed to save document: " +:+ err),
                insert_trace w doc requestBody body E text
                  ++ [Log "Database error: %v" [OErr err]; BodyClose])
      end.
Proof.
  intros (requestBody & resp & body & Em & Ep & Hs & Eb & Eu).
  exists requestBody, body, ("[" +:+ GoStrings.Join (GoFmt.Sprintf_f <$> E) "," +:+ "]").
  split; [done|]. split; [apply vectorToString_eq|].
  unfold CreateDocument. rewrite Em, Ep, Eb.
  rewrite decide_False by (intros H; by apply H).
  rewrite Eu. cbn [Embedding Content MediaType FileName ID CreatedAt].
  rewrite vectorToString_eq. cbn [mbind option_bind]. rewrite Hs.
  by destruct (db_QueryRow _ _ _ _ _ _).
Qed.

(** X7.  In every world [CreateDocument] returns, and it leaves the content
    and the two labels of the document as they were; the embedding of the
    document is either untouched or the one the provider returned, and the
    identifier and the timestamp change only after an insert was issued. *)
Theorem CreateDocument_frame (w : World) (doc : Document) :
  exists (doc' : Document) (err : option error) (events : list event),
    CreateDocument w doc = Some (doc', err, events) /\
    Content doc' = Content doc /\
    MediaType doc' = MediaType doc /\
    FileName doc' = FileName doc /\
    (Embedding doc' = Embedding doc \/ embedding_succeeds w doc (Embedding doc')) /\
    (ID doc' <> ID doc \/ CreatedAt doc' <> CreatedAt doc -> storage_writes events = 1%nat).
Proof.
  destruct (embedding_fails_or_succeeds w doc) as [Hfail|[E HE]].
  - destruct (CreateDocument_fails w doc Hfail) as (err & events & -> & _).
    exists doc, (Some err), events. repeat split; auto. by intros [[]|[]].
  - destruct (CreateDocument_inserts w doc E HE) as (requestBody & body & text & _ & _ & ->).
    destruct (db_QueryRow _ _ _ _ _ _); eexists _, _, _;
      (split; [reflexivity|]); repeat split; auto.
Qed.

(** X8.  [CreateDocument] posts to the provider at most once and inserts at
    most once, and never inserts without having posted; it issues the insert
    exactly when the embedding step succeeds, and it returns no error only
    after an insert. *)
Theorem CreateDocument_calls (w : World) (doc doc' : Document) (err : option error)
    (events : list event) :
  CreateDocument w doc = Some (doc', err, events) ->
  (storage_writes events <= http_posts events <= 1)%nat /\
  (storage_writes events = 1%nat <-> exists E, embedding_succeeds w doc E) /\
  (err = None -> storage_writes events = 1%nat).
Proof.
  destruct (embedding_fails_or_succeeds w doc) as [Hfail|[E HE]].
  - destruct (CreateDocument_fails w doc Hfail) as (e & events' & -> & Hw & Hp).
    intros [= <- <- <-]. rewrite Hw. split; [lia|]. split; [|done].
    split; [done|]. intros [E HE]. by destruct (embedding_fails_not_succeeds w doc E).
  - destruct (CreateDocument_inserts w doc E HE) as (requestBody & body & text & _ & _ & ->).
    destruct (db_QueryRow _ _ _ _ _ _); intros [= <- <- <-];
      (split; [split; by apply Nat.leb_le|]); (split; [|done]); split; eauto.
Qed.

Lemma CreateDocument_calls_witness :
  exists (doc' : Document) (err : option error) (events : list event),
    CreateDocument world_ok hello = Some (doc', err, events) /\
    (storage_writes events <= http_posts events <= 1)%nat /\
    (storage_writes events = 1%nat <-> exists E, embedding_succeeds world_ok hello E) /\
    (err = None -> storage_writes events = 1%nat).
Proof.
  eexists _, _, _. split; [reflexivity|].
  eapply (CreateDocument_calls world_ok hello). reflexivity.
Defined.

(** X9.  [CreateDocument] closes the body of the provider's response exactly
    once, as the last thing it does, on every path on which the provider
    answered (whatever the status, and whether or not the insert succeeds),
    and it closes nothing when no response came back. *)
Theorem CreateDocument_closes_body (w : World) (doc doc' : Document) (err : option error)
    (events : list event) :
  CreateDocument w doc = Some (doc', err, events) ->
  (provider_responds w doc -> body_closes events = 1%nat /\ last events = Some BodyClose) /\
  (~ provider_responds w doc -> body_closes events = O).
Proof.
  unfold provider_responds, CreateDocument.
  destruct (json_Marshal w (ollamaReq doc)) as [requestBody|e] eqn:Em.
  2:{ intros [= <- <- <-]. split; [|done]. by intros (? & ? & ? & _). }
  destruct (http_Post w (endpoint w) "application/json" requestBody) as [resp|e] eqn:Ep.
  2:{ intros [= <- <- <-]. split; [|done].
      intros (b & r & [= <-] & H). rewrite Ep in H. discriminate H. }
  intros Hrun.
  assert (Hyes : body_closes events = 1%nat /\ last events = Some BodyClose).
  { revert Hrun.
    destruct (Body resp) as [body|e]; [|by intros [= <- <- <-]].
    destruct (decide (StatusCode resp ≠ 200)); [by intros [= <- <- <-]|].
    destruct (json_Unmarshal w body) as [embedding|e]; [|by intros [= <- <- <-]].
    cbn [Embedding Content MediaType FileName ID CreatedAt].
    rewrite vectorToString_eq. cbn [mbind option_bind].
    destruct (db_QueryRow _ _ _ _ _ _); by intros [= <- <- <-]. }
  split; [done|]. intros Hno. destruct Hno. eauto.
Qed.

Lemma CreateDocument_closes_body_witness :
  exists (doc' : Document) (err : option error) (events : list event),
    CreateDocument world_500 hello = Some (doc', err, events) /\
    (provider_responds world_500 hello ->
     body_closes events = 1%nat /\ last events = Some BodyClose) /\
    (~ provider_responds world_500 hello -> body_closes events = O).
Proof.
  eexists _, _, _. split; [reflexivity|].
  eapply (CreateDocument_closes_body world_500 hello). reflexivity.
Defined.

(** X15.  If [CreateDocument] returns no error, the embedding step succeeded
    and the store returned the row of the insert: the document then carries
    the embedding of the provider and the identifier and timestamp of the
    store, with its content and labels as passed in. *)
Theorem CreateDocument_nil_error (w : World) (doc doc' : Document) (events : list event) :
  CreateDocument w doc = Some (doc', None, events) ->
  exists (E : list float32) (text : string) (id : Z) (t : Time),
    embedding_succeeds w doc E /\
    vectorToString E = Some text /\
    db_QueryRow (database w) insert_query (Content doc) (MediaType doc) (FileName doc) text
    = RowScanned id t /\
    doc' = mkDocument id (Content doc) (MediaType doc) (FileName doc) E t.
Proof.
  destruct (embedding_fails_or_succeeds w doc) as [Hfail|[E HE]].
  - destruct (CreateDocument_fails w doc Hfail) as (e & events' & -> & _). discriminate.
  - destruct (CreateDocument_inserts w doc E HE) as (requestBody & body & text & _ & Ht & ->).
    destruct (db_QueryRow _ _ _ _ _ _) as [e|stored_id e|id t] eqn:Erow; try discriminate.
    intros [= <- <-]. by exists E, text, id, t.
Qed.

Lemma CreateDocument_nil_error_witness :
  exists (E : list float32) (text : string) (id : Z) (t : Time),
    embedding_succeeds world_ok hello E /\
    vectorToString E = Some text /\
    db_QueryRow (database world_ok) insert_query (Content hello) (MediaType hello)
      (FileName hello) text = RowScanned id t /\
    mkDocument 7 "hello" None None example_embedding 1700000000
    = mkDocument id (Content hello) (MediaType hello) (FileName hello) E t.
Proof.
  eapply (CreateDocument_nil_error world_ok hello). reflexivity.
Defined.

(** X10.  Ingestion and search compose: when the provider returns a vector
    [E] of finite floats, [CreateDocument] sends to the store a text for the
    embedding such that, whenever the store hands that text back in a row of
    a search, [SearchSimilarDocuments] returns a document whose embedding has
    the length of [E] and is within [1e-6] of it in every component. *)
Theorem CreateDocument_then_SearchSimilarDocuments (w : World) (doc : Document)
    (E : list float32) :
  embedding_succeeds w doc E ->
  Forall (fun f => is_finite32 f = true) E ->
  exists (text : string) (doc' : Document) (err : option error) (events : list event),
    CreateDocument w doc = Some (doc', err, events) /\
    QueryRow insert_query (Content doc) (MediaType doc) (FileName doc) text ∈ events /\
    forall (db : DB) (q : list float32) (limit : Z) (qtext : string) (id : Z)
           (createdAt : Time) (similarity : float64),
      vectorToString q = Some qtext ->
      db_Query db search_query qtext limit
      = inl [Scanned id (Content doc) (MediaType doc) (FileName doc) text createdAt
               similarity] ->
      exists (found : Document) (events' : list event),
        SearchSimilarDocuments db q limit = Some ([found], None, events') /\
        ID found = id /\ Content found = Content doc /\
        MediaType found = MediaType doc /\ FileName found = FileName doc /\
        length (Embedding found) = length E /\
        Forall2 (fun d f => is_finite32 d = true /\
                            (Qabs (F2Q d - F2Q f) <= 1 # 1000000)%Q) (Embedding found) E.
Proof.
  intros HE Hfin.
  destruct (CreateDocument_inserts w doc E HE)
    as (requestBody & body & text & _ & Ht & Hrun).
  assert (Htext : text = "[" +:+ GoStrings.Join (token_of <$> E) "," +:+ "]").
  { rewrite vectorToString_eq, Sprintf_tokens in Ht by done. by injection Ht as <-. }
  assert (Hin : forall tail,
            QueryRow insert_query (Content doc) (MediaType doc) (FileName doc) text
            ∈ insert_trace w doc requestBody body E text ++ tail).
  { intros tail. apply elem_of_app. left. unfold insert_trace.
    do 5 apply list_elem_of_further. apply list_elem_of_here. }
  assert (Hrun' : exists doc' err events,
            CreateDocument w doc = Some (doc', err, events) /\
            QueryRow insert_query (Content doc) (MediaType doc) (FileName doc) text ∈ events).
  { rewrite Hrun. destruct (db_QueryRow _ _ _ _ _ _); eexists _, _, _; split; try reflexivity;
      apply Hin. }
  destruct Hrun' as (doc' & err & events & Hc & Hq).
  exists text, doc', err, events. split; [done|]. split; [done|].
  intros db q limit qtext id createdAt similarity Hqt Hrows.
  eexists _, _. split; [by apply (SearchSimilarDocuments_rows db q limit qtext _ Hqt Hrows)|].
  cbn [ID Content MediaType FileName Embedding].
  rewrite Htext, decode_tokens.
  split; [done|]. split; [done|]. split; [done|]. split; [done|].
  split; [by rewrite !length_fmap|].
  rewrite <- list_fmap_compose. apply Forall2_fmap_l, Forall_Forall2_diag.
  eapply Forall_impl; [exact Hfin|]. intros f Hf. by apply decode_token_of.
Qed.

Lemma CreateDocument_then_SearchSimilarDocuments_witness :
  exists (text : string) (doc' : Document) (err : option error) (events : list event),
    CreateDocument world_ok hello = Some (doc', err, events) /\
    QueryRow insert_query (Content hello) (MediaType hello) (FileName hello) text ∈ events /\
    forall (db : DB) (q : list float32) (limit : Z) (qtext : string) (id : Z)
           (createdAt : Time) (similarity : float64),
      vectorToString q = Some qtext ->
      db_Query db search_query qtext limit
      = inl [Scanned id (Content hello) (MediaType hello) (FileName hello) text createdAt
               similarity] ->
      exists (found : Document) (events' : list event),
        SearchSimilarDocuments db q limit = Some ([found], None, events') /\
        ID found = id /\ Content found = Content hello /\
        MediaType found = MediaType hello /\ FileName found = FileName hello /\
        length (Embedding found) = length example_embedding /\
        Forall2 (fun d f => is_finite32 d = true /\
                            (Qabs (F2Q d - F2Q f) <= 1 # 1000000)%Q) (Embedding found)
          example_embedding.
Proof.
  apply (CreateDocument_then_SearchSimilarDocuments world_ok hello example_embedding).
  - exists "request", (mkResponse 200 (inl example_body)), example_body.
    repeat split; reflexivity.
  - repeat constructor.
Defined.

(** * Further properties of the search *)

Lemma row_log_no_call (rows : list row) :
  filter (fun ev => is_db_call ev = true) (row_log <$> rows) = [] /\
  filter (fun ev => is_http_post ev = true) (row_log <$> rows) = [] /\
  RowsClose ∉ row_log <$> rows.
Proof.
  induction rows as [|r rows (IH1 & IH2 & IH3)]; [repeat split; apply not_elem_of_nil|].
  cbn [fmap list_fmap]. split; [|split].
  - rewrite filter_cons_False; [done|]. by destruct r.
  - rewrite filter_cons_False; [done|]. by destruct r.
  - apply not_elem_of_cons. split; [by destruct r|done].
Qed.

Lemma scanned_documents_length (rows : list row) :
  (length (scanned_documents rows) <= length rows)%nat.
Proof.
  unfold scanned_documents. induction rows as [|r rows IH]; [done|].
  cbn. destruct (scanned_document r); cbn; lia.
Qed.

(** X11.  Whatever the store answers, [SearchSimilarDocuments] returns, and
    its only call to the store is one query: the search statement with the
    text of the query vector and the limit as passed in.  It never inserts
    and never calls the provider. *)
Theorem SearchSimilarDocuments_one_query (db : DB) (q : list float32) (limit : Z) :
  exists (text : string) (documents : list Document) (err : option error)
         (events : list event),
    vectorToString q = Some text /\
    SearchSimilarDocuments db q limit = Some (documents, err, events) /\
    filter (fun ev => is_db_call ev = true) events = [Query search_query text limit] /\
    storage_writes events = O /\
    http_posts events = O.
Proof.
  exists ("[" +:+ GoStrings.Join (GoFmt.Sprintf_f <$> q) "," +:+ "]").
  pose proof (vectorToString_eq q) as Ht.
  destruct (db_Query db search_query
              ("[" +:+ GoStrings.Join (GoFmt.Sprintf_f <$> q) "," +:+ "]") limit)
    as [rows|cause] eqn:Eq.
  - eexists _, _, _. split; [done|].
    split; [by apply (SearchSimilarDocuments_rows db q limit _ rows Ht Eq)|].
    destruct (row_log_no_call rows) as (H1 & H2 & _).
    assert (H3 : filter (fun ev => is_storage_write ev = true) (row_log <$> rows) = []).
    { clear. induction rows as [|r rows IH]; [done|]. cbn [fmap list_fmap].
      rewrite filter_cons_False; [done|]. by destruct r. }
    unfold storage_writes, http_posts.
    rewrite !filter_app, H1, H2, H3. done.
  - eexists _, _, _. split; [done|]. split.
    + unfold SearchSimilarDocuments. rewrite Ht. cbn [mbind option_bind].
      rewrite Eq. reflexivity.
    + done.
Qed.

(** X12.  When the query fails, [SearchSimilarDocuments] returns no document
    and the error of the store as it is, and it closes no result set; when
    the query succeeds it returns no error and at most one document per row,
    and closing the result set is the last thing it does, also when rows
    fail to scan. *)
Theorem SearchSimilarDocuments_error_and_close (db : DB) (q : list float32) (limit : Z) :
  exists (text : string) (documents : list Document) (err : option error)
         (events : list event),
    vectorToString q = Some text /\
    SearchSimilarDocuments db q limit = Some (documents, err, events) /\
    match db_Query db search_query text limit with
    | inr cause => documents = [] /\ err = Some cause /\ RowsClose ∉ events
    | inl rows =>
        err = None /\ last events = Some RowsClose /\
        (length documents <= length rows)%nat
    end.
Proof.
  exists ("[" +:+ GoStrings.Join (GoFmt.Sprintf_f <$> q) "," +:+ "]").
  pose proof (vectorToString_eq q) as Ht.
  destruct (db_Query db search_query
              ("[" +:+ GoStrings.Join (GoFmt.Sprintf_f <$> q) "," +:+ "]") limit)
    as [rows|cause] eqn:Eq.
  - eexists _, _, _. split; [done|].
    split; [by apply (SearchSimilarDocuments_rows db q limit _ rows Ht Eq)|].
    split; [done|]. split; [|apply scanned_documents_length].
    by rewrite !app_assoc, last_snoc.
  - eexists _, _, _. split; [done|]. split.
    + unfold SearchSimilarDocuments. rewrite Ht. cbn [mbind option_bind].
      rewrite Eq. reflexivity.
    + split; [done|]. split; [done|].
      intros H. repeat (apply elem_of_cons in H as [H|H]; [discriminate H|]).
      by apply elem_of_nil in H.
Qed.

(** * Further properties of the endpoint *)

(** X13.  [getOllamaURL] reads two variables only: setting or unsetting any
    other variable of the environment does not change the endpoint. *)
Theorem getOllamaURL_other_variables (env : gmap string string) (key value : string) :
  key <> "OLLAMA_URL" -> key <> "DOCKER_CONTAINER" ->
  getOllamaURL (<[key := value]> env) = getOllamaURL env /\
  getOllamaURL (delete key env) = getOllamaURL env.
Proof.
  intros H1 H2. unfold getOllamaURL, GoOs.Getenv, GoOs.LookupEnv.
  by rewrite !lookup_insert_ne, !lookup_delete_ne.
Qed.

Lemma getOllamaURL_other_variables_witness :
  getOllamaURL (<["HOME" := "/root"]> (<["DOCKER_CONTAINER" := "1"]> ∅))
  = getOllamaURL (<["DOCKER_CONTAINER" := "1"]> ∅) /\
  getOllamaURL (delete "HOME" (<["DOCKER_CONTAINER" := "1"]> ∅))
  = getOllamaURL (<["DOCKER_CONTAINER" := "1"]> ∅).
Proof.
  apply (getOllamaURL_other_variables (<["DOCKER_CONTAINER" := "1"]> ∅) "HOME" "/root");
    discriminate.
Defined.
